(** * libls/ls.c: the traversal controller, the selection and aggregation
      pass and the ordering policy of [ls], as Rocq functions.

    The C program keeps its configuration and its run status in global
    variables; here they are the fields of [globals], threaded explicitly.
    The error channel, the standard output, the allocator and the list of
    [fts_set] requests are the remaining fields of [world]. *)

From Stdlib Require Import ZArith List String Ascii Bool Lia DecimalString.
Import ListNotations.
Local Open Scope Z_scope.

(** ** C strings and machine integers *)

(** The value of a [char] read as [unsigned char]. *)
Definition uchar (c : ascii) : Z := Z.of_N (N_of_ascii c).

(** [strcmp]: difference of the first two differing bytes; a NUL byte ends
    the string, so whatever follows it in the buffer is not looked at. *)
Fixpoint strcmp (s t : string) : Z :=
  match s, t with
  | EmptyString, EmptyString => 0
  | EmptyString, String d _ => 0 - uchar d
  | String c _, EmptyString => uchar c - 0
  | String c s', String d t' =>
      if uchar c =? uchar d
      then (if uchar c =? 0 then 0 else strcmp s' t')
      else uchar c - uchar d
  end.

(** [strlen]: number of bytes before the first NUL. *)
Fixpoint strlen (s : string) : Z :=
  match s with
  | EmptyString => 0
  | String c s' => if uchar c =? 0 then 0 else 1 + strlen s'
  end.

(** [s[0] == '.'] *)
Definition first_is_dot (s : string) : bool :=
  match s with
  | String c _ => uchar c =? 46
  | EmptyString => false
  end.

(** Conversion of a value to [int] (32 bits, two's complement). *)
Definition int_of (z : Z) : Z := (z + 2 ^ 31) mod 2 ^ 32 - 2 ^ 31.

(** Arithmetic on [unsigned long] (64 bits) wraps around. *)
Definition ulong_of (z : Z) : Z := z mod 2 ^ 64.

(** [umaxtostr] (gnulib, inttostr.h): the decimal digits of a [uintmax_t]. *)
Definition umaxtostr (n : Z) : string :=
  NilEmpty.string_of_uint (N.to_uint (Z.to_N (n mod 2 ^ 64))).

Definition EXIT_FAILURE : Z := 1.

(** ** The entries handed out by the file-tree walk (fts_.h) *)

Inductive fts_info_t : Set :=
  | FTS_D | FTS_DC | FTS_DEFAULT | FTS_DNR | FTS_DOT | FTS_DP | FTS_ERR
  | FTS_F | FTS_INIT | FTS_NS | FTS_NSOK | FTS_SL | FTS_SLNONE | FTS_W.

Definition info_eqb (x y : fts_info_t) : bool :=
  match x, y with
  | FTS_D, FTS_D | FTS_DC, FTS_DC | FTS_DEFAULT, FTS_DEFAULT
  | FTS_DNR, FTS_DNR | FTS_DOT, FTS_DOT | FTS_DP, FTS_DP
  | FTS_ERR, FTS_ERR | FTS_F, FTS_F | FTS_INIT, FTS_INIT
  | FTS_NS, FTS_NS | FTS_NSOK, FTS_NSOK | FTS_SL, FTS_SL
  | FTS_SLNONE, FTS_SLNONE | FTS_W, FTS_W => true
  | _, _ => false
  end.

Definition FTS_ROOTLEVEL : Z := 0.

(** ls.h: the value of [fts_number] that hides an entry from the printers. *)
Definition NO_PRINT : Z := 1.

(** The fields of [struct stat] that ls.c reads. *)
Record stat : Set := mkstat {
  st_mode : Z;
  st_ino : Z;
  st_nlink : Z;
  st_uid : Z;
  st_gid : Z;
  st_size : Z;
  st_blocks : Z;
  st_atime : Z;
  st_mtime : Z;
  st_ctime : Z
}.

(** [S_ISCHR] and [S_ISBLK] of sys/stat.h. *)
Definition S_IFMT : Z := 61440.
Definition S_IFCHR : Z := 8192.
Definition S_IFBLK : Z := 24576.
Definition S_ISCHR (m : Z) : bool := Z.land m S_IFMT =? S_IFCHR.
Definition S_ISBLK (m : Z) : bool := Z.land m S_IFMT =? S_IFBLK.

(** [FTSENT].  [fts_pointer] is the address of the entry's annotation, or
    [None] for a null pointer. *)
Record FTSENT : Set := mkent {
  fts_info : fts_info_t;
  fts_level : Z;
  fts_name : string;
  fts_namelen : Z;
  fts_path : string;
  fts_errno : Z;
  fts_number : Z;
  fts_pointer : option nat;
  fts_statp : stat
}.

Definition set_fts_number (e : FTSENT) (n : Z) : FTSENT :=
  mkent (fts_info e) (fts_level e) (fts_name e) (fts_namelen e) (fts_path e)
        (fts_errno e) n (fts_pointer e) (fts_statp e).

Definition set_fts_pointer (e : FTSENT) (p : option nat) : FTSENT :=
  mkent (fts_info e) (fts_level e) (fts_name e) (fts_namelen e) (fts_path e)
        (fts_errno e) (fts_number e) p (fts_statp e).

(** The options of [fts_open] and [fts_children], as a set: fts_.h, which
    gives them their bit values, is not part of the sources. *)
Inductive fts_option : Set :=
  | FTS_COMFOLLOW | FTS_LOGICAL | FTS_NOCHDIR | FTS_NOSTAT | FTS_PHYSICAL
  | FTS_SEEDOT | FTS_WHITEOUT | FTS_NAMEONLY.

Definition fts_option_eqb (x y : fts_option) : bool :=
  match x, y with
  | FTS_COMFOLLOW, FTS_COMFOLLOW | FTS_LOGICAL, FTS_LOGICAL
  | FTS_NOCHDIR, FTS_NOCHDIR | FTS_NOSTAT, FTS_NOSTAT
  | FTS_PHYSICAL, FTS_PHYSICAL | FTS_SEEDOT, FTS_SEEDOT
  | FTS_WHITEOUT, FTS_WHITEOUT | FTS_NAMEONLY, FTS_NAMEONLY => true
  | _, _ => false
  end.

Definition fts_options := fts_option -> bool.

Definition opt_none : fts_options := fun _ => false.
(** [options |= o] *)
Definition opt_or (o : fts_option) (s : fts_options) : fts_options :=
  fun x => if fts_option_eqb x o then true else s x.
(** [options &= ~o] *)
Definition opt_clear (o : fts_option) (s : fts_options) : fts_options :=
  fun x => if fts_option_eqb x o then false else s x.

(** ** The global variables of ls.c *)

(** The [f_...] flags: [int]s that only ever hold 0 or 1. *)
Inductive flag : Set :=
  | f_accesstime | f_column | f_columnacross | f_flags | f_inode | f_listdir
  | f_listdot | f_longform | f_newline | f_nonprint | f_nosort
  | f_numericonly | f_recursive | f_reversesort | f_sectime | f_singlecol
  | f_size | f_statustime | f_stream | f_dirname | f_type | f_typedir
  | f_whiteout.

Definition flag_eqb (x y : flag) : bool :=
  match x, y with
  | f_accesstime, f_accesstime | f_column, f_column
  | f_columnacross, f_columnacross | f_flags, f_flags | f_inode, f_inode
  | f_listdir, f_listdir | f_listdot, f_listdot | f_longform, f_longform
  | f_newline, f_newline | f_nonprint, f_nonprint | f_nosort, f_nosort
  | f_numericonly, f_numericonly | f_recursive, f_recursive
  | f_reversesort, f_reversesort | f_sectime, f_sectime
  | f_singlecol, f_singlecol | f_size, f_size
  | f_statustime, f_statustime | f_stream, f_stream | f_dirname, f_dirname
  | f_type, f_type | f_typedir, f_typedir | f_whiteout, f_whiteout => true
  | _, _ => false
  end.

Definition BY_NAME : Z := 0.
Definition BY_SIZE : Z := 1.
Definition BY_TIME : Z := 2.

(** What the function pointer [sortfcn] can point to (cmp.c). *)
Inductive sortfn : Set :=
  | Namecmp | Revnamecmp | Sizecmp | Revsizecmp
  | Modcmp | Revmodcmp | Acccmp | Revacccmp | Statcmp | Revstatcmp.

(** What the function pointer [printfcn] can point to (print.c). *)
Inductive printfn : Set :=
  | Printscol | Printacol | Printlong | Printstream | Printcol.

(** The file-scope variables.  A null function pointer is [None]. *)
Record globals : Type := mkglobals {
  blocksize : Z;
  termwidth : Z;
  sortkey : Z;
  output : bool;
  flags : flag -> bool;
  rval : Z;
  printfcn : option printfn;
  sortfcn : option sortfn
}.

Definition set_blocksize (v : Z) (g : globals) : globals :=
  mkglobals v (termwidth g) (sortkey g) (output g) (flags g) (rval g)
            (printfcn g) (sortfcn g).
Definition set_termwidth (v : Z) (g : globals) : globals :=
  mkglobals (blocksize g) v (sortkey g) (output g) (flags g) (rval g)
            (printfcn g) (sortfcn g).
Definition set_sortkey (v : Z) (g : globals) : globals :=
  mkglobals (blocksize g) (termwidth g) v (output g) (flags g) (rval g)
            (printfcn g) (sortfcn g).
Definition set_output (v : bool) (g : globals) : globals :=
  mkglobals (blocksize g) (termwidth g) (sortkey g) v (flags g) (rval g)
            (printfcn g) (sortfcn g).
Definition set_flags (v : flag -> bool) (g : globals) : globals :=
  mkglobals (blocksize g) (termwidth g) (sortkey g) (output g) v (rval g)
            (printfcn g) (sortfcn g).
Definition set_rval (v : Z) (g : globals) : globals :=
  mkglobals (blocksize g) (termwidth g) (sortkey g) (output g) (flags g) v
            (printfcn g) (sortfcn g).
Definition set_printfcn (v : printfn) (g : globals) : globals :=
  mkglobals (blocksize g) (termwidth g) (sortkey g) (output g) (flags g)
            (rval g) (Some v) (sortfcn g).
Definition set_sortfcn (v : sortfn) (g : globals) : globals :=
  mkglobals (blocksize g) (termwidth g) (sortkey g) (output g) (flags g)
            (rval g) (printfcn g) (Some v).

(** [f = v] for one flag. *)
Definition set_flag (f : flag) (v : bool) (g : globals) : globals :=
  set_flags (fun x => if flag_eqb x f then v else flags g x) g.

(** [f1 = f2 = ... = v] *)
Definition set_flag_list (fs : list flag) (v : bool) (g : globals) : globals :=
  fold_left (fun acc f => set_flag f v acc) fs g.

(** The variables as the loader initialises them (lines 82-113). *)
Definition initial_globals : globals :=
  mkglobals 0 80 BY_NAME false (fun _ => false) 0 None None.

(** ** The comparator set (cmp.c) *)

(** Modelled from the spec: cmp.c, which defines the ten field comparators,
    is not among the sources.  The spec has them compare two entries by
    name, by size or by one of the three time stamps, in ascending order,
    with ties broken by name, and gives each a mirrored reversed variant. *)
Definition namecmp (a b : FTSENT) : Z := strcmp (fts_name a) (fts_name b).

(** Modelled from the spec: the comparator of cmp.c for a numeric key of the
    stat record, ascending, ties broken by name. *)
Definition keycmp (key : stat -> Z) (a b : FTSENT) : Z :=
  if key (fts_statp a) <? key (fts_statp b) then -1
  else if key (fts_statp b) <? key (fts_statp a) then 1
  else namecmp a b.

(** Modelled from the spec: the call through [sortfcn]; a reversed variant
    is its comparator with the two arguments exchanged. *)
Definition apply_sortfn (f : sortfn) (a b : FTSENT) : Z :=
  match f with
  | Namecmp => namecmp a b
  | Revnamecmp => namecmp b a
  | Sizecmp => keycmp st_size a b
  | Revsizecmp => keycmp st_size b a
  | Modcmp => keycmp st_mtime a b
  | Revmodcmp => keycmp st_mtime b a
  | Acccmp => keycmp st_atime a b
  | Revacccmp => keycmp st_atime b a
  | Statcmp => keycmp st_ctime a b
  | Revstatcmp => keycmp st_ctime b a
  end.

(** [sortfcn (a, b)].  [ls_main] stores a comparator in [sortfcn] before
    the walk is opened; the null pointer is given the value 0 here. *)
Definition call_sortfcn (g : globals) (a b : FTSENT) : Z :=
  match sortfcn g with
  | Some f => apply_sortfn f a b
  | None => 0
  end.

(** ** The ordering policy (lines 613-643) *)

Definition mastercmp (g : globals) (a b : FTSENT) : Z :=
  let a_info := fts_info a in
  if info_eqb a_info FTS_ERR then 0 else
  let b_info := fts_info b in
  if info_eqb b_info FTS_ERR then 0 else
  if info_eqb a_info FTS_NS || info_eqb b_info FTS_NS then
    if negb (info_eqb b_info FTS_NS) then 1
    else if negb (info_eqb a_info FTS_NS) then -1
    else namecmp a b
  else
    if negb (info_eqb a_info b_info)
       && (fts_level a =? FTS_ROOTLEVEL)
       && negb (flags g f_listdir)
    then
      if info_eqb a_info FTS_D then 1
      else if info_eqb b_info FTS_D then -1
      else call_sortfcn g a b
    else call_sortfcn g a b.

(** Lines 293-333 of [ls_main]: the comparator chosen for the sort key and
    the reversed toggle.  A sort key outside the three constants leaves
    [sortfcn] as it was. *)
Definition select_sortfcn (g : globals) : globals :=
  if flags g f_reversesort then
    if sortkey g =? BY_NAME then set_sortfcn Revnamecmp g
    else if sortkey g =? BY_SIZE then set_sortfcn Revsizecmp g
    else if sortkey g =? BY_TIME then
      if flags g f_accesstime then set_sortfcn Revacccmp g
      else if flags g f_statustime then set_sortfcn Revstatcmp g
      else set_sortfcn Revmodcmp g
    else g
  else
    if sortkey g =? BY_NAME then set_sortfcn Namecmp g
    else if sortkey g =? BY_SIZE then set_sortfcn Sizecmp g
    else if sortkey g =? BY_TIME then
      if flags g f_accesstime then set_sortfcn Acccmp g
      else if flags g f_statustime then set_sortfcn Statcmp g
      else set_sortfcn Modcmp g
    else g.

(** Lines 335-345 of [ls_main]. *)
Definition select_printfcn (g : globals) : globals :=
  if flags g f_singlecol then set_printfcn Printscol g
  else if flags g f_columnacross then set_printfcn Printacol g
  else if flags g f_longform then set_printfcn Printlong g
  else if flags g f_stream then set_printfcn Printstream g
  else set_printfcn Printcol g.

(** ** The run-time world around the globals *)

(** The per-entry annotation of the long format (ls.h): the block that
    line 553 allocates, with the strings that lines 561-573 copy into it. *)
Record NAMES : Set := mknames {
  n_user : string;
  n_group : string;
  n_flags : option string
}.

(** The allocator: the live blocks by address, the next fresh address, and
    the outcomes of the coming [malloc] calls ([true]: the call returns a
    null pointer); past the end of that script every call succeeds. *)
Record heap : Set := mkheap {
  h_live : list (nat * NAMES);
  h_next : nat;
  h_oom : list bool
}.

Definition malloc (v : NAMES) (h : heap) : option nat * heap :=
  match h_oom h with
  | true :: rest => (None, mkheap (h_live h) (h_next h) rest)
  | false :: rest =>
      (Some (h_next h), mkheap ((h_next h, v) :: h_live h) (S (h_next h)) rest)
  | [] =>
      (Some (h_next h), mkheap ((h_next h, v) :: h_live h) (S (h_next h)) [])
  end.

(** [free]: a null pointer is ignored. *)
Definition free (p : option nat) (h : heap) : heap :=
  match p with
  | None => h
  | Some a =>
      mkheap (filter (fun x => negb (Nat.eqb (fst x) a)) (h_live h))
             (h_next h) (h_oom h)
  end.

(** The lines ls.c writes to the error channel, by their format, and the
    two things written there on its behalf when an option is not known:
    the diagnostic of [getopt] and the text of [usage ()]. *)
Inductive err_line : Set :=
  | ErrNode (name : string) (errno : Z)   (* "%s: %s\n" with strerror *)
  | ErrCycle (name : string)              (* "%s: directory causes a cycle" *)
  | ErrFtsOpen (arg0 : string)            (* "%s: fts_open: %s" *)
  | ErrFtsRead (errno : Z)                (* "fts_read: %s" *)
  | ErrMalloc                             (* "malloc: %s" *)
  | ErrGetopt (ch : ascii)                (* getopt: "invalid option" *)
  | ErrUsage.                             (* the call of usage () *)

(** [DISPLAY] (ls.h).  The fields that line 586 fills only when stat
    information is needed are grouped; [None] is their uninitialised state. *)
Record DSTATS : Set := mkdstats {
  d_bcfile : bool;
  d_btotal : Z;
  s_block : Z;
  s_flags : Z;
  s_group : Z;
  s_inode : Z;
  s_nlink : Z;
  s_size : Z;
  s_user : Z
}.

Record DISPLAY : Set := mkdisplay {
  d_list : list FTSENT;
  d_entries : Z;
  d_maxlen : Z;
  d_stats : option DSTATS
}.

(** What ls.c sends to the standard output: a directory header (with or
    without the separating blank line) or one call of the print function. *)
Inductive out_item : Set :=
  | OutHeader (blank : bool) (path : string)
  | OutRender (f : option printfn) (d : DISPLAY).

Record world : Type := mkworld {
  w_g : globals;
  w_stdout : list out_item;
  w_stderr : list err_line;
  w_heap : heap;
  w_skip : list string
}.

Definition with_g (g : globals) (w : world) : world :=
  mkworld g (w_stdout w) (w_stderr w) (w_heap w) (w_skip w).
Definition put_out (o : out_item) (w : world) : world :=
  mkworld (w_g w) (w_stdout w ++ [o]) (w_stderr w) (w_heap w) (w_skip w).
Definition put_err (e : err_line) (w : world) : world :=
  mkworld (w_g w) (w_stdout w) (w_stderr w ++ [e]) (w_heap w) (w_skip w).
Definition with_heap (h : heap) (w : world) : world :=
  mkworld (w_g w) (w_stdout w) (w_stderr w) h (w_skip w).
(** [fts_set (ftsp, p, FTS_SKIP)] *)
Definition put_skip (path : string) (w : world) : world :=
  mkworld (w_g w) (w_stdout w) (w_stderr w) (w_heap w) (w_skip w ++ [path]).

(** [rval = v] *)
Definition fail_with (v : Z) (w : world) : world :=
  with_g (set_rval v (w_g w)) w.

(** One event of the walk as the controller sees it: the entry that
    [fts_read] returns and, for a directory, the list that [fts_children]
    returns there (with or without FTS_NAMEONLY).  A null list is [[]]. *)
Record fts_event : Set := mkevent {
  ev_ent : FTSENT;
  ev_children : bool -> list FTSENT
}.

(** An opened walk: the children of the argument list, the events of the
    successive [fts_read] calls, and [errno] once [fts_read] has returned
    a null pointer. *)
Record FTS : Set := mkfts {
  fts_root : list FTSENT;
  fts_reads : list fts_event;
  fts_end_errno : Z
}.

(** The services of the system and of the other files of the program. *)
Record sysenv : Type := mksysenv {
  isatty : bool;
  getenv_COLUMNS : option Z;     (* [atoi] of COLUMNS when it is set *)
  ioctl_ws_col : option Z;       (* [ws_col] when TIOCGWINSZ succeeds *)
  getuid : Z;
  getpwuid : Z -> option string;
  getgrgid : Z -> option string;
  fts_open :
    list string -> fts_options -> option (FTSENT -> FTSENT -> Z) -> option FTS;
  usage : Z                      (* what [usage ()] of util.c returns *)
}.

(** ** The selection and aggregation pass (lines 434-605) *)

(** The local variables of [display] that the loop updates. *)
Record locals : Set := mklocals {
  entries : Z;
  maxlen : Z;
  maxblock : Z;
  maxinode : Z;
  maxnlink : Z;
  maxsize : Z;
  btotal : Z;
  bcfile : bool;
  flen : Z;
  maxflags : Z;
  maxgroup : Z;
  maxuser : Z
}.

(** Lines 462-466. *)
Definition locals0 : locals :=
  mklocals 0 0 0 0 0 0 0 false 0 0 0 0.

(** Lines 500-501. *)
Definition agg_name (e : FTSENT) (a : locals) : locals :=
  mklocals (entries a)
    (if fts_namelen e >? maxlen a then fts_namelen e else maxlen a)
    (maxblock a) (maxinode a) (maxnlink a) (maxsize a) (btotal a) (bcfile a)
    (flen a) (maxflags a) (maxgroup a) (maxuser a).

(** Lines 504-514.  [maxsize] only ever holds a file size, so its cast to
    [off_t] does not change it. *)
Definition agg_stat (sp : stat) (a : locals) : locals :=
  mklocals (entries a) (maxlen a)
    (if st_blocks sp >? maxblock a then st_blocks sp else maxblock a)
    (if st_ino sp >? maxinode a then st_ino sp else maxinode a)
    (if st_nlink sp >? maxnlink a then st_nlink sp else maxnlink a)
    (if st_size sp >? maxsize a then st_size sp else maxsize a)
    (ulong_of (btotal a + st_blocks sp))
    (bcfile a) (flen a) (maxflags a) (maxgroup a) (maxuser a).

(** Lines 520-534: the owner and the group as they will be printed. *)
Definition user_of (env : sysenv) (g : globals) (sp : stat) : string :=
  let user :=
    if negb (flags g f_numericonly) then getpwuid env (st_uid sp) else None in
  match user with
  | Some u => u
  | None => umaxtostr (st_uid sp)
  end.

Definition group_of (env : sysenv) (g : globals) (sp : stat) : string :=
  let group :=
    if negb (flags g f_numericonly) then getgrgid env (st_gid sp) else None in
  match group with
  | Some s => s
  | None => umaxtostr (st_gid sp)
  end.

(** [ulen = strlen (user)], an [int]. *)
Definition ulen_of (env : sysenv) (g : globals) (sp : stat) : Z :=
  int_of (strlen (user_of env g sp)).
Definition glen_of (env : sysenv) (g : globals) (sp : stat) : Z :=
  int_of (strlen (group_of env g sp)).

(** Lines 543-551: the flags string and its length. *)
Definition flags_of (g : globals) : option string :=
  if flags g f_flags then Some "-"%string else None.
Definition flen_of (g : globals) : Z :=
  match flags_of g with
  | Some s => int_of (strlen s)
  | None => 0
  end.

(** Lines 536-551. *)
Definition agg_long (env : sysenv) (g : globals) (sp : stat) (a : locals)
  : locals :=
  let ulen := ulen_of env g sp in
  let glen := glen_of env g sp in
  mklocals (entries a) (maxlen a) (maxblock a) (maxinode a) (maxnlink a)
    (maxsize a) (btotal a) (bcfile a)
    (flen_of g)
    (if flags g f_flags
     then (if flen_of g >? maxflags a then flen_of g else maxflags a)
     else maxflags a)
    (if glen >? maxgroup a then glen else maxgroup a)
    (if ulen >? maxuser a then ulen else maxuser a).

(** Lines 566-567. *)
Definition agg_bcfile (sp : stat) (a : locals) : locals :=
  mklocals (entries a) (maxlen a) (maxblock a) (maxinode a) (maxnlink a)
    (maxsize a) (btotal a)
    (if S_ISCHR (st_mode sp) || S_ISBLK (st_mode sp) then true else bcfile a)
    (flen a) (maxflags a) (maxgroup a) (maxuser a).

(** Line 577: [++entries]. *)
Definition agg_count (a : locals) : locals :=
  mklocals (entries a + 1) (maxlen a) (maxblock a) (maxinode a) (maxnlink a)
    (maxsize a) (btotal a) (bcfile a) (flen a) (maxflags a) (maxgroup a)
    (maxuser a).

(** How the loop of lines 467-578 is left: by the [return] of line 558, or
    at the end of the list.  Either way the entries carry the marks made so
    far ([fts_number], [fts_pointer]). *)
Inductive loop_result : Type :=
  | LoopReturn (l : list FTSENT) (w : world)
  | LoopEnd (l : list FTSENT) (a : locals) (w : world).

Definition push (e : FTSENT) (r : loop_result) : loop_result :=
  match r with
  | LoopReturn l w => LoopReturn (e :: l) w
  | LoopEnd l a w => LoopEnd (e :: l) a w
  end.

(** Line 469. *)
Definition is_err_or_ns (e : FTSENT) : bool :=
  info_eqb (fts_info e) FTS_ERR || info_eqb (fts_info e) FTS_NS.

Fixpoint display_loop (env : sysenv) (p : option FTSENT) (needstats : bool)
    (cur : list FTSENT) (a : locals) (w : world) : loop_result :=
  match cur with
  | [] => LoopEnd [] a w
  | e :: rest =>
      let g := w_g w in
      if is_err_or_ns e then
        let w1 := put_err (ErrNode (fts_name e) (fts_errno e)) w in
        push (set_fts_number e NO_PRINT)
             (display_loop env p needstats rest a (fail_with 1 w1))
      else if match p with
              | None => info_eqb (fts_info e) FTS_D && negb (flags g f_listdir)
              | Some _ => first_is_dot (fts_name e) && negb (flags g f_listdot)
              end
      then
        push (set_fts_number e NO_PRINT)
             (display_loop env p needstats rest a w)
      else
        let a1 := agg_name e a in
        if needstats then
          let sp := fts_statp e in
          let a2 := agg_stat sp a1 in
          if flags g f_longform then
            let a3 := agg_long env g sp a2 in
            match malloc (mknames (user_of env g sp) (group_of env g sp)
                                  (flags_of g)) (w_heap w) with
            | (None, h) =>
                LoopReturn (e :: rest)
                  (fail_with EXIT_FAILURE (put_err ErrMalloc (with_heap h w)))
            | (Some np, h) =>
                push (set_fts_pointer e (Some np))
                     (display_loop env p needstats rest
                        (agg_count (agg_bcfile sp a3)) (with_heap h w))
            end
          else
            push e (display_loop env p needstats rest (agg_count a2) w)
        else
          push e (display_loop env p needstats rest (agg_count a1) w)
  end.

(** Lines 583-597. *)
Definition make_DISPLAY (needstats : bool) (l : list FTSENT) (a : locals)
  : DISPLAY :=
  mkdisplay l (entries a) (maxlen a)
    (if needstats then
       Some (mkdstats (bcfile a) (btotal a)
               (strlen (umaxtostr (maxblock a)))
               (maxflags a) (maxgroup a)
               (strlen (umaxtostr (maxinode a)))
               (strlen (umaxtostr (maxnlink a)))
               (strlen (umaxtostr (maxsize a)))
               (maxuser a))
     else None).

(** Lines 602-604. *)
Definition free_all (l : list FTSENT) (h : heap) : heap :=
  fold_left (fun h' cur => free (fts_pointer cur) h') l h.

(** Line 461. *)
Definition needstats_of (g : globals) : bool :=
  flags g f_inode || flags g f_longform || flags g f_size.

(** [display (p, list)]; the result is the list with the marks left on its
    entries, and the world after the call. *)
Definition display (env : sysenv) (p : option FTSENT) (l : list FTSENT)
    (w : world) : list FTSENT * world :=
  match l with
  | [] => ([], w)
  | _ :: _ =>
      let needstats := needstats_of (w_g w) in
      match display_loop env p needstats l locals0 w with
      | LoopReturn l' w' => (l', w')
      | LoopEnd l' a w' =>
          if entries a =? 0 then (l', w')
          else
            let d := make_DISPLAY needstats l' a in
            let w1 := put_out (OutRender (printfcn (w_g w')) d) w' in
            let w2 := with_g (set_output true (w_g w1)) w1 in
            if flags (w_g w2) f_longform
            then (l', with_heap (free_all l' (w_heap w2)) w2)
            else (l', w2)
      end
  end.

(** ** The traversal controller (lines 360-427) *)

(** The comparator handed to [fts_open] (line 367). *)
Definition fts_compar (g : globals) : option (FTSENT -> FTSENT -> Z) :=
  if flags g f_nosort then None else Some (mastercmp g).

(** One turn of the [while] loop of lines 385-420. *)
Definition traverse_event (env : sysenv) (argc : Z) (ch_options : bool)
    (ev : fts_event) (w : world) : world :=
  let p := ev_ent ev in
  let g := w_g w in
  match fts_info p with
  | FTS_D =>
      if first_is_dot (fts_name p)
         && negb (fts_level p =? FTS_ROOTLEVEL)
         && negb (flags g f_listdot)
      then w
      else
        let w1 :=
          if output g then put_out (OutHeader true (fts_path p)) w
          else if argc >? 1
               then let w' := put_out (OutHeader false (fts_path p)) w in
                    with_g (set_output true (w_g w')) w'
               else w in
        let chp := ev_children ev ch_options in
        let w2 := snd (display env (Some p) chp w1) in
        if negb (flags (w_g w2) f_recursive)
           && match chp with [] => false | _ :: _ => true end
        then put_skip (fts_path p) w2
        else w2
  | FTS_DC => put_err (ErrCycle (fts_name p)) w
  | FTS_DNR | FTS_ERR =>
      fail_with 1 (put_err (ErrNode (fts_name p) (fts_errno p)) w)
  | _ => w
  end.

Definition traverse_loop (env : sysenv) (argc : Z) (ch_options : bool)
    (evs : list fts_event) (w : world) : world :=
  fold_left (fun w' ev => traverse_event env argc ch_options ev w') evs w.

(** Lines 375-426: the controller on an opened walk. *)
Definition traverse_walk (env : sysenv) (argc : Z) (options : fts_options)
    (ftsp : FTS) (w : world) : world :=
  let w1 := snd (display env None (fts_root ftsp) w) in
  if flags (w_g w1) f_listdir then w1
  else
    let ch_options :=
      negb (flags (w_g w1) f_recursive) && options FTS_NOSTAT in
    let w2 := traverse_loop env argc ch_options (fts_reads ftsp) w1 in
    if negb (fts_end_errno ftsp =? 0)
    then fail_with EXIT_FAILURE (put_err (ErrFtsRead (fts_end_errno ftsp)) w2)
    else w2.

Definition traverse (env : sysenv) (argc : Z) (argv : list string)
    (options : fts_options) (w : world) : world :=
  match fts_open env argv options (fts_compar (w_g w)) with
  | None =>
      fail_with EXIT_FAILURE (put_err (ErrFtsOpen (hd EmptyString argv)) w)
  | Some ftsp => traverse_walk env argc options ftsp w
  end.

(** ** [ls_main] (lines 115-352) *)

Definition all_flags : list flag :=
  [f_accesstime; f_column; f_columnacross; f_flags; f_inode; f_listdir;
   f_listdot; f_longform; f_newline; f_nonprint; f_nosort; f_numericonly;
   f_recursive; f_reversesort; f_sectime; f_singlecol; f_size; f_statustime;
   f_stream; f_dirname; f_type; f_typedir; f_whiteout].

(** Lines 126-150: the settings cleared and the defaults taken from the
    terminal and the user id. *)
Definition ls_reset (env : sysenv) (g : globals) : globals :=
  let g := set_output false g in
  let g := set_flag_list all_flags false g in
  let g :=
    if isatty env then
      let g :=
        match getenv_COLUMNS env with
        | Some v => set_termwidth v g
        | None =>
            match ioctl_ws_col env with
            | Some col => if col >? 0 then set_termwidth col g else g
            | None => g
            end
        end in
      set_flag_list [f_nonprint; f_column] true g
    else set_flag f_singlecol true g in
  if getuid env =? 0 then set_flag f_listdot true g else g.

(** The body of the [switch] of lines 157-258 for one option character;
    [None] is the [default] case. *)
Definition ls_option (ch : ascii) (s : globals * fts_options)
  : option (globals * fts_options) :=
  let (g, o) := s in
  match ch with
  | "1"%char =>
      Some (set_flag_list [f_stream; f_longform; f_columnacross; f_column]
              false (set_flag f_singlecol true g), o)
  | "C"%char =>
      Some (set_flag_list [f_stream; f_singlecol; f_columnacross; f_longform]
              false (set_flag f_column true g), o)
  | "l"%char =>
      Some (set_flag_list [f_stream; f_singlecol; f_columnacross; f_column]
              false (set_flag f_numericonly false
                       (set_flag f_longform true g)), o)
  | "m"%char =>
      Some (set_flag_list [f_singlecol; f_longform; f_columnacross; f_column]
              false (set_flag f_stream true g), o)
  | "x"%char =>
      Some (set_flag_list [f_stream; f_singlecol; f_longform; f_column]
              false (set_flag f_columnacross true g), o)
  | "n"%char =>
      Some (set_flag_list [f_stream; f_singlecol; f_columnacross; f_column]
              false (set_flag f_numericonly true
                       (set_flag f_longform true g)), o)
  | "c"%char =>
      Some (set_flag f_accesstime false (set_flag f_statustime true g), o)
  | "u"%char =>
      Some (set_flag f_statustime false (set_flag f_accesstime true g), o)
  | "F"%char => Some (set_flag f_type true g, o)
  | "L"%char => Some (g, opt_or FTS_LOGICAL (opt_clear FTS_PHYSICAL o))
  | "R"%char => Some (set_flag f_recursive true g, o)
  | "a"%char => Some (set_flag f_listdot true g, opt_or FTS_SEEDOT o)
  | "A"%char => Some (set_flag f_listdot true g, o)
  | "d"%char =>
      Some (set_flag f_recursive false (set_flag f_listdir true g), o)
  | "f"%char => Some (set_flag f_nosort true g, o)
  | "g"%char => Some (g, o)
  | "i"%char => Some (set_flag f_inode true g, o)
  | "k"%char => Some (set_blocksize 1024 g, o)
  | "o"%char => Some (set_flag f_flags true g, o)
  | "p"%char => Some (set_flag f_typedir true g, o)
  | "q"%char => Some (set_flag f_nonprint true g, o)
  | "r"%char => Some (set_flag f_reversesort true g, o)
  | "S"%char => Some (set_sortkey BY_SIZE g, o)
  | "s"%char => Some (set_flag f_size true g, o)
  | "T"%char => Some (set_flag f_sectime true g, o)
  | "t"%char => Some (set_sortkey BY_TIME g, o)
  | "W"%char => Some (set_flag f_whiteout true g, o)
  | _ => None
  end.

(** The [while] loop of lines 155-259 over the characters that the
    successive [getopt] calls return; [inl g] is the [return usage ()] of
    line 257, with the globals as they are at that point. *)
Fixpoint ls_options (chs : list ascii) (s : globals * fts_options)
  : globals + globals * fts_options :=
  match chs with
  | [] => inr s
  | ch :: rest =>
      match ls_option ch s with
      | None => inl (fst s)
      | Some s' => ls_options rest s'
      end
  end.

(** Lines 263-291; FTS_WHITEOUT is taken as defined by fts_.h. *)
Definition ls_finish_options (s : globals * fts_options)
  : globals * fts_options :=
  let (g, o) := s in
  let o :=
    if negb (flags g f_longform) && negb (flags g f_inode)
       && negb (flags g f_size) && negb (flags g f_type)
       && negb (flags g f_typedir) && (sortkey g =? BY_NAME)
    then opt_or FTS_NOSTAT o else o in
  let o :=
    if negb (flags g f_longform) && negb (flags g f_listdir)
       && negb (flags g f_type)
    then opt_or FTS_COMFOLLOW o else o in
  let o := if flags g f_whiteout then opt_or FTS_WHITEOUT o else o in
  let g :=
    if flags g f_longform || flags g f_size
    then set_blocksize (1024 / 512) g else g in
  (g, o).

(** Lines 126-345: the configuration [ls_main] builds before the walk;
    [chs] are the option characters [getopt] finds in the argument vector. *)
Definition ls_configure (env : sysenv) (chs : list ascii) (g : globals)
  : globals + globals * fts_options :=
  let g := ls_reset env g in
  let o := opt_or FTS_NOCHDIR (opt_or FTS_PHYSICAL opt_none) in
  match ls_options chs (g, o) with
  | inl g' => inl g'
  | inr s =>
      let (g1, o1) := ls_finish_options s in
      inr (select_printfcn (select_sortfcn g1), o1)
  end.

(** The option string of line 155. *)
Definition optstring : string := "1ACFLRSTWacdfgiklmnopqrstux".

Definition in_optstring (ch : ascii) : bool :=
  existsb (Ascii.eqb ch) (list_ascii_of_string optstring).

(** What [getopt] does before it returns '?' for the first option
    character that the option string does not hold: the option string
    does not start with a colon and ls.c leaves [opterr] at its initial
    value 1, so the diagnostic naming the character goes to the error
    channel. *)
Definition getopt_diagnostic (chs : list ascii) (w : world) : world :=
  match find (fun ch => negb (in_optstring ch)) chs with
  | Some ch => put_err (ErrGetopt ch) w
  | None => w
  end.

(** Modelled from the spec: [usage ()] of util.c, which is not among the
    sources.  The spec leaves the usage text to flag parsing; the call is
    one item on the error channel, and its result is [usage env]. *)
Definition call_usage (env : sysenv) (w : world) : Z * world :=
  (usage env, put_err ErrUsage w).

(** [ls_main]: [operands] are the arguments left after the options.  The
    result is the returned status and the world after the call. *)
Definition ls_main (env : sysenv) (chs : list ascii) (operands : list string)
    (w : world) : Z * world :=
  match ls_configure env chs (w_g w) with
  | inl g' => call_usage env (getopt_diagnostic chs (with_g g' w))
  | inr (g, o) =>
      let w1 := with_g g w in
      let w2 :=
        match operands with
        | [] => traverse env 1 ["."%string] o w1
        | _ :: _ => traverse env (Z.of_nat (List.length operands)) operands o w1
        end in
      (rval (w_g w2), w2)
  end.

(** ** Notions the statements are written with *)

(** A comparator in the sense of [qsort]: only the sign of the result
    counts.  It is a strict weak ordering on the entries selected by [P]
    when it is antisymmetric, "less than" is transitive and "compares
    equal" is transitive. *)
Definition strict_weak_order_on (P : FTSENT -> Prop)
    (cmp : FTSENT -> FTSENT -> Z) : Prop :=
  (forall a b, P a -> P b -> Z.sgn (cmp b a) = - Z.sgn (cmp a b)) /\
  (forall a b c, P a -> P b -> P c ->
     cmp a b < 0 -> cmp b c < 0 -> cmp a c < 0) /\
  (forall a b c, P a -> P b -> P c ->
     cmp a b = 0 -> cmp b c = 0 -> cmp a c = 0).

(** The two properties from which the three above follow. *)
Definition cmp_antisym (cmp : FTSENT -> FTSENT -> Z) : Prop :=
  forall a b, Z.sgn (cmp b a) = - Z.sgn (cmp a b).
Definition cmp_le_trans (cmp : FTSENT -> FTSENT -> Z) : Prop :=
  forall a b c, cmp a b <= 0 -> cmp b c <= 0 -> cmp a c <= 0.

(** The group [mastercmp] puts an entry in, ahead of any field comparison:
    not-stat-able entries last and, among the arguments of the command
    line when directories are listed by their contents, directories after
    the rest. *)
Definition rank (g : globals) (e : FTSENT) : Z :=
  if info_eqb (fts_info e) FTS_NS then 2
  else if info_eqb (fts_info e) FTS_D
          && (fts_level e =? FTS_ROOTLEVEL)
          && negb (flags g f_listdir)
       then 1 else 0.

(** A pair for which [mastercmp] does not reach the call of [sortfcn]. *)
Definition special_case (g : globals) (a b : FTSENT) : bool :=
  info_eqb (fts_info a) FTS_ERR || info_eqb (fts_info b) FTS_ERR
  || info_eqb (fts_info a) FTS_NS || info_eqb (fts_info b) FTS_NS
  || (negb (info_eqb (fts_info a) (fts_info b))
      && (fts_level a =? FTS_ROOTLEVEL)
      && negb (flags g f_listdir)
      && (info_eqb (fts_info a) FTS_D || info_eqb (fts_info b) FTS_D)).

(** The configuration [ls_main] reaches for a sort key and a setting of
    the reversed toggle. *)
Definition with_reversed (v : bool) (g : globals) : globals :=
  select_sortfcn (set_flag f_reversesort v g).

(** ** Sample entries and configurations *)

Definition stat_of_size (size : Z) : stat :=
  mkstat 33188 7 1 1000 1000 size 8 0 0 0.

Definition entry (info : fts_info_t) (level : Z) (name : string) : FTSENT :=
  mkent info level name (strlen name) name 0 0 None (stat_of_size 10).

(** [ls] with no option, output not a terminal. *)
Definition g_plain : globals :=
  select_printfcn (select_sortfcn (set_flag f_singlecol true initial_globals)).

(** Three arguments of the command line: a directory, a plain file and an
    entry the walk reports as an error. *)
Definition root_dir : FTSENT := entry FTS_D FTS_ROOTLEVEL "d".
Definition root_file : FTSENT := entry FTS_F FTS_ROOTLEVEL "f".
Definition root_err : FTSENT := entry FTS_ERR FTS_ROOTLEVEL "e".

(** An entry that the pass marks do-not-print: an error or not-stat-able
    node, a directory among the command-line arguments (shown later), or a
    dot file of a directory when dot files are not listed. *)
Definition suppressed (g : globals) (p : option FTSENT) (e : FTSENT) : bool :=
  is_err_or_ns e
  || match p with
     | None => info_eqb (fts_info e) FTS_D && negb (flags g f_listdir)
     | Some _ => first_is_dot (fts_name e) && negb (flags g f_listdot)
     end.

(** The surviving entries of a sibling list. *)
Definition survivors (g : globals) (p : option FTSENT) (l : list FTSENT)
  : list FTSENT :=
  filter (fun e => negb (suppressed g p e)) l.

(** [m] is the maximum of [f] over [l]: a bound that one entry reaches. *)
Definition is_max_over (f : FTSENT -> Z) (l : list FTSENT) (m : Z) : Prop :=
  (forall e, In e l -> f e <= m) /\ (exists e, In e l /\ f e = m).

Definition zmax_of (f : FTSENT -> Z) (l : list FTSENT) : Z :=
  fold_right Z.max 0 (map f l).

Definition zsum_of (f : FTSENT -> Z) (l : list FTSENT) : Z :=
  fold_right Z.add 0 (map f l).

(** The fields the aggregates are taken over. *)
Definition blocks_of (e : FTSENT) : Z := st_blocks (fts_statp e).
Definition inode_of (e : FTSENT) : Z := st_ino (fts_statp e).
Definition nlink_of (e : FTSENT) : Z := st_nlink (fts_statp e).
Definition size_of (e : FTSENT) : Z := st_size (fts_statp e).
Definition user_width (env : sysenv) (g : globals) (e : FTSENT) : Z :=
  strlen (user_of env g (fts_statp e)).
Definition group_width (env : sysenv) (g : globals) (e : FTSENT) : Z :=
  strlen (group_of env g (fts_statp e)).

(** Entries as the system delivers them: lengths, counts and sizes are not
    negative, and the printed owner and group fit an [int]. *)
Definition wf_entry (env : sysenv) (g : globals) (e : FTSENT) : Prop :=
  0 <= fts_namelen e /\ 0 <= blocks_of e /\ 0 <= inode_of e /\
  0 <= nlink_of e /\ 0 <= size_of e /\
  user_width env g e < 2 ^ 31 /\ group_width env g e < 2 ^ 31.

(** What one surviving entry does to the local variables of [display]. *)
Definition agg_step (env : sysenv) (g : globals) (needstats : bool)
    (a : locals) (e : FTSENT) : locals :=
  let a1 := agg_name e a in
  if needstats then
    let a2 := agg_stat (fts_statp e) a1 in
    if flags g f_longform
    then agg_count (agg_bcfile (fts_statp e) (agg_long env g (fts_statp e) a2))
    else agg_count a2
  else agg_count a1.

Definition loop_locals (r : loop_result) : option locals :=
  match r with
  | LoopReturn _ _ => None
  | LoopEnd _ a _ => Some a
  end.

Definition loop_world (r : loop_result) : world :=
  match r with
  | LoopReturn _ w => w
  | LoopEnd _ _ w => w
  end.

Definition loop_list (r : loop_result) : list FTSENT :=
  match r with
  | LoopReturn l _ => l
  | LoopEnd l _ _ => l
  end.

(** The error lines of lines 471-472 for a list, in order. *)
Definition node_errors (l : list FTSENT) : list err_line :=
  map (fun e => ErrNode (fts_name e) (fts_errno e)) (filter is_err_or_ns l).

(** [w'] differs from [w] at most in the failure status, the error channel
    and the allocator. *)
Definition frame_status (w w' : world) : Prop :=
  w' = mkworld (set_rval (rval (w_g w')) (w_g w)) (w_stdout w) (w_stderr w')
               (w_heap w') (w_skip w).

(** A system with no terminal, an ordinary user, empty user and group
    databases and no walk to open. *)
Definition env_plain : sysenv :=
  mksysenv false None None 1000 (fun _ => None) (fun _ => None)
           (fun _ _ _ => None) 1.

(** The world at the start of a process, with the given globals. *)
Definition world_of (g : globals) : world :=
  mkworld g [] [] (mkheap [] 0 []) [].

(** [ls -l], output not a terminal. *)
Definition g_long : globals :=
  select_printfcn
    (select_sortfcn
       (set_blocksize 2 (set_flag f_longform true initial_globals))).

(** The children of a directory: two files, a hidden file with a long
    name and many blocks, and an entry that could not be stat-ed. *)
Definition sample_children : list FTSENT :=
  [ mkent FTS_F 1 "a" 1 "d/a" 0 0 None (mkstat 33188 5 1 1000 1000 10 8 0 0 0);
    mkent FTS_F 1 ".hidden-file" 12 "d/.hidden-file" 0 0 None
          (mkstat 33188 900 7 0 0 99999 4096 0 0 0);
    mkent FTS_NS 1 "unreadable-entry" 16 "d/unreadable-entry" 13 0 None
          (mkstat 0 0 0 0 0 0 0 0 0 0);
    mkent FTS_F 1 "bcd" 3 "d/bcd" 0 0 None
          (mkstat 33188 6 2 1000 1000 100 16 0 0 0) ].

Definition rendered (w : world) : list DISPLAY :=
  flat_map (fun o => match o with
                     | OutRender _ d => [d]
                     | OutHeader _ _ => []
                     end) (w_stdout w).

(** The descriptor [display] hands to the print function for the sample. *)
Definition sample_descriptor : DISPLAY :=
  hd (mkdisplay [] 0 0 None)
     (rendered (snd (display env_plain (Some root_dir) sample_children
                       (world_of g_long)))).

(** What the loop of [display] does to the world for a list without
    surviving entries: one error line and [rval = 1] per error or
    not-stat-able entry. *)
Definition report_errors (l : list FTSENT) (w : world) : world :=
  fold_left
    (fun w' e =>
       if is_err_or_ns e
       then fail_with 1 (put_err (ErrNode (fts_name e) (fts_errno e)) w')
       else w')
    l w.

(** "No output and no side effects", on the channels and the two flags. *)
Definition no_effect (w w' : world) : Prop :=
  w_stdout w' = w_stdout w /\ w_stderr w' = w_stderr w /\
  output (w_g w') = output (w_g w) /\ rval (w_g w') = rval (w_g w).

(** The error lines other than the directory-cycle report. *)
Definition is_cycle_line (x : err_line) : bool :=
  match x with
  | ErrCycle _ => true
  | _ => false
  end.
Definition failure_line (x : err_line) : bool := negb (is_cycle_line x).

(** Between [w] and [w'] the failure status follows the error channel:
    it is set to 1 as soon as a line other than a cycle report is written,
    and otherwise left alone. *)
Definition status_tracks (w w' : world) : Prop :=
  exists new,
    w_stderr w' = w_stderr w ++ new /\
    rval (w_g w') = if existsb failure_line new then 1 else rval (w_g w).

(** Two plain files of a directory, and a process in long format whose
    second [malloc] fails. *)
Definition two_files : list FTSENT :=
  [entry FTS_F 1 "a"; entry FTS_F 1 "b"].
Definition world_oom : world :=
  mkworld g_long [] [] (mkheap [] 0 [false; true]) [].

(** "The exit status is non-zero if any error was reported during the
    run, and zero otherwise." *)
Definition exit_status_reflects_errors (w w' : world) (status : Z) : Prop :=
  status <> 0 <-> w_stderr w' <> w_stderr w.

(** A system whose walk of "." meets a directory cycle and nothing else. *)
Definition env_cycle : sysenv :=
  mksysenv false None None 1000 (fun _ => None) (fun _ => None)
    (fun _ _ _ =>
       Some (mkfts [] [mkevent (entry FTS_DC 1 "loop") (fun _ => [])] 0))
    1.

(** A system in which every walk opens on an empty tree. *)
Definition env_empty : sysenv :=
  mksysenv false None None 1000 (fun _ => None) (fun _ => None)
    (fun _ _ _ => Some (mkfts [] [] 0)) 1.

(** The world of a fresh process. *)
Definition world0 : world := world_of initial_globals.

(** A system whose walk of "." meets an unreadable directory. *)
Definition env_unreadable : sysenv :=
  mksysenv false None None 1000 (fun _ => None) (fun _ => None)
    (fun _ _ _ =>
       Some (mkfts [] [mkevent (entry FTS_DNR 1 "locked") (fun _ => [])] 0))
    1.

(** A terminal 40 columns wide by COLUMNS, and one that does not tell its
    width. *)
Definition env_tty40 : sysenv :=
  mksysenv true (Some 40) None 1000 (fun _ => None) (fun _ => None)
    (fun _ _ _ => Some (mkfts [] [] 0)) 1.
Definition env_tty : sysenv :=
  mksysenv true None None 1000 (fun _ => None) (fun _ => None)
    (fun _ _ _ => Some (mkfts [] [] 0)) 1.

(** The globals and the walk options [ls_main] arrives at for valid
    options. *)
Definition configured (env : sysenv) (chs : list ascii) (g : globals)
  : globals * fts_options :=
  match ls_configure env chs g with
  | inr s => s
  | inl g' => (g', opt_none)
  end.

(** The annotation addresses attached to the entries of a list. *)
Definition pointers (l : list FTSENT) : list nat :=
  flat_map (fun e => match fts_pointer e with
                     | Some a => [a]
                     | None => []
                     end) l.

(** Every live block lies below the next fresh address. *)
Definition heap_ok (h : heap) : Prop :=
  forall x, In x (h_live h) -> (fst x < h_next h)%nat.

(** ** Notions for the options of [ls_main] *)

(** An option character that the [switch] of lines 157-258 knows. *)
Definition valid_option (ch : ascii) : bool :=
  match ls_option ch (initial_globals, opt_none) with
  | Some _ => true
  | None => false
  end.

(** [c] occurs among the option characters. *)
Definition has_option (c : ascii) (chs : list ascii) : bool :=
  existsb (Ascii.eqb c) chs.

(** The value chosen by the last option character for which [pick] has
    one, or [dflt] when there is none. *)
Definition last_choice {A : Type} (pick : ascii -> option A)
    (chs : list ascii) (dflt : A) : A :=
  fold_left (fun acc ch => match pick ch with
                           | Some v => v
                           | None => acc
                           end) chs dflt.

(** The print function an option of the group -1 -C -l -m -n -x asks for. *)
Definition mode_option (ch : ascii) : option printfn :=
  match ch with
  | "1"%char => Some Printscol
  | "C"%char => Some Printcol
  | "l"%char => Some Printlong
  | "n"%char => Some Printlong
  | "m"%char => Some Printstream
  | "x"%char => Some Printacol
  | _ => None
  end.

(** The five display-mode flags: single column, columns, columns across,
    long, stream. *)
Definition mode5 (g : globals) : bool * bool * bool * bool * bool :=
  (flags g f_singlecol, flags g f_column, flags g f_columnacross,
   flags g f_longform, flags g f_stream).

(** The setting of the five flags in which only that of [m] is on. *)
Definition onehot (m : printfn) : bool * bool * bool * bool * bool :=
  match m with
  | Printscol => (true, false, false, false, false)
  | Printcol => (false, true, false, false, false)
  | Printacol => (false, false, true, false, false)
  | Printlong => (false, false, false, true, false)
  | Printstream => (false, false, false, false, true)
  end.

(** (access time, status time) as -u and -c leave the two flags. *)
Definition time_option (ch : ascii) : option (bool * bool) :=
  match ch with
  | "c"%char => Some (false, true)
  | "u"%char => Some (true, false)
  | _ => None
  end.

(** The numeric-only flag as -l and -n leave it. *)
Definition numeric_option (ch : ascii) : option bool :=
  match ch with
  | "l"%char => Some false
  | "n"%char => Some true
  | _ => None
  end.

(** The sort key -S and -t ask for. *)
Definition key_option (ch : ascii) : option Z :=
  match ch with
  | "S"%char => Some BY_SIZE
  | "t"%char => Some BY_TIME
  | _ => None
  end.

(** The recursion flag as -R and -d leave it. *)
Definition recursive_option (ch : ascii) : option bool :=
  match ch with
  | "R"%char => Some true
  | "d"%char => Some false
  | _ => None
  end.

(** The sort key a comparator of cmp.c belongs to, and whether it is the
    reversed one of its pair. *)
Definition sortfn_key (f : sortfn) : Z :=
  match f with
  | Namecmp | Revnamecmp => BY_NAME
  | Sizecmp | Revsizecmp => BY_SIZE
  | Modcmp | Revmodcmp | Acccmp | Revacccmp | Statcmp | Revstatcmp => BY_TIME
  end.
Definition sortfn_reversed (f : sortfn) : bool :=
  match f with
  | Revnamecmp | Revsizecmp | Revmodcmp | Revacccmp | Revstatcmp => true
  | Namecmp | Sizecmp | Modcmp | Acccmp | Statcmp => false
  end.

(** What one valid option does to the settings the statements follow:
    each component of the result is read after the option, given its
    value before. *)
Record settings : Type := mksettings {
  s_mode : bool * bool * bool * bool * bool;
  s_time : bool * bool;
  s_numeric : bool;
  s_key : Z;
  s_recursive : bool;
  s_reverse : bool;
  s_listdot : bool;
  s_listdir : bool;
  s_stat_flags : bool * bool * bool * bool;   (* inode, size, type, typedir *)
  s_blocksize : Z;
  s_seedot : bool;
  s_logical : bool;
  s_physical : bool;
  s_nostat : bool;
  s_nochdir : bool;
  s_termwidth : Z;
  s_rval : Z
}.

Definition settings_of (s : globals * fts_options) : settings :=
  let (g, o) := s in
  mksettings (mode5 g) (flags g f_accesstime, flags g f_statustime)
    (flags g f_numericonly) (sortkey g) (flags g f_recursive)
    (flags g f_reversesort) (flags g f_listdot) (flags g f_listdir)
    (flags g f_inode, flags g f_size, flags g f_type, flags g f_typedir)
    (blocksize g) (o FTS_SEEDOT) (o FTS_LOGICAL) (o FTS_PHYSICAL)
    (o FTS_NOSTAT) (o FTS_NOCHDIR) (termwidth g) (rval g).

Definition pick_or {A : Type} (v : option A) (old : A) : A :=
  match v with
  | Some x => x
  | None => old
  end.

Definition settings_step (ch : ascii) (s : settings) : settings :=
  mksettings
    (pick_or (option_map onehot (mode_option ch)) (s_mode s))
    (pick_or (time_option ch) (s_time s))
    (pick_or (numeric_option ch) (s_numeric s))
    (pick_or (key_option ch) (s_key s))
    (pick_or (recursive_option ch) (s_recursive s))
    (s_reverse s || Ascii.eqb "r" ch)
    (s_listdot s || Ascii.eqb "a" ch || Ascii.eqb "A" ch)
    (s_listdir s || Ascii.eqb "d" ch)
    (let '(i, z, t, d) := s_stat_flags s in
     (i || Ascii.eqb "i" ch, z || Ascii.eqb "s" ch, t || Ascii.eqb "F" ch,
      d || Ascii.eqb "p" ch))
    (if Ascii.eqb "k" ch then 1024 else s_blocksize s)
    (s_seedot s || Ascii.eqb "a" ch)
    (s_logical s || Ascii.eqb "L" ch)
    (s_physical s && negb (Ascii.eqb "L" ch))
    (s_nostat s) (s_nochdir s) (s_termwidth s) (s_rval s).

(** The settings before any option is read, for the globals left by the
    earlier calls (lines 126-154). *)
Definition reset_settings (env : sysenv) (g0 : globals) : settings :=
  mksettings
    (onehot (if isatty env then Printcol else Printscol))
    (false, false) false (sortkey g0) false false (getuid env =? 0) false
    (false, false, false, false) (blocksize g0) false false true false true
    (if isatty env then
       match getenv_COLUMNS env with
       | Some v => v
       | None =>
           match ioctl_ws_col env with
           | Some col => if col >? 0 then col else termwidth g0
           | None => termwidth g0
           end
       end
     else termwidth g0)
    (rval g0).

(** A terminal whose COLUMNS is 0, run by the super-user. *)
Definition env_root_tty0 : sysenv :=
  mksysenv true (Some 0) (Some 132) 0 (fun _ => None) (fun _ => None)
    (fun _ _ _ => Some (mkfts [] [] 0)) 1.

(** ** Notions for [display] and [traverse] *)

(** No coming [malloc] is scheduled to fail. *)
Definition no_oom (h : heap) : Prop := forallb negb (h_oom h) = true.

(** The call cannot meet an allocation failure: it is not in long format,
    or no failure is scheduled. *)
Definition alloc_ok (w : world) : Prop :=
  flags (w_g w) f_longform = false \/ no_oom (w_heap w).

(** [e'] is the entry [e] up to the two fields [display] writes. *)
Definition same_node (e e' : FTSENT) : Prop :=
  e' = set_fts_pointer (set_fts_number e (fts_number e')) (fts_pointer e').

(** The annotation [display] builds for an entry (lines 520-573). *)
Definition annotation_of (env : sysenv) (g : globals) (e : FTSENT) : NAMES :=
  mknames (user_of env g (fts_statp e)) (group_of env g (fts_statp e))
          (flags_of g).

(** A character or block device. *)
Definition is_device (e : FTSENT) : bool :=
  S_ISCHR (st_mode (fts_statp e)) || S_ISBLK (st_mode (fts_statp e)).

(** The globals [g'] are [g] up to the failure status and the "anything
    printed" flag. *)
Definition same_config (g g' : globals) : Prop :=
  g' = set_output (output g') (set_rval (rval g') g).

(** The entries of a walk come without annotation. *)
Definition fresh_entries (l : list FTSENT) : Prop :=
  Forall (fun e => fts_pointer e = None) l.
Definition fresh_walk (ftsp : FTS) : Prop :=
  fresh_entries (fts_root ftsp) /\
  Forall (fun ev => forall b, fresh_entries (ev_children ev b))
         (fts_reads ftsp).

(** A directory event whose children [traverse] lists (lines 388-391). *)
Definition listed_dir (g : globals) (ev : fts_event) : bool :=
  info_eqb (fts_info (ev_ent ev)) FTS_D
  && negb (first_is_dot (fts_name (ev_ent ev))
           && negb (fts_level (ev_ent ev) =? FTS_ROOTLEVEL)
           && negb (flags g f_listdot)).

(** The paths for which a walk without recursion requests FTS_SKIP. *)
Definition skipped_paths (g : globals) (ch_options : bool)
    (evs : list fts_event) : list string :=
  map (fun ev => fts_path (ev_ent ev))
      (filter (fun ev =>
                 listed_dir g ev
                 && match ev_children ev ch_options with
                    | [] => false
                    | _ :: _ => true
                    end) evs).

(** The first thing written is no header after a blank line, and is a
    header at all only when several arguments were given. *)
Definition good_start (argc : Z) (new : list out_item) : Prop :=
  match new with
  | [] => True
  | OutRender _ _ :: _ => True
  | OutHeader blank _ :: _ => blank = false /\ 1 < argc
  end.

Definition is_nil {A : Type} (l : list A) : bool :=
  match l with
  | [] => true
  | _ :: _ => false
  end.

(** A three-entry walk: the directory "d" holding "x" and ".y", then the
    unreadable directory "e". *)
Definition sample_walk : FTS :=
  mkfts [entry FTS_D 0 "d"; entry FTS_D 0 "e"]
        [ mkevent (entry FTS_D 0 "d")
                  (fun _ => [entry FTS_F 1 "x"; entry FTS_F 1 ".y"]);
          mkevent (entry FTS_F 1 "x") (fun _ => []);
          mkevent (entry FTS_DP 0 "d") (fun _ => []);
          mkevent (entry FTS_DNR 0 "e") (fun _ => []) ]
        0.
Definition env_sample : sysenv :=
  mksysenv false None None 1000 (fun _ => None) (fun _ => None)
    (fun _ _ _ => Some sample_walk) 1.

(** Between [w] and [w'] the "anything printed" flag follows the standard
    output: it is on afterwards exactly when it was on before or
    something has been written, and what is written when it was off
    starts as [good_start] says. *)
Definition out_tracks (argc : Z) (w w' : world) : Prop :=
  exists new,
    w_stdout w' = w_stdout w ++ new /\
    output (w_g w') = output (w_g w) || negb (is_nil new) /\
    (output (w_g w) = false -> good_start argc new).

(** The allocator is as a run leaves it when nothing leaks: the same live
    blocks, its invariant, and no failure scheduled. *)
Definition heap_clean (h h' : heap) : Prop :=
  h_live h' = h_live h /\ heap_ok h' /\ no_oom h'.

(** What one event does to the skip requests. *)
Definition skip_of_event (g : globals) (ch_options : bool) (ev : fts_event)
  : list string :=
  if negb (flags g f_recursive)
     && (listed_dir g ev
         && match ev_children ev ch_options with
            | [] => false
            | _ :: _ => true
            end)
  then [fts_path (ev_ent ev)] else [].

(** The effect of a stretch of the run on everything but the two
    channels' contents: the configuration is kept, the skip requests
    grow by [skips], the output flag follows the standard output, and
    the allocator stays clean when it was and could not fail. *)
Definition run_effect (argc : Z) (skips : list string) (fresh : Prop)
    (w w' : world) : Prop :=
  same_config (w_g w) (w_g w') /\
  w_skip w' = w_skip w ++ skips /\
  out_tracks argc w w' /\
  (no_oom (w_heap w) -> heap_ok (w_heap w) -> fresh ->
   heap_clean (w_heap w) (w_heap w')).

(** The error lines of one event of the walk (lines 388-419). *)
Definition event_errors (g : globals) (ch_options : bool) (ev : fts_event)
  : list err_line :=
  match fts_info (ev_ent ev) with
  | FTS_D =>
      if listed_dir g ev then node_errors (ev_children ev ch_options) else []
  | FTS_DC => [ErrCycle (fts_name (ev_ent ev))]
  | FTS_DNR | FTS_ERR =>
      [ErrNode (fts_name (ev_ent ev)) (fts_errno (ev_ent ev))]
  | _ => []
  end.

(** The error lines of a whole walk (lines 375-426). *)
Definition walk_errors (g : globals) (o : fts_options) (ftsp : FTS)
  : list err_line :=
  node_errors (fts_root ftsp)
  ++ (if flags g f_listdir then []
      else
        List.concat
          (map (event_errors g (negb (flags g f_recursive) && o FTS_NOSTAT))
               (fts_reads ftsp))
        ++ (if fts_end_errno ftsp =? 0 then []
            else [ErrFtsRead (fts_end_errno ftsp)])).

(** Between [w] and [w'] the error channel has received [lines]; the
    flags are kept, and so is the impossibility of an allocation
    failure. *)
Definition err_effect (lines : list err_line) (w w' : world) : Prop :=
  alloc_ok w ->
  w_stderr w' = w_stderr w ++ lines /\
  flags (w_g w') = flags (w_g w) /\ alloc_ok w'.

(** ** Notions for the order of a list and for whole runs *)

(** No entry of [l] compares greater than one that comes later in [l]:
    what a sort with the comparator [cmp] has to reach. *)
Fixpoint in_order (cmp : FTSENT -> FTSENT -> Z) (l : list FTSENT) : bool :=
  match l with
  | [] => true
  | x :: rest => forallb (fun y => cmp x y <=? 0) rest && in_order cmp rest
  end.

(** [x] stands before [y] in [l]. *)
Definition before (x y : FTSENT) (l : list FTSENT) : Prop :=
  exists l1 l2 l3, l = l1 ++ x :: l2 ++ y :: l3.

(** Two more arguments of the command line: an entry that could not be
    stat-ed and a second error entry. *)
Definition root_ns : FTSENT := entry FTS_NS FTS_ROOTLEVEL "n".
Definition root_err2 : FTSENT := entry FTS_ERR FTS_ROOTLEVEL "g".

(** A merge sort, as a walk primitive may run it with the comparator it
    is given: of two entries that do not compare greater one way, the one
    of the left half goes first. *)
Fixpoint merge (cmp : FTSENT -> FTSENT -> Z) (l1 : list FTSENT)
  : list FTSENT -> list FTSENT :=
  fix merge_right (l2 : list FTSENT) : list FTSENT :=
    match l1, l2 with
    | [], _ => l2
    | _, [] => l1
    | x1 :: r1, x2 :: r2 =>
        if cmp x1 x2 <=? 0
        then x1 :: merge cmp r1 l2
        else x2 :: merge_right r2
    end.

Fixpoint merge_sort_upto (n : nat) (cmp : FTSENT -> FTSENT -> Z)
    (l : list FTSENT) : list FTSENT :=
  match n with
  | O => l
  | S n' =>
      match l with
      | [] => l
      | [_] => l
      | _ :: _ :: _ =>
          let h := Nat.div2 (List.length l) in
          merge cmp (merge_sort_upto n' cmp (firstn h l))
                    (merge_sort_upto n' cmp (skipn h l))
      end
  end.

Definition merge_sort (cmp : FTSENT -> FTSENT -> Z) (l : list FTSENT)
  : list FTSENT :=
  merge_sort_upto (List.length l) cmp l.

(** A system whose walk primitive finds the arguments in the order d, e,
    n, f and sorts them by merge sort when it is given a comparator. *)
Definition env_merge_sort : sysenv :=
  mksysenv false None None 1000 (fun _ => None) (fun _ => None)
    (fun _ _ c =>
       Some (mkfts (match c with
                    | None => [root_dir; root_err; root_ns; root_file]
                    | Some cmp =>
                        merge_sort cmp
                          [root_dir; root_err; root_ns; root_file]
                    end) [] 0))
    1.

(** The argument vector [ls_main] hands to [traverse] (lines 347-350). *)
Definition walk_arguments (operands : list string) : list string :=
  match operands with
  | [] => ["."%string]
  | _ :: _ => operands
  end.

(** The error line of an event of the walk itself (lines 412-419). *)
Definition event_line (ev : fts_event) : list err_line :=
  match fts_info (ev_ent ev) with
  | FTS_DC => [ErrCycle (fts_name (ev_ent ev))]
  | FTS_DNR | FTS_ERR =>
      [ErrNode (fts_name (ev_ent ev)) (fts_errno (ev_ent ev))]
  | _ => []
  end.

(** The errors of a run of [ls_main] after valid options, in the order in
    which they occur: the walk that cannot be opened, or else the errors
    of the walk. *)
Definition run_errors (env : sysenv) (g : globals) (o : fts_options)
    (operands : list string) : list err_line :=
  match fts_open env (walk_arguments operands) o (fts_compar g) with
  | None => [ErrFtsOpen (hd EmptyString (walk_arguments operands))]
  | Some ftsp => walk_errors g o ftsp
  end.

(** Those of them that the controller meets itself, outside [display]:
    the walk that cannot be opened, the cycles, the unreadable directories
    and the error nodes among the events, and the failure of [fts_read]. *)
Definition controller_errors (env : sysenv) (g : globals) (o : fts_options)
    (operands : list string) : list err_line :=
  match fts_open env (walk_arguments operands) o (fts_compar g) with
  | None => [ErrFtsOpen (hd EmptyString (walk_arguments operands))]
  | Some ftsp =>
      if flags g f_listdir then []
      else flat_map event_line (fts_reads ftsp)
           ++ (if fts_end_errno ftsp =? 0 then []
               else [ErrFtsRead (fts_end_errno ftsp)])
  end.

Definition is_malloc_line (x : err_line) : bool :=
  match x with
  | ErrMalloc => true
  | _ => false
  end.

(** The allocations of a list of [malloc] outcomes that failed. *)
Definition failed (used : list bool) : list bool :=
  filter (fun b : bool => b) used.

(** Between [w] and [w'] the error channel has received at least
    [lines], and one "malloc" line for each allocation that failed: [used]
    are the outcomes taken from the allocator's script. *)
Definition reports (lines : list err_line) (w w' : world) : Prop :=
  exists new used,
    w_stderr w' = w_stderr w ++ new /\
    incl lines new /\
    h_oom (w_heap w) = used ++ h_oom (w_heap w') /\
    List.length (filter is_malloc_line new) = List.length (failed used).

(** A walk that meets an entry that cannot be stat-ed among the
    arguments, a directory cycle and an unreadable directory, and then
    stops on an error of [fts_read]. *)
Definition walk_with_errors : FTS :=
  mkfts [ entry FTS_F 0 "f";
          mkent FTS_NS 0 "gone" 4 "gone" 2 0 None
                (mkstat 0 0 0 0 0 0 0 0 0 0) ]
        [ mkevent (entry FTS_DC 1 "loop") (fun _ => []);
          mkevent (mkent FTS_DNR 1 "locked" 6 "locked" 13 0 None
                         (mkstat 0 0 0 0 0 0 0 0 0 0)) (fun _ => []) ]
        5.
Definition env_errors : sysenv :=
  mksysenv false None None 1000 (fun _ => None) (fun _ => None)
    (fun _ _ _ => Some walk_with_errors) 1.

(** A walk whose arguments are a plain file and, behind it, an error
    entry; and a process whose first [malloc] fails. *)
Definition env_err_behind : sysenv :=
  mksysenv false None None 1000 (fun _ => None) (fun _ => None)
    (fun _ _ _ =>
       Some (mkfts [entry FTS_F 0 "a"; entry FTS_ERR 0 "e"] [] 0))
    1.
Definition world_oom1 : world :=
  mkworld initial_globals [] [] (mkheap [] 0 [true]) [].

(** The sibling lists of one event and of a whole walk, in the order in
    which the controller hands them to [display], each with the directory
    it belongs to ([None] for the arguments): lines 375 and 388-407. *)
Definition event_lists (g : globals) (ch_options : bool) (ev : fts_event)
  : list (option FTSENT * list FTSENT) :=
  if listed_dir g ev
  then [(Some (ev_ent ev), ev_children ev ch_options)]
  else [].

Definition walk_lists (g : globals) (o : fts_options) (ftsp : FTS)
  : list (option FTSENT * list FTSENT) :=
  (None, fts_root ftsp)
  :: (if flags g f_listdir then []
      else flat_map
             (event_lists g (negb (flags g f_recursive) && o FTS_NOSTAT))
             (fts_reads ftsp)).

(** A list with an entry that survives. *)
Definition has_survivor (g : globals) (pl : option FTSENT * list FTSENT)
  : bool :=
  negb (is_nil (survivors g (fst pl) (snd pl))).

(** The descriptor [d] holds the list [pl] entry for entry, in the same
    order, with the do-not-print mark on the suppressed entries. *)
Definition renders_list (g : globals) (pl : option FTSENT * list FTSENT)
    (d : DISPLAY) : Prop :=
  Forall2
    (fun e e' =>
       same_node e e' /\
       fts_number e'
         = (if suppressed g (fst pl) e then NO_PRINT else fts_number e))
    (snd pl) (d_list d).

(** Between [w] and [w'], when no allocation can fail, the print function
    has been called once for each of [lists], in that order. *)
Definition render_effect (lists : list (option FTSENT * list FTSENT))
    (w w' : world) : Prop :=
  alloc_ok w ->
  (exists ds,
     rendered w' = rendered w ++ ds /\
     Forall2 (renders_list (w_g w)) lists ds) /\
  flags (w_g w') = flags (w_g w) /\ alloc_ok w'.

(** What an item of the standard output shows: the path of a header, or
    the names of the entries of a descriptor that are not marked
    do-not-print. *)
Definition shown (x : out_item) : string + list string :=
  match x with
  | OutHeader _ path => inl path
  | OutRender _ d =>
      inr (map fts_name
             (filter (fun e => negb (fts_number e =? NO_PRINT)) (d_list d)))
  end.

(** A walk of the arguments "d" and "f" as the primitive produces it when
    it is given no comparator: the directory "d", which holds "x", comes
    first.  With a comparator the primitive hands out the arguments
    sorted. *)
Definition raw_walk : FTS :=
  mkfts [entry FTS_D 0 "d"; entry FTS_F 0 "f"]
        [ mkevent (entry FTS_D 0 "d") (fun _ => [entry FTS_F 1 "x"]);
          mkevent (entry FTS_F 1 "x") (fun _ => []);
          mkevent (entry FTS_DP 0 "d") (fun _ => []);
          mkevent (entry FTS_F 0 "f") (fun _ => []) ]
        0.
Definition sorted_walk : FTS :=
  mkfts [entry FTS_F 0 "f"; entry FTS_D 0 "d"]
        [ mkevent (entry FTS_F 0 "f") (fun _ => []);
          mkevent (entry FTS_D 0 "d") (fun _ => [entry FTS_F 1 "x"]);
          mkevent (entry FTS_F 1 "x") (fun _ => []);
          mkevent (entry FTS_DP 0 "d") (fun _ => []) ]
        0.
Definition env_raw : sysenv :=
  mksysenv false None None 1000 (fun _ => None) (fun _ => None)
    (fun _ _ c => match c with
                  | None => Some raw_walk
                  | Some _ => Some sorted_walk
                  end)
    1.

(** * Properties *)

(** ** Comparators *)

Lemma info_eqb_eq (x y : fts_info_t) : info_eqb x y = true <-> x = y.
Proof. destruct x, y; simpl; split; intro H; congruence. Qed.

Lemma info_eqb_refl (x : fts_info_t) : info_eqb x x = true.
Proof. now destruct x. Qed.

Lemma uchar_nonneg (c : ascii) : 0 <= uchar c.
Proof. unfold uchar. lia. Qed.

Lemma strcmp_opp (s t : string) : strcmp t s = - strcmp s t.
Proof.
  revert t. induction s as [|c s IH]; intros [|d t]; simpl; try lia.
  rewrite (Z.eqb_sym (uchar d) (uchar c)).
  destruct (Z.eqb_spec (uchar c) (uchar d)) as [E|E].
  - rewrite <- E. destruct (uchar c =? 0); [reflexivity | apply IH].
  - lia.
Qed.

Lemma strcmp_le_trans (s t u : string) :
  strcmp s t <= 0 -> strcmp t u <= 0 -> strcmp s u <= 0.
Proof.
  revert t u. induction s as [|c s IH]; intros [|d t] [|e u]; simpl;
    try pose proof (uchar_nonneg c); try pose proof (uchar_nonneg d);
    try pose proof (uchar_nonneg e); try lia;
    repeat match goal with
           | |- context [Z.eqb ?x ?y] => destruct (Z.eqb_spec x y)
           end; try lia.
  apply IH.
Qed.

Lemma sgn_flip (x y : Z) :
  Z.sgn x = - Z.sgn y ->
  (x < 0 <-> 0 < y) /\ (x = 0 <-> y = 0) /\ (0 < x <-> y < 0).
Proof. destruct x, y; simpl; intro H; try discriminate H; lia. Qed.

Section WeakOrders.

Variable cmp : FTSENT -> FTSENT -> Z.
Hypothesis cmp_anti : cmp_antisym cmp.
Hypothesis cmp_trans : cmp_le_trans cmp.

Lemma weak_lt_trans (a b c : FTSENT) :
  cmp a b < 0 -> cmp b c < 0 -> cmp a c < 0.
Proof.
  intros Hab Hbc.
  pose proof (sgn_flip _ _ (cmp_anti a c)).
  pose proof (sgn_flip _ _ (cmp_anti b c)).
  assert (cmp a c <= 0) by (apply (cmp_trans a b c); lia).
  destruct (Z.eq_dec (cmp a c) 0) as [E|E]; [|lia].
  assert (cmp c b <= 0) by (apply (cmp_trans c a b); lia).
  lia.
Qed.

Lemma weak_eq_trans (a b c : FTSENT) :
  cmp a b = 0 -> cmp b c = 0 -> cmp a c = 0.
Proof.
  intros Hab Hbc.
  pose proof (sgn_flip _ _ (cmp_anti a b)).
  pose proof (sgn_flip _ _ (cmp_anti b c)).
  pose proof (sgn_flip _ _ (cmp_anti a c)).
  assert (cmp a c <= 0) by (apply (cmp_trans a b c); lia).
  assert (cmp c a <= 0) by (apply (cmp_trans c b a); lia).
  lia.
Qed.

Lemma mirrored_antisym : cmp_antisym (fun a b => cmp b a).
Proof. intros a b. apply cmp_anti. Qed.

Lemma mirrored_le_trans : cmp_le_trans (fun a b => cmp b a).
Proof. intros a b c Hab Hbc. now apply (cmp_trans c b a). Qed.

End WeakOrders.

Lemma namecmp_antisym : cmp_antisym namecmp.
Proof. intros a b. unfold namecmp. rewrite strcmp_opp. apply Z.sgn_opp. Qed.

Lemma namecmp_le_trans : cmp_le_trans namecmp.
Proof. intros a b c. unfold namecmp. apply strcmp_le_trans. Qed.

Lemma keycmp_antisym (key : stat -> Z) : cmp_antisym (keycmp key).
Proof.
  intros a b. unfold keycmp.
  destruct (Z.ltb_spec (key (fts_statp a)) (key (fts_statp b)));
    destruct (Z.ltb_spec (key (fts_statp b)) (key (fts_statp a)));
    try reflexivity; try lia.
  apply namecmp_antisym.
Qed.

Lemma keycmp_le_trans (key : stat -> Z) : cmp_le_trans (keycmp key).
Proof.
  intros a b c. unfold keycmp.
  destruct (Z.ltb_spec (key (fts_statp a)) (key (fts_statp b)));
    destruct (Z.ltb_spec (key (fts_statp b)) (key (fts_statp a)));
    destruct (Z.ltb_spec (key (fts_statp b)) (key (fts_statp c)));
    destruct (Z.ltb_spec (key (fts_statp c)) (key (fts_statp b)));
    destruct (Z.ltb_spec (key (fts_statp a)) (key (fts_statp c)));
    destruct (Z.ltb_spec (key (fts_statp c)) (key (fts_statp a)));
    try lia.
  apply namecmp_le_trans.
Qed.

Lemma apply_sortfn_antisym (f : sortfn) : cmp_antisym (apply_sortfn f).
Proof.
  destruct f; simpl;
    first [ apply namecmp_antisym
          | apply (mirrored_antisym _ namecmp_antisym)
          | apply keycmp_antisym
          | apply (mirrored_antisym _ (keycmp_antisym _)) ].
Qed.

Lemma apply_sortfn_le_trans (f : sortfn) : cmp_le_trans (apply_sortfn f).
Proof.
  destruct f; simpl;
    first [ apply namecmp_le_trans
          | apply (mirrored_le_trans _ namecmp_le_trans)
          | apply keycmp_le_trans
          | apply (mirrored_le_trans _ (keycmp_le_trans _)) ].
Qed.

Lemma call_sortfcn_antisym (g : globals) : cmp_antisym (call_sortfcn g).
Proof.
  unfold call_sortfcn. destruct (sortfcn g).
  - apply apply_sortfn_antisym.
  - intros a b. reflexivity.
Qed.

Lemma call_sortfcn_le_trans (g : globals) : cmp_le_trans (call_sortfcn g).
Proof.
  unfold call_sortfcn. destruct (sortfcn g).
  - apply apply_sortfn_le_trans.
  - intros a b c. lia.
Qed.

(** ** The ordering policy *)

(** Away from error entries and within one level, [mastercmp] orders by
    group first and by a comparator inside the group. *)
Lemma mastercmp_by_rank (g : globals) (a b : FTSENT) :
  fts_info a <> FTS_ERR -> fts_info b <> FTS_ERR ->
  fts_level a = fts_level b ->
  mastercmp g a b =
    if rank g a <? rank g b then -1
    else if rank g b <? rank g a then 1
    else if info_eqb (fts_info a) FTS_NS then namecmp a b
    else call_sortfcn g a b.
Proof.
  intros Ha Hb Hl. unfold mastercmp, rank. rewrite <- Hl.
  destruct (fts_info a), (fts_info b); try congruence;
    destruct (fts_level a =? FTS_ROOTLEVEL);
    destruct (flags g f_listdir); reflexivity.
Qed.

Lemma rank_range (g : globals) (e : FTSENT) :
  (rank g e = 2 /\ info_eqb (fts_info e) FTS_NS = true) \/
  (0 <= rank g e <= 1 /\ info_eqb (fts_info e) FTS_NS = false).
Proof.
  unfold rank. destruct (info_eqb (fts_info e) FTS_NS); [left; auto|].
  right. split; [|reflexivity].
  destruct (info_eqb (fts_info e) FTS_D && (fts_level e =? FTS_ROOTLEVEL)
            && negb (flags g f_listdir)); lia.
Qed.

Section OneLevel.

Variable g : globals.
Variable level : Z.

(** The entries of one comparison context that are no error entries. *)
Let sortable (e : FTSENT) : Prop :=
  fts_level e = level /\ fts_info e <> FTS_ERR.

Lemma mastercmp_antisym_sortable (a b : FTSENT) :
  sortable a -> sortable b ->
  Z.sgn (mastercmp g b a) = - Z.sgn (mastercmp g a b).
Proof.
  intros [La Ea] [Lb Eb].
  rewrite (mastercmp_by_rank g a b), (mastercmp_by_rank g b a)
    by congruence.
  destruct (rank_range g a) as [[Ra Na]|[Ra Na]];
    destruct (rank_range g b) as [[Rb Nb]|[Rb Nb]];
    rewrite Na, Nb;
    destruct (Z.ltb_spec (rank g a) (rank g b));
    destruct (Z.ltb_spec (rank g b) (rank g a));
    try lia; try reflexivity.
  - apply namecmp_antisym.
  - apply call_sortfcn_antisym.
Qed.

Lemma mastercmp_le_trans_sortable (a b c : FTSENT) :
  sortable a -> sortable b -> sortable c ->
  mastercmp g a b <= 0 -> mastercmp g b c <= 0 -> mastercmp g a c <= 0.
Proof.
  intros [La Ea] [Lb Eb] [Lc Ec].
  rewrite (mastercmp_by_rank g a b), (mastercmp_by_rank g b c),
    (mastercmp_by_rank g a c) by congruence.
  destruct (rank_range g a) as [[Ra Na]|[Ra Na]];
    destruct (rank_range g b) as [[Rb Nb]|[Rb Nb]];
    destruct (rank_range g c) as [[Rc Nc]|[Rc Nc]];
    rewrite Na, ?Nb;
    destruct (Z.ltb_spec (rank g a) (rank g b));
    destruct (Z.ltb_spec (rank g b) (rank g a));
    destruct (Z.ltb_spec (rank g b) (rank g c));
    destruct (Z.ltb_spec (rank g c) (rank g b));
    destruct (Z.ltb_spec (rank g a) (rank g c));
    destruct (Z.ltb_spec (rank g c) (rank g a));
    try lia.
  - apply namecmp_le_trans.
  - apply call_sortfcn_le_trans.
Qed.

Lemma mastercmp_strict_weak_order :
  strict_weak_order_on sortable (mastercmp g).
Proof.
  repeat split.
  - intros a b. apply mastercmp_antisym_sortable.
  - intros a b c Sa Sb Sc Hab Hbc.
    pose proof (mastercmp_antisym_sortable a c Sa Sc) as Hac.
    pose proof (mastercmp_antisym_sortable b c Sb Sc) as Hbc'.
    apply sgn_flip in Hac. apply sgn_flip in Hbc'.
    assert (mastercmp g a c <= 0)
      by (apply (mastercmp_le_trans_sortable a b c); auto; lia).
    destruct (Z.eq_dec (mastercmp g a c) 0) as [E|E]; [|lia].
    assert (mastercmp g c b <= 0)
      by (apply (mastercmp_le_trans_sortable c a b); auto; lia).
    lia.
  - intros a b c Sa Sb Sc Hab Hbc.
    pose proof (mastercmp_antisym_sortable a b Sa Sb) as H1.
    pose proof (mastercmp_antisym_sortable b c Sb Sc) as H2.
    pose proof (mastercmp_antisym_sortable a c Sa Sc) as H3.
    apply sgn_flip in H1. apply sgn_flip in H2. apply sgn_flip in H3.
    assert (mastercmp g a c <= 0)
      by (apply (mastercmp_le_trans_sortable a b c); auto; lia).
    assert (mastercmp g c a <= 0)
      by (apply (mastercmp_le_trans_sortable c b a); auto; lia).
    lia.
Qed.

End OneLevel.

Lemma with_reversed_listdir (v : bool) (g : globals) :
  flags (with_reversed v g) f_listdir = flags g f_listdir.
Proof.
  unfold with_reversed, select_sortfcn.
  repeat match goal with
         | |- context [if ?c then _ else _] => destruct c
         end; reflexivity.
Qed.

(** In the general case [mastercmp] is the call of [sortfcn]. *)
Lemma mastercmp_general_case (g : globals) (a b : FTSENT) :
  special_case g a b = false -> mastercmp g a b = call_sortfcn g a b.
Proof.
  unfold special_case, mastercmp.
  destruct (fts_info a), (fts_info b);
    destruct (fts_level a =? FTS_ROOTLEVEL);
    destruct (flags g f_listdir); simpl; intro H;
    try reflexivity; discriminate H.
Qed.

(** With a sort key of [ls_main], the reversed toggle selects the same
    field comparator with its arguments exchanged. *)
Lemma reversed_toggle_mirrors_sortfcn (g : globals) (a b : FTSENT) :
  0 <= sortkey g <= 2 ->
  call_sortfcn (with_reversed true g) a b =
  call_sortfcn (with_reversed false g) b a.
Proof.
  intro H. unfold with_reversed, select_sortfcn, call_sortfcn.
  assert (Hk : sortkey g = 0 \/ sortkey g = 1 \/ sortkey g = 2) by lia.
  cbn [set_flag set_flags flags sortkey flag_eqb].
  destruct Hk as [K|[K|K]]; rewrite K; cbn;
    destruct (flags g f_accesstime); destruct (flags g f_statustime);
    reflexivity.
Qed.

(** Where the grouping of line 635 applies, the directory is the larger
    entry of the pair. *)
Lemma mastercmp_root_grouping (g : globals) (a b : FTSENT) :
  fts_info a <> FTS_ERR -> fts_info b <> FTS_ERR ->
  fts_info a <> FTS_NS -> fts_info b <> FTS_NS ->
  fts_level a = FTS_ROOTLEVEL -> flags g f_listdir = false ->
  (fts_info a = FTS_D -> fts_info b <> FTS_D -> mastercmp g a b = 1) /\
  (fts_info a <> FTS_D -> fts_info b = FTS_D -> mastercmp g a b = -1).
Proof.
  intros Ea Eb Na Nb L D. unfold mastercmp. rewrite L, D.
  destruct (fts_info a), (fts_info b); simpl; split; intros; congruence.
Qed.

(** C1.  The specification has a directory compare less than a
    non-directory among the arguments of the command line, when
    directories are listed by their contents.  The code does the opposite:
    [mastercmp] returns 1 for (directory, plain file) and -1 for (plain
    file, directory), so the directory is the larger of the two. *)
Theorem mastercmp_root_directory_compares_greater :
  flags g_plain f_listdir = false /\
  mastercmp g_plain root_dir root_file = 1 /\
  mastercmp g_plain root_file root_dir = -1.
Proof. repeat split. Qed.

(** C4, as the specification states it, fails: an error entry compares equal to a plain file
    and to a directory of the command line, which are not equal to each
    other, so "compares equal" is not transitive. *)
Lemma mastercmp_not_weak_order_with_errors :
  ~ strict_weak_order_on (fun e => fts_level e = FTS_ROOTLEVEL)
      (mastercmp g_plain).
Proof.
  intros [_ [_ Heq]].
  specialize (Heq root_file root_err root_dir eq_refl eq_refl eq_refl
                eq_refl eq_refl).
  discriminate Heq.
Qed.

(** C4, amended.  For every configuration in which a field comparator is
    selected, [mastercmp] is a strict weak ordering (antisymmetric,
    transitive, with a transitive "compares equal") on the entries of one
    level that are not error entries; not-stat-able entries are included. *)
Theorem mastercmp_strict_weak_order_without_errors
    (g : globals) (f : sortfn) (level : Z) :
  sortfcn g = Some f ->
  strict_weak_order_on
    (fun e => fts_level e = level /\ fts_info e <> FTS_ERR) (mastercmp g).
Proof. intros _. apply mastercmp_strict_weak_order. Qed.

Lemma mastercmp_strict_weak_order_witness :
  strict_weak_order_on
    (fun e => fts_level e = FTS_ROOTLEVEL /\ fts_info e <> FTS_ERR)
    (mastercmp g_plain).
Proof.
  apply (mastercmp_strict_weak_order_without_errors g_plain Namecmp).
  reflexivity.
Defined.

(** ** Error entries and the order of a list *)

Lemma mastercmp_error_left (g : globals) (e x : FTSENT) :
  fts_info e = FTS_ERR -> mastercmp g e x = 0.
Proof. unfold mastercmp. intros ->. reflexivity. Qed.

Lemma mastercmp_error_right (g : globals) (e x : FTSENT) :
  fts_info e = FTS_ERR -> mastercmp g x e = 0.
Proof.
  unfold mastercmp. intros ->.
  destruct (info_eqb (fts_info x) FTS_ERR); reflexivity.
Qed.

(** An error entry can be put anywhere in a list, or taken out of it,
    without changing whether the list is in order. *)
Lemma in_order_error_entry (g : globals) (e : FTSENT) (l1 l2 : list FTSENT) :
  fts_info e = FTS_ERR ->
  in_order (mastercmp g) (l1 ++ e :: l2) = in_order (mastercmp g) (l1 ++ l2).
Proof.
  intro He. induction l1 as [|x l1 IH]; cbn [app in_order].
  - replace (forallb (fun y => mastercmp g e y <=? 0) l2) with true;
      [reflexivity|].
    symmetry. apply forallb_forall. intros y _.
    now rewrite (mastercmp_error_left g e y He).
  - rewrite IH, !forallb_app. cbn [forallb].
    now rewrite (mastercmp_error_right g e x He).
Qed.

Lemma in_order_before (cmp : FTSENT -> FTSENT -> Z) (x y : FTSENT)
    (l : list FTSENT) :
  in_order cmp l = true -> before x y l -> cmp x y <= 0.
Proof.
  intros H (l1 & l2 & l3 & ->).
  induction l1 as [|a l1 IH]; cbn [app in_order] in H;
    apply andb_true_iff in H; destruct H as [H1 H2].
  - apply Z.leb_le.
    apply (proj1 (forallb_forall _ _) H1 y).
    apply in_or_app. right. now left.
  - apply IH. exact H2.
Qed.

(** In a list without repetition an entry stands at one place only. *)
Lemma NoDup_split_unique (e : FTSENT) (p1 s1 p2 s2 : list FTSENT) :
  NoDup (p1 ++ e :: s1) -> p1 ++ e :: s1 = p2 ++ e :: s2 ->
  p1 = p2 /\ s1 = s2.
Proof.
  revert p2. induction p1 as [|a p1 IH]; intros p2 N E.
  - destruct p2 as [|b p2]; cbn [app] in *.
    + injection E as E. now split.
    + injection E as <- E. inversion N as [|? ? Hn _]; subst.
      elim Hn. apply in_or_app. right. now left.
  - destruct p2 as [|b p2]; cbn [app] in *.
    + injection E as -> E. inversion N as [|? ? Hn _]; subst.
      elim Hn. apply in_or_app. right. now left.
    + injection E as <- E. inversion N as [|? ? _ N']; subst.
      destruct (IH p2 N' E) as [-> ->]. now split.
Qed.

Lemma before_trans (x e y : FTSENT) (l : list FTSENT) :
  NoDup l -> before x e l -> before e y l -> before x y l.
Proof.
  intros N (l1 & l2 & l3 & E1) (m1 & m2 & m3 & E2).
  assert (E : (l1 ++ x :: l2) ++ e :: l3 = m1 ++ e :: m2 ++ y :: m3).
  { rewrite <- E2, E1, <- app_assoc. reflexivity. }
  assert (N' : NoDup ((l1 ++ x :: l2) ++ e :: l3)).
  { rewrite <- app_assoc. cbn [app]. now rewrite <- E1. }
  destruct (NoDup_split_unique e _ _ _ _ N' E) as [_ E3].
  exists l1, (l2 ++ e :: m2), m3.
  rewrite E1, E3, <- app_assoc. reflexivity.
Qed.

(** C7, amended.  When one of two entries is marked as a traversal error,
    [mastercmp] returns zero, in either order and for every
    configuration.  The ordering therefore puts no constraint on an error
    entry: it can stand anywhere in a list, or be left out, without
    changing whether the list is in order.  That does not keep it in
    place: when the entry before it compares greater than the entry after
    it, the three are out of order although the error entry compares
    equal to both, and no arrangement of distinct entries that is in
    order still has the error entry after the one and before the other. *)
Theorem mastercmp_error_entries_equal (g : globals) (e : FTSENT) :
  fts_info e = FTS_ERR ->
  (forall x, mastercmp g e x = 0 /\ mastercmp g x e = 0) /\
  (forall l1 l2,
     in_order (mastercmp g) (l1 ++ e :: l2)
     = in_order (mastercmp g) (l1 ++ l2)) /\
  (forall x y,
     0 < mastercmp g x y ->
     in_order (mastercmp g) [x; e; y] = false /\
     forall l,
       NoDup l -> in_order (mastercmp g) l = true ->
       ~ (before x e l /\ before e y l)).
Proof.
  intro He. split; [|split].
  - intro x. split;
      [now apply mastercmp_error_left | now apply mastercmp_error_right].
  - intros l1 l2. now apply in_order_error_entry.
  - intros x y Hxy. split.
    + cbn [in_order forallb].
      rewrite (mastercmp_error_right g e x He).
      destruct (Z.leb_spec (mastercmp g x y) 0) as [L|L]; [lia|].
      reflexivity.
    + intros l N O [B1 B2].
      pose proof (in_order_before _ x y l O (before_trans x e y l N B1 B2)).
      lia.
Qed.

Lemma mastercmp_error_entries_equal_witness :
  mastercmp g_plain root_err root_file = 0 /\
  mastercmp g_plain root_dir root_err = 0 /\
  in_order (mastercmp g_plain) [root_dir; root_err; root_file] = false /\
  in_order (mastercmp g_plain) [root_file; root_err; root_dir] = true /\
  ~ (before root_dir root_err [root_file; root_err; root_dir]
     /\ before root_err root_file [root_file; root_err; root_dir]).
Proof.
  destruct (mastercmp_error_entries_equal g_plain root_err eq_refl)
    as (Z0 & _ & D).
  assert (Hdf : 0 < mastercmp g_plain root_dir root_file)
    by (vm_compute; reflexivity).
  destruct (D root_dir root_file Hdf) as [O1 Dl].
  assert (N : NoDup [root_file; root_err; root_dir]).
  { repeat constructor; cbn [In]; intuition discriminate. }
  assert (O2 : in_order (mastercmp g_plain) [root_file; root_err; root_dir]
               = true) by (vm_compute; reflexivity).
  split; [apply (Z0 root_file)|]. split; [apply (Z0 root_dir)|].
  split; [exact O1|]. split; [exact O2|].
  exact (Dl _ N O2).
Defined.

(** C7, as the specification states it, fails.  A merge sort with
    [mastercmp] takes the error entry "e" of the arguments d, e, n, f
    from its place before the file "f" to a place behind it, and so does
    a run of [ls_main] on a walk primitive that sorts in this way.  No
    sort could leave it alone on d, e, f: the error entry compares equal
    to the directory and to the file between which it stands, the
    directory compares greater than the file, and of the six arrangements
    of the three entries the three that are in order all have "f" before
    "d", so that "e" has changed sides with one of them.  And two error
    entries are in order both ways round: the comparator does not fix
    their mutual position. *)
Lemma mastercmp_error_entry_displaced :
  merge_sort (mastercmp g_plain) [root_dir; root_err; root_ns; root_file]
  = [root_file; root_dir; root_err; root_ns] /\
  map (fun d => map fts_name (d_list d))
      (rendered (snd (ls_main env_merge_sort [] ["d"; "e"; "n"; "f"]%string
                        world0)))
  = [["f"; "d"; "e"; "n"]]%string /\
  mastercmp g_plain root_dir root_err = 0 /\
  mastercmp g_plain root_err root_file = 0 /\
  filter (in_order (mastercmp g_plain))
    [ [root_dir; root_err; root_file]; [root_dir; root_file; root_err];
      [root_err; root_dir; root_file]; [root_file; root_dir; root_err];
      [root_file; root_err; root_dir]; [root_err; root_file; root_dir] ]
  = [ [root_file; root_dir; root_err]; [root_file; root_err; root_dir];
      [root_err; root_file; root_dir] ] /\
  in_order (mastercmp g_plain) [root_err; root_err2] = true /\
  in_order (mastercmp g_plain) [root_err2; root_err] = true.
Proof.
  repeat (match goal with |- _ /\ _ => split end);
    vm_compute; reflexivity.
Qed.

(** C8.  For every pair that falls into one of the special cases of
    [mastercmp] (an error entry, a not-stat-able entry, the grouping of
    the command-line arguments), the result is the same with the reversed
    toggle on and off. *)
Theorem reversed_toggle_keeps_special_cases (g : globals) (a b : FTSENT) :
  special_case g a b = true ->
  mastercmp (with_reversed true g) a b =
  mastercmp (with_reversed false g) a b.
Proof.
  unfold special_case, mastercmp. rewrite !with_reversed_listdir.
  destruct (fts_info a), (fts_info b);
    destruct (fts_level a =? FTS_ROOTLEVEL);
    destruct (flags g f_listdir); simpl; intro H;
    try reflexivity; discriminate H.
Qed.

Lemma reversed_toggle_keeps_special_cases_witness :
  special_case g_plain root_dir root_file = true /\
  mastercmp (with_reversed true g_plain) root_dir root_file = 1 /\
  mastercmp (with_reversed false g_plain) root_dir root_file = 1.
Proof.
  assert (H : special_case g_plain root_dir root_file = true)
    by reflexivity.
  pose proof (reversed_toggle_keeps_special_cases g_plain root_dir root_file H)
    as E.
  split; [exact H|]. split; [reflexivity|]. rewrite <- E. reflexivity.
Defined.

(** ** The selection and aggregation pass *)

Lemma gtb_max (x m : Z) : (if x >? m then x else m) = Z.max m x.
Proof. destruct (Z.gtb_spec x m); lia. Qed.

Lemma strlen_nonneg (s : string) : 0 <= strlen s.
Proof.
  induction s as [|c s IH]; cbn [strlen]; [lia|].
  destruct (uchar c =? 0); lia.
Qed.

Lemma int_of_small (z : Z) : 0 <= z < 2 ^ 31 -> int_of z = z.
Proof.
  intro H. unfold int_of.
  change (2 ^ 31) with 2147483648 in *. change (2 ^ 32) with 4294967296.
  rewrite Z.mod_small; lia.
Qed.

Lemma loop_locals_push (e : FTSENT) (r : loop_result) :
  loop_locals (push e r) = loop_locals r.
Proof. now destruct r. Qed.

Lemma loop_world_push (e : FTSENT) (r : loop_result) :
  loop_world (push e r) = loop_world r.
Proof. now destruct r. Qed.

Lemma loop_list_push (e : FTSENT) (r : loop_result) :
  loop_list (push e r) = e :: loop_list r.
Proof. now destruct r. Qed.

Lemma frame_status_refl (w : world) : frame_status w w.
Proof. destruct w as [[] ? ? ? ?]. reflexivity. Qed.

Lemma frame_status_trans (w1 w2 w3 : world) :
  frame_status w1 w2 -> frame_status w2 w3 -> frame_status w1 w3.
Proof.
  unfold frame_status. intros H12 H23. rewrite H23 at 1. rewrite H12 at 1 2 3.
  reflexivity.
Qed.

Lemma frame_status_fail_with (v : Z) (w : world) :
  frame_status w (fail_with v w).
Proof. destruct w as [[] ? ? ? ?]. reflexivity. Qed.

Lemma frame_status_put_err (x : err_line) (w : world) :
  frame_status w (put_err x w).
Proof. destruct w as [[] ? ? ? ?]. reflexivity. Qed.

Lemma frame_status_with_heap (h : heap) (w : world) :
  frame_status w (with_heap h w).
Proof. destruct w as [[] ? ? ? ?]. reflexivity. Qed.

Lemma frame_status_flags (w w' : world) :
  frame_status w w' -> flags (w_g w') = flags (w_g w).
Proof. intro H. rewrite H. reflexivity. Qed.

Lemma frame_status_stdout (w w' : world) :
  frame_status w w' -> w_stdout w' = w_stdout w.
Proof. intro H. rewrite H. reflexivity. Qed.

Lemma frame_status_output (w w' : world) :
  frame_status w w' -> output (w_g w') = output (w_g w).
Proof. intro H. rewrite H. reflexivity. Qed.

Lemma frame_status_printfcn (w w' : world) :
  frame_status w w' -> printfcn (w_g w') = printfcn (w_g w).
Proof. intro H. rewrite H. reflexivity. Qed.

Lemma user_of_flags (env : sysenv) (g1 g2 : globals) (sp : stat) :
  flags g1 = flags g2 -> user_of env g1 sp = user_of env g2 sp.
Proof. unfold user_of. now intros ->. Qed.

Lemma group_of_flags (env : sysenv) (g1 g2 : globals) (sp : stat) :
  flags g1 = flags g2 -> group_of env g1 sp = group_of env g2 sp.
Proof. unfold group_of. now intros ->. Qed.

Lemma flags_of_flags (g1 g2 : globals) :
  flags g1 = flags g2 -> flags_of g1 = flags_of g2.
Proof. unfold flags_of. now intros ->. Qed.

Lemma agg_long_flags (env : sysenv) (g1 g2 : globals) (sp : stat)
    (a : locals) :
  flags g1 = flags g2 -> agg_long env g1 sp a = agg_long env g2 sp a.
Proof.
  intro H. unfold agg_long, ulen_of, glen_of, flen_of.
  rewrite (user_of_flags env g1 g2 sp H), (group_of_flags env g1 g2 sp H),
    (flags_of_flags g1 g2 H), H.
  reflexivity.
Qed.

Section DisplayLoop.

Variable env : sysenv.
Variable p : option FTSENT.
Variable ns : bool.

(** The loop leaves the output, the configuration and the skip requests
    alone. *)
Lemma display_loop_frame (l : list FTSENT) :
  forall a w, frame_status w (loop_world (display_loop env p ns l a w)).
Proof.
  induction l as [|e l IH]; intros a w; cbn [display_loop].
  - apply frame_status_refl.
  - destruct (is_err_or_ns e).
    { rewrite loop_world_push.
      eapply frame_status_trans; [|apply IH].
      eapply frame_status_trans;
        [apply frame_status_put_err | apply frame_status_fail_with]. }
    destruct (match p with
              | None => _
              | Some _ => _
              end).
    { rewrite loop_world_push. apply IH. }
    destruct ns; [|rewrite loop_world_push; apply IH].
    destruct (flags (w_g w) f_longform);
      [|rewrite loop_world_push; apply IH].
    destruct (malloc _ _) as [[np|] h].
    + rewrite loop_world_push.
      eapply frame_status_trans; [apply frame_status_with_heap | apply IH].
    + cbn [loop_world].
      eapply frame_status_trans; [apply frame_status_with_heap|].
      eapply frame_status_trans;
        [apply frame_status_put_err | apply frame_status_fail_with].
Qed.

(** At the end of the list the local variables are those of the
    surviving entries, folded in order. *)
Lemma display_loop_locals (l : list FTSENT) :
  forall g0 a w a',
    flags (w_g w) = flags g0 ->
    loop_locals (display_loop env p ns l a w) = Some a' ->
    a' = fold_left (agg_step env g0 ns) (survivors g0 p l) a.
Proof.
  induction l as [|e l IH]; intros g0 a w a' Hf; cbn [display_loop].
  - cbn. congruence.
  - unfold survivors. cbn [filter]. fold (survivors g0 p l).
    unfold suppressed. rewrite Hf.
    destruct (is_err_or_ns e).
    { rewrite loop_locals_push. cbn [orb negb]. apply IH. exact Hf. }
    cbn [orb].
    destruct (match p with
              | None => _
              | Some _ => _
              end).
    { rewrite loop_locals_push. cbn [negb]. apply IH. exact Hf. }
    cbn [negb fold_left]. unfold agg_step at 2. rewrite <- Hf.
    destruct ns; [|rewrite loop_locals_push; apply IH; exact Hf].
    destruct (flags (w_g w) f_longform);
      [|rewrite loop_locals_push; apply IH; exact Hf].
    rewrite <- (agg_long_flags env (w_g w) g0 _ _ Hf).
    destruct (malloc _ _) as [[np|] h].
    + rewrite loop_locals_push. apply IH. exact Hf.
    + cbn. discriminate.
Qed.

End DisplayLoop.

Section Aggregates.

Variable env : sysenv.
Variable g : globals.

Lemma agg_fold_entries (ns : bool) (S : list FTSENT) :
  forall a,
    entries (fold_left (agg_step env g ns) S a)
    = entries a + Z.of_nat (List.length S).
Proof.
  induction S as [|e S IH]; intro a; cbn [fold_left List.length].
  - lia.
  - rewrite IH. unfold agg_step.
    destruct ns; [destruct (flags g f_longform)|]; cbn; lia.
Qed.

Lemma agg_fold_maxlen (ns : bool) (S : list FTSENT) :
  forall a,
    0 <= maxlen a ->
    maxlen (fold_left (agg_step env g ns) S a)
    = Z.max (maxlen a) (zmax_of fts_namelen S).
Proof.
  unfold zmax_of.
  induction S as [|e S IH]; intros a Ha; cbn [fold_left map fold_right].
  - lia.
  - assert (E : maxlen (agg_step env g ns a e)
                = Z.max (maxlen a) (fts_namelen e)).
    { unfold agg_step.
      destruct ns; [destruct (flags g f_longform)|];
        cbn [maxlen agg_count agg_bcfile agg_long agg_stat agg_name];
        apply gtb_max. }
    rewrite IH; rewrite E; lia.
Qed.

Lemma agg_step_stat (a : locals) (e : FTSENT) :
  let a' := agg_step env g true a e in
  maxblock a' = Z.max (maxblock a) (blocks_of e) /\
  maxinode a' = Z.max (maxinode a) (inode_of e) /\
  maxnlink a' = Z.max (maxnlink a) (nlink_of e) /\
  maxsize a' = Z.max (maxsize a) (size_of e) /\
  btotal a' = ulong_of (btotal a + blocks_of e).
Proof.
  unfold agg_step, blocks_of, inode_of, nlink_of, size_of.
  destruct (flags g f_longform);
    cbn [maxblock maxinode maxnlink maxsize btotal
         agg_count agg_bcfile agg_long agg_stat agg_name];
    rewrite !gtb_max; repeat split; reflexivity.
Qed.

Lemma agg_fold_stat (S : list FTSENT) :
  forall a,
    0 <= maxblock a -> 0 <= maxinode a -> 0 <= maxnlink a ->
    0 <= maxsize a ->
    let a' := fold_left (agg_step env g true) S a in
    maxblock a' = Z.max (maxblock a) (zmax_of blocks_of S) /\
    maxinode a' = Z.max (maxinode a) (zmax_of inode_of S) /\
    maxnlink a' = Z.max (maxnlink a) (zmax_of nlink_of S) /\
    maxsize a' = Z.max (maxsize a) (zmax_of size_of S) /\
    ulong_of (btotal a') = ulong_of (btotal a + zsum_of blocks_of S).
Proof.
  unfold zmax_of, zsum_of.
  induction S as [|e S IH]; intros a B I N Z0;
    cbn [fold_left map fold_right].
  - rewrite Z.add_0_r. repeat split; lia.
  - destruct (agg_step_stat a e) as (E1 & E2 & E3 & E4 & E5).
    destruct (IH (agg_step env g true a e)) as (H1 & H2 & H3 & H4 & H5);
      [lia | lia | lia | lia |].
    cbv zeta. rewrite H1, H2, H3, H4, H5, E1, E2, E3, E4, E5.
    unfold ulong_of.
    rewrite Z.add_mod_idemp_l by (cbv; discriminate).
    rewrite Z.add_assoc.
    repeat split; lia.
Qed.

Lemma agg_fold_btotal_reduced (S : list FTSENT) :
  forall a,
    btotal a = ulong_of (btotal a) ->
    btotal (fold_left (agg_step env g true) S a)
    = ulong_of (btotal (fold_left (agg_step env g true) S a)).
Proof.
  induction S as [|e S IH]; intros a Ha; cbn [fold_left]; [exact Ha|].
  apply IH. destruct (agg_step_stat a e) as (_ & _ & _ & _ & E).
  rewrite E. unfold ulong_of. now rewrite Z.mod_mod by (cbv; discriminate).
Qed.

Lemma agg_step_long (a : locals) (e : FTSENT) :
  flags g f_longform = true ->
  let a' := agg_step env g true a e in
  maxuser a' = Z.max (maxuser a) (ulen_of env g (fts_statp e)) /\
  maxgroup a' = Z.max (maxgroup a) (glen_of env g (fts_statp e)).
Proof.
  intro L. unfold agg_step. rewrite L.
  cbn [maxuser maxgroup agg_count agg_bcfile agg_long agg_stat agg_name].
  rewrite !gtb_max. split; reflexivity.
Qed.

Lemma agg_fold_long (S : list FTSENT) :
  flags g f_longform = true ->
  forall a,
    0 <= maxuser a -> 0 <= maxgroup a ->
    let a' := fold_left (agg_step env g true) S a in
    maxuser a' =
      Z.max (maxuser a) (zmax_of (fun e => ulen_of env g (fts_statp e)) S)
    /\
    maxgroup a' =
      Z.max (maxgroup a) (zmax_of (fun e => glen_of env g (fts_statp e)) S).
Proof.
  intro L. unfold zmax_of.
  induction S as [|e S IH]; intros a U G; cbn [fold_left map fold_right].
  - split; lia.
  - destruct (agg_step_long a e L) as (E1 & E2).
    destruct (IH (agg_step env g true a e)) as (H1 & H2); [lia | lia |].
    cbv zeta. rewrite H1, H2, E1, E2. split; lia.
Qed.

End Aggregates.

Lemma zmax_of_ext (f h : FTSENT -> Z) (S : list FTSENT) :
  (forall e, In e S -> f e = h e) -> zmax_of f S = zmax_of h S.
Proof.
  intro H. unfold zmax_of. f_equal. apply map_ext_in. exact H.
Qed.

Lemma zmax_of_is_max (f : FTSENT -> Z) (S : list FTSENT) :
  S <> [] -> (forall e, In e S -> 0 <= f e) ->
  is_max_over f S (zmax_of f S).
Proof.
  unfold is_max_over, zmax_of.
  induction S as [|x S IH]; intros Hne Hpos; [congruence|].
  cbn [map fold_right].
  destruct S as [|y S].
  - cbn [map fold_right]. assert (0 <= f x) by (apply Hpos; now left).
    split.
    + intros e [<-|[]]. lia.
    + exists x. split; [now left | lia].
  - destruct IH as [Hb [m [Hm Em]]]; [discriminate | |].
    { intros e He. apply Hpos. now right. }
    split.
    + intros e [<-|He]; [lia|]. specialize (Hb e He). lia.
    + destruct (Z.max_spec (f x) (fold_right Z.max 0 (map f (y :: S))))
        as [[_ E]|[_ E]]; rewrite E.
      * exists m. split; [now right | exact Em].
      * exists x. split; [now left | reflexivity].
Qed.

Lemma display_by_loop (env : sysenv) (p : option FTSENT) (l : list FTSENT)
    (w : world) :
  display env p l w =
  match display_loop env p (needstats_of (w_g w)) l locals0 w with
  | LoopReturn l' w' => (l', w')
  | LoopEnd l' a w' =>
      if entries a =? 0 then (l', w')
      else
        let d := make_DISPLAY (needstats_of (w_g w)) l' a in
        let w1 := put_out (OutRender (printfcn (w_g w')) d) w' in
        let w2 := with_g (set_output true (w_g w1)) w1 in
        if flags (w_g w2) f_longform
        then (l', with_heap (free_all l' (w_heap w2)) w2)
        else (l', w2)
  end.
Proof. destruct l; reflexivity. Qed.

Lemma app_one_neq {A : Type} (l : list A) (x : A) : l <> l ++ [x].
Proof.
  intro H. apply (f_equal (@List.length A)) in H.
  rewrite length_app in H. cbn in H. lia.
Qed.

(** When the loop ends with at least one surviving entry, [display] calls
    the print function once, with the descriptor of lines 583-597. *)
Lemma display_renders (env : sysenv) (p : option FTSENT) (l : list FTSENT)
    (w : world) (l' : list FTSENT) (a : locals) (w' : world) :
  display_loop env p (needstats_of (w_g w)) l locals0 w = LoopEnd l' a w' ->
  entries a <> 0 ->
  w_stdout (snd (display env p l w)) =
  w_stdout w ++ [OutRender (printfcn (w_g w))
                   (make_DISPLAY (needstats_of (w_g w)) l' a)].
Proof.
  intros R E. rewrite display_by_loop, R.
  apply Z.eqb_neq in E. rewrite E.
  pose proof (display_loop_frame env p (needstats_of (w_g w)) l locals0 w)
    as F.
  rewrite R in F. cbn [loop_world] in F.
  cbv zeta.
  rewrite <- (frame_status_stdout _ _ F), <- (frame_status_printfcn _ _ F).
  destruct (flags _ f_longform); reflexivity.
Qed.

(** And that is the only way for it to call the print function. *)
Lemma display_rendered (env : sysenv) (p : option FTSENT) (l : list FTSENT)
    (w : world) (f : option printfn) (d : DISPLAY) :
  w_stdout (snd (display env p l w)) = w_stdout w ++ [OutRender f d] ->
  exists l' a w',
    display_loop env p (needstats_of (w_g w)) l locals0 w = LoopEnd l' a w'
    /\ entries a <> 0
    /\ d = make_DISPLAY (needstats_of (w_g w)) l' a
    /\ f = printfcn (w_g w).
Proof.
  intro H.
  pose proof (display_loop_frame env p (needstats_of (w_g w)) l locals0 w)
    as F.
  destruct (display_loop env p (needstats_of (w_g w)) l locals0 w)
    as [l' w'|l' a w'] eqn:R; cbn [loop_world] in F.
  - rewrite display_by_loop, R in H. cbn [snd] in H.
    rewrite (frame_status_stdout _ _ F) in H.
    now apply app_one_neq in H.
  - destruct (Z.eq_dec (entries a) 0) as [E|E].
    + rewrite display_by_loop, R, E in H. cbn in H.
      rewrite (frame_status_stdout _ _ F) in H.
      now apply app_one_neq in H.
    + rewrite (display_renders env p l w l' a w' R E) in H.
      apply app_inv_head in H. injection H as Hf Hd.
      exists l', a, w'. auto.
Qed.

Section LoopLocals.

Variable env : sysenv.
Variable p : option FTSENT.
Variable ns : bool.

(** The local variables depend on the world only through the flags and
    the allocator. *)
Lemma loop_locals_ext (l : list FTSENT) :
  forall a w1 w2,
    flags (w_g w1) = flags (w_g w2) -> w_heap w1 = w_heap w2 ->
    loop_locals (display_loop env p ns l a w1)
    = loop_locals (display_loop env p ns l a w2).
Proof.
  induction l as [|e l IH]; intros a w1 w2 Hf Hh; cbn [display_loop].
  - reflexivity.
  - rewrite Hf, Hh.
    rewrite (user_of_flags env _ _ (fts_statp e) Hf),
      (group_of_flags env _ _ (fts_statp e) Hf),
      (flags_of_flags _ _ Hf).
    destruct (is_err_or_ns e).
    { rewrite !loop_locals_push. apply IH; assumption. }
    destruct (match p with
              | None => _
              | Some _ => _
              end).
    { rewrite !loop_locals_push. apply IH; assumption. }
    destruct ns; [|rewrite !loop_locals_push; apply IH; assumption].
    destruct (flags (w_g w2) f_longform);
      [|rewrite !loop_locals_push; apply IH; assumption].
    rewrite (agg_long_flags env _ _ (fts_statp e) _ Hf).
    destruct (malloc _ _) as [[np|] h].
    + rewrite !loop_locals_push. apply IH; [assumption|reflexivity].
    + reflexivity.
Qed.

(** A suppressed entry leaves the local variables as they would be
    without it. *)
Lemma loop_locals_skip (l1 : list FTSENT) :
  forall a w e l2,
    suppressed (w_g w) p e = true ->
    loop_locals (display_loop env p ns (l1 ++ e :: l2) a w)
    = loop_locals (display_loop env p ns (l1 ++ l2) a w).
Proof.
  induction l1 as [|x l1 IH]; intros a w e l2 H;
    cbn [app display_loop].
  - unfold suppressed in H.
    destruct (is_err_or_ns e).
    + rewrite loop_locals_push. apply loop_locals_ext; reflexivity.
    + cbn [orb] in H. rewrite H. now rewrite loop_locals_push.
  - destruct (is_err_or_ns x).
    { rewrite !loop_locals_push. apply IH. exact H. }
    destruct (match p with
              | None => _
              | Some _ => _
              end).
    { rewrite !loop_locals_push. apply IH. exact H. }
    destruct ns; [|rewrite !loop_locals_push; apply IH; exact H].
    destruct (flags (w_g w) f_longform);
      [|rewrite !loop_locals_push; apply IH; exact H].
    destruct (malloc _ _) as [[np|] h].
    + rewrite !loop_locals_push. apply IH. exact H.
    + reflexivity.
Qed.

End LoopLocals.

(** C6.  Whenever [display] calls the print function, the descriptor it
    passes counts the surviving entries; its name width is the maximum of
    the name lengths over exactly the survivors; when stat information is
    in use, its block, inode, link and size widths are the printed widths
    of the maxima over the survivors and its block total is their sum (in
    [unsigned long] arithmetic); in long format its user and group widths
    are the maxima over the survivors.  Taking a suppressed entry out of
    the list leaves all of these as they are. *)
Theorem display_aggregates_over_survivors
    (env : sysenv) (p : option FTSENT) (l : list FTSENT) (w : world)
    (f : option printfn) (d : DISPLAY) :
  Forall (wf_entry env (w_g w)) (survivors (w_g w) p l) ->
  w_stdout (snd (display env p l w)) = w_stdout w ++ [OutRender f d] ->
  d_entries d = Z.of_nat (List.length (survivors (w_g w) p l)) /\
  is_max_over fts_namelen (survivors (w_g w) p l) (d_maxlen d) /\
  (needstats_of (w_g w) = true ->
   exists st mb mi mn ms,
     d_stats d = Some st /\
     is_max_over blocks_of (survivors (w_g w) p l) mb /\
     s_block st = strlen (umaxtostr mb) /\
     is_max_over inode_of (survivors (w_g w) p l) mi /\
     s_inode st = strlen (umaxtostr mi) /\
     is_max_over nlink_of (survivors (w_g w) p l) mn /\
     s_nlink st = strlen (umaxtostr mn) /\
     is_max_over size_of (survivors (w_g w) p l) ms /\
     s_size st = strlen (umaxtostr ms) /\
     d_btotal st = ulong_of (zsum_of blocks_of (survivors (w_g w) p l)) /\
     (flags (w_g w) f_longform = true ->
      is_max_over (user_width env (w_g w)) (survivors (w_g w) p l)
        (s_user st) /\
      is_max_over (group_width env (w_g w)) (survivors (w_g w) p l)
        (s_group st))) /\
  (forall l1 e l2,
     l = l1 ++ e :: l2 -> suppressed (w_g w) p e = true ->
     exists d',
       w_stdout (snd (display env p (l1 ++ l2) w))
       = w_stdout w ++ [OutRender f d'] /\
       d_entries d' = d_entries d /\ d_maxlen d' = d_maxlen d /\
       d_stats d' = d_stats d).
Proof.
  intros Hwf Hout.
  destruct (display_rendered env p l w f d Hout)
    as (l' & a & w' & R & E & -> & ->).
  set (g := w_g w) in *. set (S := survivors g p l) in *.
  assert (Ha : a = fold_left (agg_step env g (needstats_of g)) S locals0).
  { apply (display_loop_locals env p (needstats_of g) l g locals0 w);
      [reflexivity | now rewrite R]. }
  assert (Hn : entries a = Z.of_nat (List.length S)).
  { rewrite Ha, agg_fold_entries. reflexivity. }
  assert (HS : S <> []).
  { intro HS. rewrite HS in Hn. cbn in Hn. congruence. }
  assert (W : forall e, In e S -> wf_entry env g e).
  { apply Forall_forall. exact Hwf. }
  split; [exact Hn|]. split; [|split].
  - cbn [d_maxlen make_DISPLAY].
    rewrite Ha, agg_fold_maxlen by (cbn; lia).
    rewrite Z.max_r.
    + apply zmax_of_is_max; [exact HS|]. intros e He. apply (W e He).
    + cbn [maxlen locals0].
      destruct (zmax_of_is_max fts_namelen S HS) as [_ [e [He <-]]].
      * intros e He. apply (W e He).
      * apply (W e He).
  - intro N. rewrite N in *. cbn [d_stats make_DISPLAY].
    destruct (agg_fold_stat env g S locals0) as (B & I & K & Z0 & T);
      try (cbn; lia).
    rewrite <- Ha in B, I, K, Z0, T.
    assert (Tr : btotal a = ulong_of (btotal a)).
    { rewrite Ha. apply agg_fold_btotal_reduced. reflexivity. }
    assert (max0 : forall h, (forall e, In e S -> 0 <= h e) ->
                             is_max_over h S (Z.max 0 (zmax_of h S))).
    { intros h Hh. rewrite Z.max_r; [now apply zmax_of_is_max|].
      destruct (zmax_of_is_max h S HS Hh) as [_ [e [He <-]]]. now apply Hh. }
    eexists _, (maxblock a), (maxinode a), (maxnlink a), (maxsize a).
    split; [reflexivity|].
    cbn [s_block s_inode s_nlink s_size d_btotal s_user s_group].
    rewrite B, I, K, Z0. cbn [maxblock maxinode maxnlink maxsize locals0].
    split; [apply max0; intros e He; apply (W e He)|].
    split; [reflexivity|].
    split; [apply max0; intros e He; apply (W e He)|].
    split; [reflexivity|].
    split; [apply max0; intros e He; apply (W e He)|].
    split; [reflexivity|].
    split; [apply max0; intros e He; apply (W e He)|].
    split; [reflexivity|].
    split.
    { rewrite Tr, T. reflexivity. }
    intro L.
    destruct (agg_fold_long env g S L locals0) as (U & G);
      try (cbn; lia).
    rewrite <- Ha in U, G. rewrite U, G. cbn [maxuser maxgroup locals0].
    rewrite (zmax_of_ext (fun e => ulen_of env g (fts_statp e))
               (user_width env g) S),
      (zmax_of_ext (fun e => glen_of env g (fts_statp e))
         (group_width env g) S).
    + split; apply max0; intros e _; apply strlen_nonneg.
    + intros e He. unfold ulen_of, user_width. apply int_of_small.
      split; [apply strlen_nonneg | apply (W e He)].
    + intros e He. unfold glen_of, group_width. apply int_of_small.
      split; [apply strlen_nonneg | apply (W e He)].
  - intros l1 e l2 -> He.
    pose proof (loop_locals_skip env p (needstats_of g) l1 locals0 w e l2 He)
      as Hskip.
    fold g in R. rewrite R in Hskip. cbn [loop_locals] in Hskip.
    destruct (display_loop env p (needstats_of g) (l1 ++ l2) locals0 w)
      as [l2' w2'|l2' a2 w2'] eqn:R2; [discriminate Hskip|].
    cbn [loop_locals] in Hskip. injection Hskip as <-.
    exists (make_DISPLAY (needstats_of g) l2' a).
    split; [|repeat split].
    apply (display_renders env p (l1 ++ l2) w l2' a w2' R2 E).
Qed.

Lemma display_aggregates_witness :
  survivors g_long (Some root_dir) sample_children
    = [nth 0 sample_children root_err; nth 3 sample_children root_err] /\
  d_entries sample_descriptor = 2 /\
  is_max_over fts_namelen (survivors g_long (Some root_dir) sample_children)
    3.
Proof.
  assert (Hwf : Forall (wf_entry env_plain (w_g (world_of g_long)))
                  (survivors (w_g (world_of g_long)) (Some root_dir)
                     sample_children)).
  { repeat constructor; vm_compute; congruence. }
  assert (Hout : w_stdout (snd (display env_plain (Some root_dir)
                                  sample_children (world_of g_long)))
                 = w_stdout (world_of g_long)
                   ++ [OutRender (Some Printlong) sample_descriptor])
    by (vm_compute; reflexivity).
  destruct (display_aggregates_over_survivors env_plain (Some root_dir)
              sample_children (world_of g_long) (Some Printlong)
              sample_descriptor Hwf Hout) as (Hn & Hm & _).
  split; [vm_compute; reflexivity|]. split; [exact Hn | exact Hm].
Defined.

(** ** A list without surviving entries *)

Section NoSurvivors.

Variable env : sysenv.
Variable p : option FTSENT.
Variable ns : bool.

Lemma display_loop_no_survivors (l : list FTSENT) :
  forall g0 a w,
    flags (w_g w) = flags g0 ->
    survivors g0 p l = [] ->
    display_loop env p ns l a w
    = LoopEnd (map (fun e => set_fts_number e NO_PRINT) l) a
        (report_errors l w).
Proof.
  induction l as [|e l IH]; intros g0 a w Hf HS;
    cbn [display_loop map report_errors fold_left]; [reflexivity|].
  rewrite Hf.
  unfold survivors in HS. cbn [filter] in HS.
  destruct (suppressed g0 p e) eqn:Sup; [|discriminate HS].
  cbn [negb] in HS. fold (survivors g0 p l) in HS.
  unfold suppressed in Sup.
  destruct (is_err_or_ns e).
  - erewrite IH; [reflexivity | exact Hf | exact HS].
  - cbn [orb] in Sup. rewrite Sup.
    erewrite IH; [reflexivity | exact Hf | exact HS].
Qed.

End NoSurvivors.

Lemma report_errors_frame (l : list FTSENT) :
  forall w, frame_status w (report_errors l w).
Proof.
  induction l as [|e l IH]; intro w; cbn [report_errors fold_left].
  - apply frame_status_refl.
  - destruct (is_err_or_ns e); [|apply IH].
    eapply frame_status_trans; [|apply IH].
    eapply frame_status_trans;
      [apply frame_status_put_err | apply frame_status_fail_with].
Qed.

Lemma report_errors_heap (l : list FTSENT) :
  forall w, w_heap (report_errors l w) = w_heap w.
Proof.
  induction l as [|e l IH]; intro w; cbn [report_errors fold_left];
    [reflexivity|].
  destruct (is_err_or_ns e); [|apply IH].
  etransitivity; [apply IH | reflexivity].
Qed.

Lemma report_errors_stderr (l : list FTSENT) :
  forall w, w_stderr (report_errors l w) = w_stderr w ++ node_errors l.
Proof.
  unfold node_errors.
  induction l as [|e l IH]; intro w;
    cbn [report_errors fold_left filter map].
  - now rewrite app_nil_r.
  - destruct (is_err_or_ns e); [|apply IH].
    etransitivity; [apply IH|]. cbn [map w_stderr fail_with with_g put_err].
    now rewrite <- app_assoc.
Qed.

Lemma report_errors_rval (l : list FTSENT) :
  forall w,
    rval (w_g (report_errors l w))
    = if existsb is_err_or_ns l then 1 else rval (w_g w).
Proof.
  induction l as [|e l IH]; intro w;
    cbn [report_errors fold_left existsb]; [reflexivity|].
  destruct (is_err_or_ns e); cbn [orb]; [|apply IH].
  etransitivity; [apply IH|]. destruct (existsb is_err_or_ns l); reflexivity.
Qed.

Lemma report_errors_none (l : list FTSENT) :
  forall w, existsb is_err_or_ns l = false -> report_errors l w = w.
Proof.
  induction l as [|e l IH]; intros w H;
    cbn [report_errors fold_left existsb] in *; [reflexivity|].
  destruct (is_err_or_ns e); [discriminate H | now apply IH].
Qed.

(** C9, as the specification states it, fails: a list whose only entry is an error entry has
    no surviving entry, and [display] writes an error line and sets the
    failure status. *)
Lemma display_no_survivors_has_effects :
  survivors g_plain None [root_err] = [] /\
  ~ no_effect (world_of g_plain)
      (snd (display env_plain None [root_err] (world_of g_plain))).
Proof.
  split; [reflexivity|].
  intros (_ & _ & _ & H). discriminate H.
Qed.

(** C9, amended.  When no entry of the list survives, [display] returns
    without calling the print function: the standard output, the "anything
    printed" flag, the configuration and the allocator are unchanged and
    every entry is marked do-not-print.  The error channel receives one
    line per error or not-stat-able entry, and the failure status becomes
    1 if there is such an entry; with none of them the world is unchanged. *)
Theorem display_without_survivors
    (env : sysenv) (p : option FTSENT) (l : list FTSENT) (w : world) :
  survivors (w_g w) p l = [] ->
  fst (display env p l w) = map (fun e => set_fts_number e NO_PRINT) l /\
  w_stdout (snd (display env p l w)) = w_stdout w /\
  output (w_g (snd (display env p l w))) = output (w_g w) /\
  frame_status w (snd (display env p l w)) /\
  w_heap (snd (display env p l w)) = w_heap w /\
  w_stderr (snd (display env p l w)) = w_stderr w ++ node_errors l /\
  rval (w_g (snd (display env p l w)))
    = (if existsb is_err_or_ns l then 1 else rval (w_g w)) /\
  (existsb is_err_or_ns l = false -> snd (display env p l w) = w).
Proof.
  intro HS.
  rewrite display_by_loop.
  rewrite (display_loop_no_survivors env p _ l (w_g w) locals0 w eq_refl HS).
  cbn [entries locals0 Z.eqb fst snd].
  pose proof (report_errors_frame l w) as F.
  split; [reflexivity|].
  split; [apply (frame_status_stdout _ _ F)|].
  split; [apply (frame_status_output _ _ F)|].
  split; [exact F|].
  split; [apply report_errors_heap|].
  split; [apply report_errors_stderr|].
  split; [apply report_errors_rval|].
  apply report_errors_none.
Qed.

Lemma display_without_survivors_witness :
  survivors (w_g (world_of g_plain)) None [root_dir; root_err] = [] /\
  w_stdout (snd (display env_plain None [root_dir; root_err]
                   (world_of g_plain))) = [] /\
  w_stderr (snd (display env_plain None [root_dir; root_err]
                   (world_of g_plain))) = [ErrNode "e" 0].
Proof.
  assert (H : survivors (w_g (world_of g_plain)) None [root_dir; root_err]
              = []) by reflexivity.
  destruct (display_without_survivors env_plain None [root_dir; root_err]
              (world_of g_plain) H) as (_ & Ho & _ & _ & _ & He & _).
  split; [exact H|]. split; [exact Ho | exact He].
Defined.

(** ** The annotations of the long format *)

(** C5.  The specification has every annotation allocated during a call
    of [display] released before the call returns, also when building an
    annotation fails.
    The code returns at line 558 without releasing anything: with two
    files and a second [malloc] that fails, the allocator is empty before
    the call and still holds the first file's annotation after it, the
    print function has not been called and the entry keeps the pointer. *)
Theorem display_leaks_when_malloc_fails :
  h_live (w_heap world_oom) = [] /\
  h_live (w_heap (snd (display env_plain (Some root_dir) two_files
                         world_oom)))
    = [(0%nat, mknames "1000" "1000" None)] /\
  map fts_pointer (fst (display env_plain (Some root_dir) two_files
                          world_oom))
    = [Some 0%nat; None] /\
  w_stdout (snd (display env_plain (Some root_dir) two_files world_oom))
    = [] /\
  w_stderr (snd (display env_plain (Some root_dir) two_files world_oom))
    = [ErrMalloc].
Proof. repeat split; vm_compute; reflexivity. Qed.

(** With an allocator that does not fail, the same call releases both
    annotations after the print function has run. *)
Lemma display_releases_after_render :
  h_live (w_heap (snd (display env_plain (Some root_dir) two_files
                         (world_of g_long)))) = [] /\
  List.length (rendered (snd (display env_plain (Some root_dir) two_files
                                (world_of g_long)))) = 1%nat.
Proof. split; vm_compute; reflexivity. Qed.

Lemma malloc_some (v : NAMES) (h h1 : heap) (np : nat) :
  malloc v h = (Some np, h1) ->
  np = h_next h /\ h_live h1 = (np, v) :: h_live h
  /\ h_next h1 = Datatypes.S (h_next h).
Proof.
  unfold malloc. destruct (h_oom h) as [|[] rest]; intro H;
    try discriminate H; injection H as <- <-; repeat split.
Qed.

Lemma free_all_live (l : list FTSENT) :
  forall h,
    h_live (free_all l h)
    = filter (fun x => negb (existsb (Nat.eqb (fst x)) (pointers l)))
        (h_live h).
Proof.
  unfold free_all, pointers.
  induction l as [|e l IH]; intro h; cbn [fold_left flat_map].
  - cbn [existsb negb]. induction (h_live h) as [|x xs IHx];
      [reflexivity|]. cbn [filter]. now rewrite <- IHx.
  - rewrite IH. destruct (fts_pointer e) as [a|]; cbn [free app].
    + cbn [h_live existsb]. induction (h_live h) as [|x xs IHx];
        [reflexivity|]. cbn [filter].
      destruct (Nat.eqb (fst x) a); cbn [negb orb filter];
        [exact IHx|]. now rewrite IHx.
    + reflexivity.
Qed.

Section Annotations.

Variable env : sysenv.
Variable p : option FTSENT.
Variable ns : bool.

(** When the loop reaches the end of the list, the blocks it has
    allocated are those its entries point to, all of them fresh. *)
Lemma display_loop_heap (l : list FTSENT) :
  forall a w l' a' w',
    Forall (fun e => fts_pointer e = None) l ->
    display_loop env p ns l a w = LoopEnd l' a' w' ->
    exists new,
      h_live (w_heap w') = new ++ h_live (w_heap w) /\
      (forall x, In x new -> In (fst x) (pointers l')) /\
      (forall q, In q (pointers l') -> (h_next (w_heap w) <= q)%nat).
Proof.
  induction l as [|e l IH]; intros a w l' a' w' Hn R;
    cbn [display_loop] in R.
  - injection R as <- _ <-. exists []. repeat split; intros ? [].
  - inversion Hn as [|? ? He Hl]; subst.
    assert (Keep : forall e' r,
               fts_pointer e' = None ->
               push e' r = LoopEnd l' a' w' ->
               exists l'', r = LoopEnd l'' a' w'
                           /\ pointers l' = pointers l'').
    { intros e' [lr wr|lr ar wr] Hp H; [discriminate H|].
      injection H as <- <- <-. exists lr. split; [reflexivity|].
      unfold pointers. cbn [flat_map]. now rewrite Hp. }
    destruct (is_err_or_ns e).
    { destruct (Keep (set_fts_number e NO_PRINT) _ He R) as (l'' & R' & ->).
      apply (IH _ _ _ _ _ Hl R'). }
    destruct (match p with
              | None => _
              | Some _ => _
              end).
    { destruct (Keep (set_fts_number e NO_PRINT) _ He R) as (l'' & R' & ->).
      apply (IH _ _ _ _ _ Hl R'). }
    destruct ns;
      [|destruct (Keep e _ He R) as (l'' & R' & ->);
        apply (IH _ _ _ _ _ Hl R')].
    destruct (flags (w_g w) f_longform);
      [|destruct (Keep e _ He R) as (l'' & R' & ->);
        apply (IH _ _ _ _ _ Hl R')].
    destruct (malloc _ _) as [[np|] h1] eqn:M; [|discriminate R].
    destruct (malloc_some _ _ _ _ M) as (Enp & Elive & Enext).
    destruct (display_loop env p true l _ (with_heap h1 w))
      as [lr wr|lr ar wr] eqn:R'; [discriminate R|].
    injection R as <- <- <-.
    destruct (IH _ _ _ _ _ Hl R') as (new & E & Hin & Hge).
    cbn [w_heap with_heap] in E, Hge. rewrite Elive in E.
    rewrite Enext in Hge.
    exists (new ++ [(np, mknames (user_of env (w_g w) (fts_statp e))
                           (group_of env (w_g w) (fts_statp e))
                           (flags_of (w_g w)))]).
    assert (P : pointers (set_fts_pointer e (Some np) :: lr)
                = np :: pointers lr) by reflexivity.
    rewrite P. split; [|split].
    + rewrite E, <- app_assoc. reflexivity.
    + intros x Hx. apply in_app_or in Hx. destruct Hx as [Hx|[<-|[]]].
      * right. now apply Hin.
      * now left.
    + intros q [<-|Hq]; [lia|]. specialize (Hge q Hq). lia.
Qed.

End Annotations.

(** In long format, a call of [display] in which no allocation fails
    leaves the allocator with the blocks it had at entry: what the loop
    allocates is released after the print function has run. *)
Lemma display_releases_annotations
    (env : sysenv) (p : option FTSENT) (l : list FTSENT) (w : world) :
  flags (w_g w) f_longform = true ->
  Forall (fun e => fts_pointer e = None) l ->
  heap_ok (w_heap w) ->
  loop_locals (display_loop env p (needstats_of (w_g w)) l locals0 w)
    <> None ->
  h_live (w_heap (snd (display env p l w))) = h_live (w_heap w).
Proof.
  intros L Hn Hok Hend. rewrite display_by_loop.
  pose proof (display_loop_frame env p (needstats_of (w_g w)) l locals0 w)
    as F.
  destruct (display_loop env p (needstats_of (w_g w)) l locals0 w)
    as [l' w'|l' a w'] eqn:R; [now elim Hend|].
  cbn [loop_world] in F.
  destruct (display_loop_heap env p _ l _ _ _ _ _ Hn R)
    as (new & E & Hin & Hge).
  destruct (Z.eqb_spec (entries a) 0) as [Z0|Z0].
  - assert (S0 : survivors (w_g w) p l = []).
    { assert (Ha := display_loop_locals env p (needstats_of (w_g w)) l
                      (w_g w) locals0 w a eq_refl).
      rewrite R in Ha. specialize (Ha eq_refl).
      rewrite Ha, agg_fold_entries in Z0. cbn [entries locals0] in Z0.
      destruct (survivors (w_g w) p l); [reflexivity|].
      cbn [List.length] in Z0. lia. }
    rewrite (display_loop_no_survivors env p _ l (w_g w) locals0 w
               eq_refl S0) in R.
    injection R as _ _ <-. cbn [snd]. now rewrite report_errors_heap.
  - cbv zeta. cbn [w_g put_out with_g set_output flags].
    rewrite (frame_status_flags _ _ F), L. cbn [snd w_heap with_heap].
    rewrite free_all_live. cbn [w_heap put_out with_g]. rewrite E.
    rewrite filter_app.
    assert (N : filter (fun x => negb (existsb (Nat.eqb (fst x))
                                         (pointers l'))) new = []).
    { clear E. induction new as [|x xs IHx]; [reflexivity|].
      cbn [filter].
      assert (X : existsb (Nat.eqb (fst x)) (pointers l') = true).
      { apply existsb_exists. exists (fst x). split.
        - apply Hin. now left.
        - apply Nat.eqb_refl. }
      rewrite X. cbn [negb]. apply IHx. intros y Hy. apply Hin. now right. }
    rewrite N. cbn [app].
    assert (O : forall old : list (nat * NAMES),
               (forall x, In x old -> (fst x < h_next (w_heap w))%nat) ->
               filter (fun x => negb (existsb (Nat.eqb (fst x))
                                        (pointers l'))) old = old).
    { induction old as [|x xs IHx]; intro Hlt; [reflexivity|].
      cbn [filter].
      assert (X : existsb (Nat.eqb (fst x)) (pointers l') = false).
      { apply not_true_is_false. intro X.
        apply existsb_exists in X. destruct X as (q & Hq & Eq).
        apply Nat.eqb_eq in Eq. specialize (Hge q Hq).
        specialize (Hlt x (or_introl eq_refl)). lia. }
      rewrite X. cbn [negb]. f_equal. apply IHx.
      intros y Hy. apply Hlt. now right. }
    apply O. exact Hok.
Qed.

(** ** The failure status and the error channel *)

Lemma status_tracks_same (w w' : world) :
  w_stderr w' = w_stderr w -> rval (w_g w') = rval (w_g w) ->
  status_tracks w w'.
Proof.
  intros He Hr. exists []. rewrite app_nil_r. split; assumption.
Qed.

Lemma status_tracks_refl (w : world) : status_tracks w w.
Proof. now apply status_tracks_same. Qed.

Lemma status_tracks_trans (w1 w2 w3 : world) :
  status_tracks w1 w2 -> status_tracks w2 w3 -> status_tracks w1 w3.
Proof.
  intros (n1 & E1 & R1) (n2 & E2 & R2). exists (n1 ++ n2). split.
  - rewrite E2, E1. now rewrite app_assoc.
  - rewrite R2, R1, existsb_app.
    destruct (existsb failure_line n1), (existsb failure_line n2);
      reflexivity.
Qed.

Lemma status_tracks_fail (x : err_line) (w : world) :
  failure_line x = true -> status_tracks w (fail_with 1 (put_err x w)).
Proof.
  intro H. exists [x]. split; [reflexivity|].
  cbn [existsb]. rewrite H. reflexivity.
Qed.

Lemma status_tracks_cycle (name : string) (w : world) :
  status_tracks w (put_err (ErrCycle name) w).
Proof. exists [ErrCycle name]. split; reflexivity. Qed.

Lemma display_loop_status (env : sysenv) (p : option FTSENT) (ns : bool)
    (l : list FTSENT) :
  forall a w, status_tracks w (loop_world (display_loop env p ns l a w)).
Proof.
  induction l as [|e l IH]; intros a w; cbn [display_loop].
  - apply status_tracks_refl.
  - destruct (is_err_or_ns e).
    { rewrite loop_world_push.
      eapply status_tracks_trans; [|apply IH].
      now apply status_tracks_fail. }
    destruct (match p with
              | None => _
              | Some _ => _
              end).
    { rewrite loop_world_push. apply IH. }
    destruct ns; [|rewrite loop_world_push; apply IH].
    destruct (flags (w_g w) f_longform);
      [|rewrite loop_world_push; apply IH].
    destruct (malloc _ _) as [[np|] h].
    + rewrite loop_world_push.
      eapply status_tracks_trans; [|apply IH].
      now apply status_tracks_same.
    + cbn [loop_world].
      apply (status_tracks_trans _ (with_heap h w)).
      * now apply status_tracks_same.
      * now apply status_tracks_fail.
Qed.

Lemma display_status (env : sysenv) (p : option FTSENT) (l : list FTSENT)
    (w : world) :
  status_tracks w (snd (display env p l w)).
Proof.
  rewrite display_by_loop.
  pose proof (display_loop_status env p (needstats_of (w_g w)) l locals0 w)
    as H.
  destruct (display_loop env p (needstats_of (w_g w)) l locals0 w)
    as [l' w'|l' a w']; cbn [loop_world] in H; [exact H|].
  destruct (entries a =? 0); [exact H|].
  eapply status_tracks_trans; [exact H|].
  cbv zeta. destruct (flags _ f_longform); now apply status_tracks_same.
Qed.

Lemma traverse_event_status (env : sysenv) (argc : Z) (ch_options : bool)
    (ev : fts_event) (w : world) :
  status_tracks w (traverse_event env argc ch_options ev w).
Proof.
  unfold traverse_event.
  destruct (fts_info (ev_ent ev));
    try apply status_tracks_refl;
    try apply status_tracks_cycle;
    try (now apply status_tracks_fail).
  destruct (first_is_dot _ && _ && _); [apply status_tracks_refl|].
  cbv zeta.
  match goal with
  | |- context [display env ?q ?c ?w1] =>
      pose proof (display_status env q c w1) as D;
      assert (S1 : status_tracks w w1)
  end.
  { destruct (output (w_g w)); [now apply status_tracks_same|].
    destruct (argc >? 1);
      [now apply status_tracks_same | apply status_tracks_refl]. }
  destruct (negb _ && _).
  - eapply status_tracks_trans; [exact S1|].
    eapply status_tracks_trans; [exact D|]. now apply status_tracks_same.
  - eapply status_tracks_trans; [exact S1 | exact D].
Qed.

Lemma traverse_loop_status (env : sysenv) (argc : Z) (ch_options : bool)
    (evs : list fts_event) :
  forall w, status_tracks w (traverse_loop env argc ch_options evs w).
Proof.
  unfold traverse_loop.
  induction evs as [|ev evs IH]; intro w; cbn [fold_left].
  - apply status_tracks_refl.
  - eapply status_tracks_trans; [apply traverse_event_status | apply IH].
Qed.

Lemma traverse_status (env : sysenv) (argc : Z) (argv : list string)
    (options : fts_options) (w : world) :
  status_tracks w (traverse env argc argv options w).
Proof.
  unfold traverse.
  destruct (fts_open env argv options (fts_compar (w_g w))) as [ftsp|];
    [|now apply status_tracks_fail].
  unfold traverse_walk.
  pose proof (display_status env None (fts_root ftsp) w) as D.
  destruct (flags _ f_listdir); [exact D|].
  eapply status_tracks_trans; [exact D|].
  cbv zeta.
  match goal with
  | |- context [traverse_loop env argc ?c ?evs ?w1] =>
      pose proof (traverse_loop_status env argc c evs w1) as L
  end.
  destruct (negb (fts_end_errno ftsp =? 0)); [|exact L].
  eapply status_tracks_trans; [exact L|]. now apply status_tracks_fail.
Qed.

(** ** The configuration built by [ls_main] *)

Lemma set_flag_list_rval (fs : list flag) (v : bool) :
  forall g, rval (set_flag_list fs v g) = rval g.
Proof.
  unfold set_flag_list.
  induction fs as [|f fs IH]; intro g; cbn [fold_left]; [reflexivity|].
  now rewrite IH.
Qed.

Lemma set_flag_list_keeps (fs : list flag) (x : flag) :
  forall g, flags g x = true -> flags (set_flag_list fs true g) x = true.
Proof.
  unfold set_flag_list.
  induction fs as [|f fs IH]; intros g H; cbn [fold_left]; [exact H|].
  apply IH. cbn. rewrite H. now destruct (flag_eqb x f).
Qed.

Lemma ls_reset_rval (env : sysenv) (g : globals) :
  rval (ls_reset env g) = rval g.
Proof.
  unfold ls_reset.
  destruct (isatty env), (getenv_COLUMNS env), (ioctl_ws_col env) as [c|],
    (getuid env =? 0); try destruct (c >? 0); reflexivity.
Qed.

(** No option touches the failure status, and no option other than the
    resetting at entry clears the no-sort flag. *)
Lemma ls_option_keeps (ch : ascii) (g g' : globals) (o o' : fts_options) :
  ls_option ch (g, o) = Some (g', o') ->
  rval g' = rval g /\
  (flags g f_nosort = true -> flags g' f_nosort = true).
Proof.
  destruct ch as [[] [] [] [] [] [] [] []]; cbn [ls_option];
    intro H; try discriminate H;
    injection H as <- _; (split; [reflexivity|]);
    cbn; intro N; rewrite ?N; reflexivity.
Qed.

Lemma ls_options_keep (chs : list ascii) :
  forall g o g' o',
    ls_options chs (g, o) = inr (g', o') ->
    rval g' = rval g /\
    (flags g f_nosort = true -> flags g' f_nosort = true).
Proof.
  induction chs as [|ch chs IH]; intros g o g' o' H; cbn [ls_options] in H.
  - injection H as <- _. auto.
  - destruct (ls_option ch (g, o)) as [[g1 o1]|] eqn:E; [|discriminate H].
    destruct (ls_option_keeps ch g g1 o o1 E) as [R1 N1].
    destruct (IH g1 o1 g' o' H) as [R2 N2].
    split; [congruence | auto].
Qed.

Lemma ls_option_f (g : globals) (o : fts_options) :
  exists g', ls_option "f" (g, o) = Some (g', o)
             /\ flags g' f_nosort = true.
Proof. eexists. split; reflexivity. Qed.

Lemma ls_options_nosort (chs : list ascii) :
  forall g o g' o',
    In "f"%char chs ->
    ls_options chs (g, o) = inr (g', o') ->
    flags g' f_nosort = true.
Proof.
  induction chs as [|ch chs IH]; intros g o g' o' Hin H; [destruct Hin|].
  cbn [ls_options] in H.
  destruct (ls_option ch (g, o)) as [[g1 o1]|] eqn:E; [|discriminate H].
  destruct Hin as [->|Hin].
  - destruct (ls_option_f g o) as (g2 & E2 & N). rewrite E2 in E.
    injection E as -> ->.
    now apply (ls_options_keep chs g1 o1 g' o' H).
  - apply (IH g1 o1 g' o' Hin H).
Qed.

Lemma ls_finish_select_keeps (g g' : globals) (o o' : fts_options) :
  ls_finish_options (g, o) = (g', o') ->
  rval (select_printfcn (select_sortfcn g')) = rval g /\
  flags (select_printfcn (select_sortfcn g')) = flags g.
Proof.
  unfold ls_finish_options. intro H. injection H as <- _.
  unfold select_printfcn, select_sortfcn.
  repeat match goal with
         | |- context [if ?c then _ else _] => destruct c
         end; split; reflexivity.
Qed.

Lemma ls_configure_keeps (env : sysenv) (chs : list ascii)
    (g g' : globals) (o' : fts_options) :
  ls_configure env chs g = inr (g', o') ->
  rval g' = rval g /\ (In "f"%char chs -> flags g' f_nosort = true).
Proof.
  unfold ls_configure. intro H.
  destruct (ls_options chs _) as [|[g1 o1]] eqn:E; [discriminate H|].
  destruct (ls_finish_options (g1, o1)) as [g2 o2] eqn:F.
  injection H as <- <-.
  destruct (ls_finish_select_keeps g1 g2 o1 o2 F) as [R Fl].
  destruct (ls_options_keep chs _ _ _ _ E) as [R1 _].
  split.
  - rewrite R, R1. apply ls_reset_rval.
  - intro Hin. rewrite Fl. apply (ls_options_nosort chs _ _ _ _ Hin E).
Qed.

(** ** Runs of [ls_main] *)

(** C2, as the specification states it, fails on three counts.  In a
    run whose only event is a directory cycle, the error is reported and
    the returned status is zero.  When the allocation of an annotation
    fails, the list at hand is abandoned: the error entry behind the
    file, an error of the run, is never reported.  And the failure status
    is not reset at entry: after a failed call, a call that meets no
    error and writes nothing returns 1. *)
Lemma ls_main_errors_and_status_diverge :
  w_stderr (snd (ls_main env_cycle [] [] world0)) = [ErrCycle "loop"] /\
  fst (ls_main env_cycle [] [] world0) = 0 /\
  ~ exit_status_reflects_errors world0
      (snd (ls_main env_cycle [] [] world0))
      (fst (ls_main env_cycle [] [] world0)) /\
  run_errors env_err_behind
    (fst (configured env_err_behind ["l"%char] initial_globals))
    (snd (configured env_err_behind ["l"%char] initial_globals)) []
  = [ErrNode "e" 0] /\
  w_stderr (snd (ls_main env_err_behind ["l"%char] [] world_oom1))
  = [ErrMalloc] /\
  w_stderr (snd (ls_main env_empty [] []
                   (snd (ls_main env_unreadable [] [] world0))))
  = w_stderr (snd (ls_main env_unreadable [] [] world0)) /\
  fst (ls_main env_empty [] []
         (snd (ls_main env_unreadable [] [] world0))) = 1.
Proof.
  assert (E : w_stderr (snd (ls_main env_cycle [] [] world0))
              = [ErrCycle "loop"]) by (vm_compute; reflexivity).
  assert (S : fst (ls_main env_cycle [] [] world0) = 0)
    by (vm_compute; reflexivity).
  split; [exact E|]. split; [exact S|]. split.
  { intros [_ H]. apply H; [rewrite E; discriminate | exact S]. }
  repeat (match goal with |- _ /\ _ => split end);
    vm_compute; reflexivity.
Qed.

(** With valid options, the status [ls_main] returns is the failure
    status at entry, raised to 1 by the first line on the error channel
    that is not a cycle report. *)
Lemma ls_main_status_tracks
    (env : sysenv) (chs : list ascii) (operands : list string) (w : world)
    (g : globals) (o : fts_options) :
  ls_configure env chs (w_g w) = inr (g, o) ->
  status_tracks w (snd (ls_main env chs operands w)) /\
  fst (ls_main env chs operands w)
    = rval (w_g (snd (ls_main env chs operands w))).
Proof.
  intro C. unfold ls_main. rewrite C.
  destruct (ls_configure_keeps env chs (w_g w) g o C) as [Rg _].
  assert (T : forall argc argv,
             status_tracks w (traverse env argc argv o (with_g g w))).
  { intros. apply (status_tracks_trans _ (with_g g w)).
    - now apply status_tracks_same.
    - apply traverse_status. }
  destruct operands as [|x xs]; cbn [fst snd]; split;
    first [apply T | reflexivity].
Qed.

(** A call that writes nothing to the error channel returns the status
    that the earlier calls have left in [rval]. *)
Lemma ls_main_status_carried_over
    (env : sysenv) (chs : list ascii) (operands : list string) (w : world)
    (g : globals) (o : fts_options) :
  ls_configure env chs (w_g w) = inr (g, o) ->
  w_stderr (snd (ls_main env chs operands w)) = w_stderr w ->
  fst (ls_main env chs operands w) = rval (w_g w).
Proof.
  intros C E.
  destruct (ls_main_status_tracks env chs operands w g o C)
    as [(new & En & R) S].
  rewrite E in En. rewrite <- (app_nil_r (w_stderr w)) in En at 1.
  apply app_inv_head in En. subst new. rewrite S, R. reflexivity.
Qed.

(** C3.  The specification has it that nothing an earlier call of
    [ls_main] did influences the next one.  The resetting at lines 126-133 leaves out [rval],
    [sortkey] and [termwidth]: on an empty tree a fresh call returns 0 and
    the same call after a failed one returns 1; after a call with [-S] a
    call without options sorts by size; and the width of the terminal of
    an earlier call is kept when the next terminal does not tell its
    own. *)
Theorem ls_main_keeps_state_of_earlier_call :
  fst (ls_main env_empty [] [] world0) = 0 /\
  fst (ls_main env_empty [] []
         (snd (ls_main env_unreadable [] [] world0))) = 1 /\
  sortfcn (w_g (snd (ls_main env_empty [] [] world0))) = Some Namecmp /\
  sortfcn (w_g (snd (ls_main env_empty [] []
                       (snd (ls_main env_empty ["S"%char] [] world0)))))
    = Some Sizecmp /\
  termwidth (w_g (snd (ls_main env_tty [] [] world0))) = 80 /\
  termwidth (w_g (snd (ls_main env_tty [] []
                         (snd (ls_main env_tty40 [] [] world0))))) = 40.
Proof. repeat split; vm_compute; reflexivity. Qed.

(** * Further properties *)

(** ** The options *)

(** Whether an option character is known does not depend on the state. *)
Lemma ls_option_none_iff (ch : ascii) (s : globals * fts_options) :
  ls_option ch s = None <-> valid_option ch = false.
Proof.
  destruct s as [g o].
  destruct ch as [[] [] [] [] [] [] [] []]; cbn; split; intro H;
    first [reflexivity | discriminate H].
Qed.

(** The effect of one option on the settings. *)
Lemma ls_option_settings (ch : ascii) (s s' : globals * fts_options) :
  ls_option ch s = Some s' ->
  settings_of s' = settings_step ch (settings_of s).
Proof.
  destruct s as [g o].
  destruct ch as [[] [] [] [] [] [] [] []]; cbn [ls_option];
    intro H; try discriminate H; injection H as <-;
    unfold settings_step, settings_of, mode5; cbn;
    rewrite ?orb_false_r, ?orb_true_r, ?orb_false_r, ?andb_true_r,
      ?andb_false_r; reflexivity.
Qed.

Lemma ls_options_settings (chs : list ascii) :
  forall s s',
    ls_options chs s = inr s' ->
    settings_of s' = fold_left (fun a ch => settings_step ch a) chs
                       (settings_of s).
Proof.
  induction chs as [|ch chs IH]; intros s s' H; cbn [ls_options] in H.
  - injection H as <-. reflexivity.
  - destruct (ls_option ch s) as [s1|] eqn:E; [|discriminate H].
    cbn [fold_left]. rewrite <- (ls_option_settings ch s s1 E).
    apply IH. exact H.
Qed.

Lemma fold_settings_proj {A : Type} (proj : settings -> A)
    (f : ascii -> A -> A) :
  (forall ch s, proj (settings_step ch s) = f ch (proj s)) ->
  forall chs s,
    proj (fold_left (fun a ch => settings_step ch a) chs s)
    = fold_left (fun a ch => f ch a) chs (proj s).
Proof.
  intros H chs. induction chs as [|ch chs IH]; intro s; cbn [fold_left].
  - reflexivity.
  - rewrite IH, H. reflexivity.
Qed.

Lemma fold_or (c : ascii) (chs : list ascii) :
  forall a, fold_left (fun a ch => a || Ascii.eqb c ch) chs a
            = a || has_option c chs.
Proof.
  unfold has_option.
  induction chs as [|ch chs IH]; intro a; cbn [fold_left existsb].
  - now rewrite orb_false_r.
  - rewrite IH. now rewrite orb_assoc.
Qed.

Lemma fold_or2 (c d : ascii) (chs : list ascii) :
  forall a, fold_left (fun a ch => a || Ascii.eqb c ch || Ascii.eqb d ch)
              chs a
            = a || has_option c chs || has_option d chs.
Proof.
  unfold has_option.
  induction chs as [|ch chs IH]; intro a; cbn [fold_left existsb].
  - now rewrite !orb_false_r.
  - rewrite IH.
    destruct a, (Ascii.eqb c ch), (Ascii.eqb d ch),
      (existsb (Ascii.eqb c) chs), (existsb (Ascii.eqb d) chs); reflexivity.
Qed.

Lemma fold_and_not (c : ascii) (chs : list ascii) :
  forall a, fold_left (fun a ch => a && negb (Ascii.eqb c ch)) chs a
            = a && negb (has_option c chs).
Proof.
  unfold has_option.
  induction chs as [|ch chs IH]; intro a; cbn [fold_left existsb].
  - now rewrite andb_true_r.
  - rewrite IH.
    destruct a, (Ascii.eqb c ch), (existsb (Ascii.eqb c) chs); reflexivity.
Qed.

Lemma fold_const_if (c : ascii) (v : Z) (chs : list ascii) :
  forall a, fold_left (fun a ch => if Ascii.eqb c ch then v else a) chs a
            = if has_option c chs then v else a.
Proof.
  unfold has_option.
  induction chs as [|ch chs IH]; intro a; cbn [fold_left existsb].
  - reflexivity.
  - rewrite IH.
    destruct (Ascii.eqb c ch), (existsb (Ascii.eqb c) chs); reflexivity.
Qed.

Lemma fold_keep {A : Type} (chs : list ascii) (a : A) :
  fold_left (fun a (_ : ascii) => a) chs a = a.
Proof. induction chs as [|ch chs IH]; [reflexivity | exact IH]. Qed.

Lemma last_choice_map {A B : Type} (h : A -> B) (pick : ascii -> option A)
    (chs : list ascii) :
  forall d,
    last_choice (fun ch => option_map h (pick ch)) chs (h d)
    = h (last_choice pick chs d).
Proof.
  unfold last_choice.
  induction chs as [|ch chs IH]; intro d; cbn [fold_left]; [reflexivity|].
  destruct (pick ch) as [v|]; cbn [option_map]; apply IH.
Qed.

(** The settings before any option is read. *)
Lemma ls_reset_settings (env : sysenv) (g0 : globals) :
  settings_of (ls_reset env g0,
               opt_or FTS_NOCHDIR (opt_or FTS_PHYSICAL opt_none))
  = reset_settings env g0.
Proof.
  unfold ls_reset, settings_of, reset_settings, mode5.
  destruct (isatty env), (getenv_COLUMNS env), (ioctl_ws_col env) as [c|],
    (getuid env =? 0); try destruct (c >? 0); reflexivity.
Qed.

Lemma select_printfcn_keeps (g : globals) :
  flags (select_printfcn g) = flags g /\
  sortkey (select_printfcn g) = sortkey g /\
  termwidth (select_printfcn g) = termwidth g /\
  rval (select_printfcn g) = rval g /\
  output (select_printfcn g) = output g /\
  blocksize (select_printfcn g) = blocksize g /\
  sortfcn (select_printfcn g) = sortfcn g.
Proof.
  unfold select_printfcn.
  destruct (flags g f_singlecol), (flags g f_columnacross),
    (flags g f_longform), (flags g f_stream); repeat split.
Qed.

Lemma select_sortfcn_keeps (g : globals) :
  flags (select_sortfcn g) = flags g /\
  sortkey (select_sortfcn g) = sortkey g /\
  termwidth (select_sortfcn g) = termwidth g /\
  rval (select_sortfcn g) = rval g /\
  output (select_sortfcn g) = output g /\
  blocksize (select_sortfcn g) = blocksize g.
Proof.
  unfold select_sortfcn.
  destruct (flags g f_reversesort), (sortkey g =? BY_NAME),
    (sortkey g =? BY_SIZE), (sortkey g =? BY_TIME), (flags g f_accesstime),
    (flags g f_statustime); repeat split.
Qed.

Lemma select_printfcn_by_flags (g g' : globals) :
  flags g = flags g' ->
  printfcn (select_printfcn g) = printfcn (select_printfcn g').
Proof.
  intro H. unfold select_printfcn. rewrite H.
  destruct (flags g' f_singlecol), (flags g' f_columnacross),
    (flags g' f_longform), (flags g' f_stream); reflexivity.
Qed.

Lemma select_sortfcn_by_fields (g g' : globals) :
  flags g = flags g' -> sortkey g = sortkey g' -> sortfcn g = sortfcn g' ->
  sortfcn (select_sortfcn g) = sortfcn (select_sortfcn g').
Proof.
  intros H K F. unfold select_sortfcn. rewrite H, K.
  destruct (flags g' f_reversesort), (sortkey g' =? BY_NAME),
    (sortkey g' =? BY_SIZE), (sortkey g' =? BY_TIME), (flags g' f_accesstime),
    (flags g' f_statustime); cbn; try reflexivity; exact F.
Qed.

(** What lines 263-345 add to the outcome of the option loop. *)
Lemma ls_configure_inv (env : sysenv) (chs : list ascii) (g0 g : globals)
    (o : fts_options) :
  ls_configure env chs g0 = inr (g, o) ->
  exists g1 o1,
    ls_options chs (ls_reset env g0,
                    opt_or FTS_NOCHDIR (opt_or FTS_PHYSICAL opt_none))
    = inr (g1, o1) /\
    flags g = flags g1 /\ sortkey g = sortkey g1 /\
    termwidth g = termwidth g1 /\ rval g = rval g1 /\
    output g = output g1 /\
    blocksize g = (if flags g1 f_longform || flags g1 f_size
                   then 2 else blocksize g1) /\
    printfcn g = printfcn (select_printfcn g1) /\
    sortfcn g = sortfcn (select_sortfcn g1) /\
    o FTS_SEEDOT = o1 FTS_SEEDOT /\ o FTS_LOGICAL = o1 FTS_LOGICAL /\
    o FTS_PHYSICAL = o1 FTS_PHYSICAL /\ o FTS_NOCHDIR = o1 FTS_NOCHDIR /\
    o FTS_NAMEONLY = o1 FTS_NAMEONLY /\
    o FTS_NOSTAT =
      (o1 FTS_NOSTAT
       || (negb (flags g1 f_longform) && negb (flags g1 f_inode)
           && negb (flags g1 f_size) && negb (flags g1 f_type)
           && negb (flags g1 f_typedir) && (sortkey g1 =? BY_NAME))).
Proof.
  unfold ls_configure. intro H.
  destruct (ls_options chs _) as [|[g1 o1]] eqn:E; [discriminate H|].
  exists g1, o1. split; [reflexivity|].
  unfold ls_finish_options in H.
  set (c1 := negb (flags g1 f_longform) && negb (flags g1 f_inode)
             && negb (flags g1 f_size) && negb (flags g1 f_type)
             && negb (flags g1 f_typedir) && (sortkey g1 =? BY_NAME)) in *.
  set (c2 := negb (flags g1 f_longform) && negb (flags g1 f_listdir)
             && negb (flags g1 f_type)) in *.
  set (g2 := if flags g1 f_longform || flags g1 f_size
             then set_blocksize (1024 / 512) g1 else g1) in *.
  injection H as <- <-.
  assert (G2 : flags g2 = flags g1 /\ sortkey g2 = sortkey g1 /\
               termwidth g2 = termwidth g1 /\ rval g2 = rval g1 /\
               output g2 = output g1 /\ sortfcn g2 = sortfcn g1 /\
               blocksize g2 = (if flags g1 f_longform || flags g1 f_size
                               then 2 else blocksize g1)).
  { unfold g2. destruct (flags g1 f_longform || flags g1 f_size);
      repeat split. }
  destruct G2 as (F2 & K2 & T2 & R2 & O2 & S2 & B2).
  destruct (select_printfcn_keeps (select_sortfcn g2))
    as (F3 & K3 & T3 & R3 & O3 & B3 & S3).
  destruct (select_sortfcn_keeps g2) as (F4 & K4 & T4 & R4 & O4 & B4).
  split; [congruence|]. split; [congruence|]. split; [congruence|].
  split; [congruence|]. split; [congruence|]. split; [congruence|].
  split.
  { rewrite (select_printfcn_by_flags _ g1); [reflexivity | congruence]. }
  split.
  { rewrite S3. now apply select_sortfcn_by_fields. }
  destruct c1, c2, (flags g1 f_whiteout); cbn;
    rewrite ?orb_false_r, ?orb_true_r; repeat split.
Qed.

(** The settings after a valid option list, and what the rest of the
    configuration does with them. *)
Lemma ls_configure_settings (env : sysenv) (chs : list ascii)
    (g0 g : globals) (o : fts_options) :
  ls_configure env chs g0 = inr (g, o) ->
  exists g1 o1,
    settings_of (g1, o1)
      = fold_left (fun a ch => settings_step ch a) chs
          (reset_settings env g0) /\
    flags g = flags g1 /\ sortkey g = sortkey g1 /\
    termwidth g = termwidth g1 /\
    blocksize g = (if flags g1 f_longform || flags g1 f_size
                   then 2 else blocksize g1) /\
    printfcn g = printfcn (select_printfcn g1) /\
    sortfcn g = sortfcn (select_sortfcn g1) /\
    o FTS_SEEDOT = o1 FTS_SEEDOT /\ o FTS_LOGICAL = o1 FTS_LOGICAL /\
    o FTS_PHYSICAL = o1 FTS_PHYSICAL /\ o FTS_NOCHDIR = o1 FTS_NOCHDIR /\
    o FTS_NOSTAT =
      (o1 FTS_NOSTAT
       || (negb (flags g1 f_longform) && negb (flags g1 f_inode)
           && negb (flags g1 f_size) && negb (flags g1 f_type)
           && negb (flags g1 f_typedir) && (sortkey g1 =? BY_NAME))).
Proof.
  intro H.
  destruct (ls_configure_inv env chs g0 g o H)
    as (g1 & o1 & E & F & K & T & _ & _ & B & P & S & O1 & O2 & O3 & O4
        & _ & O6).
  exists g1, o1.
  rewrite (ls_options_settings chs _ _ E), ls_reset_settings.
  repeat split; assumption.
Qed.

(** X1 (the display mode).
    After a valid option list exactly one of the
    five display-mode flags is on: that of the last of the options -1 -C
    -l -m -n -x or, with none of them, columns on a terminal and single
    column elsewhere; and [printfcn] is the print function of that mode. *)
Theorem display_mode_last_option_wins
    (env : sysenv) (chs : list ascii) (g0 g : globals) (o : fts_options) :
  ls_configure env chs g0 = inr (g, o) ->
  mode5 g
    = onehot (last_choice mode_option chs
                (if isatty env then Printcol else Printscol)) /\
  printfcn g
    = Some (last_choice mode_option chs
              (if isatty env then Printcol else Printscol)).
Proof.
  intro H.
  destruct (ls_configure_settings env chs g0 g o H)
    as (g1 & o1 & E & F & _ & _ & _ & P & _).
  apply (f_equal s_mode) in E.
  rewrite (fold_settings_proj s_mode
             (fun ch a => pick_or (option_map onehot (mode_option ch)) a))
    in E by reflexivity.
  cbn [s_mode settings_of reset_settings] in E.
  change (fold_left _ chs ?d)
    with (last_choice (fun ch => option_map onehot (mode_option ch)) chs d)
    in E.
  rewrite last_choice_map in E.
  assert (M : mode5 g = mode5 g1) by (unfold mode5; now rewrite F).
  split; [congruence|].
  rewrite P. unfold select_printfcn. unfold mode5 in E.
  destruct (last_choice mode_option chs _); cbn [onehot] in E;
    injection E as E1 E2 E3 E4 E5; rewrite ?E1, ?E3, ?E4, ?E5; reflexivity.
Qed.

Lemma display_mode_last_option_wins_witness :
  printfcn (fst (configured env_tty ["l"; "R"; "1"; "a"; "x"; "F"]%char
                   initial_globals)) = Some Printacol.
Proof.
  assert (C : ls_configure env_tty ["l"; "R"; "1"; "a"; "x"; "F"]%char
                initial_globals
              = inr (fst (configured env_tty
                            ["l"; "R"; "1"; "a"; "x"; "F"]%char
                            initial_globals),
                     snd (configured env_tty
                            ["l"; "R"; "1"; "a"; "x"; "F"]%char
                            initial_globals)))
    by (vm_compute; reflexivity).
  destruct (display_mode_last_option_wins _ _ _ _ _ C) as [_ P].
  exact P.
Defined.

Lemma last_time_option_exclusive (chs : list ascii) :
  forall d,
    fst d && snd d = false ->
    fst (last_choice time_option chs d) && snd (last_choice time_option chs d)
    = false.
Proof.
  unfold last_choice.
  induction chs as [|ch chs IH]; intros d H; cbn [fold_left]; [exact H|].
  apply IH. unfold time_option.
  destruct ch as [[] [] [] [] [] [] [] []]; cbn;
    first [exact H | reflexivity].
Qed.

(** X2 (options that override each other).
    After a valid option list the
    access-time and status-time flags are as the last of -u and -c left
    them, never both on; numeric ids are printed exactly when the last of
    -l and -n is -n; and recursion is on exactly when the last of -R and
    -d is -R. *)
Theorem paired_options_last_wins
    (env : sysenv) (chs : list ascii) (g0 g : globals) (o : fts_options) :
  ls_configure env chs g0 = inr (g, o) ->
  (flags g f_accesstime, flags g f_statustime)
    = last_choice time_option chs (false, false) /\
  flags g f_accesstime && flags g f_statustime = false /\
  flags g f_numericonly = last_choice numeric_option chs false /\
  flags g f_recursive = last_choice recursive_option chs false.
Proof.
  intro H.
  destruct (ls_configure_settings env chs g0 g o H)
    as (g1 & o1 & E & F & _).
  pose proof (f_equal s_time E) as Et.
  pose proof (f_equal s_numeric E) as En.
  pose proof (f_equal s_recursive E) as Er.
  rewrite (fold_settings_proj s_time
             (fun ch a => pick_or (time_option ch) a)) in Et by reflexivity.
  rewrite (fold_settings_proj s_numeric
             (fun ch a => pick_or (numeric_option ch) a)) in En
    by reflexivity.
  rewrite (fold_settings_proj s_recursive
             (fun ch a => pick_or (recursive_option ch) a)) in Er
    by reflexivity.
  cbn [s_time s_numeric s_recursive settings_of reset_settings] in Et, En, Er.
  rewrite F.
  assert (T : (flags g1 f_accesstime, flags g1 f_statustime)
              = last_choice time_option chs (false, false)) by exact Et.
  split; [exact T|]. split; [|split; [exact En | exact Er]].
  pose proof (last_time_option_exclusive chs (false, false) eq_refl) as X.
  rewrite <- T in X. exact X.
Qed.

Lemma paired_options_last_wins_witness :
  flags (fst (configured env_plain ["n"; "u"; "R"; "c"; "l"; "d"]%char
                initial_globals)) f_statustime = true /\
  flags (fst (configured env_plain ["n"; "u"; "R"; "c"; "l"; "d"]%char
                initial_globals)) f_numericonly = false.
Proof.
  assert (C : ls_configure env_plain ["n"; "u"; "R"; "c"; "l"; "d"]%char
                initial_globals
              = inr (fst (configured env_plain
                            ["n"; "u"; "R"; "c"; "l"; "d"]%char
                            initial_globals),
                     snd (configured env_plain
                            ["n"; "u"; "R"; "c"; "l"; "d"]%char
                            initial_globals)))
    by (vm_compute; reflexivity).
  destruct (paired_options_last_wins _ _ _ _ _ C) as (T & _ & N & _).
  split; [|exact N].
  apply (f_equal snd) in T. exact T.
Defined.

Lemma last_key_option_range (chs : list ascii) :
  forall k, 0 <= k <= 2 -> 0 <= last_choice key_option chs k <= 2.
Proof.
  unfold last_choice.
  induction chs as [|ch chs IH]; intros k H; cbn [fold_left]; [exact H|].
  apply IH. unfold key_option, BY_SIZE, BY_TIME.
  destruct ch as [[] [] [] [] [] [] [] []];
    first [exact H | (cbv; split; discriminate)].
Qed.

(** X3 (the comparator).
    After a valid option list the sort key is that of
    the last of -S and -t, or the key the earlier calls left when neither
    is given; and when that inherited key is one of the three constants,
    [sortfcn] is not null: it is a comparator of the sort key, the
    reversed one of its pair exactly when -r is given. *)
Theorem sort_function_selected
    (env : sysenv) (chs : list ascii) (g0 g : globals) (o : fts_options) :
  0 <= sortkey g0 <= 2 ->
  ls_configure env chs g0 = inr (g, o) ->
  sortkey g = last_choice key_option chs (sortkey g0) /\
  exists f,
    sortfcn g = Some f /\ sortfn_key f = sortkey g /\
    sortfn_reversed f = has_option "r" chs.
Proof.
  intros K0 H.
  destruct (ls_configure_settings env chs g0 g o H)
    as (g1 & o1 & E & F & K & _ & _ & _ & S & _).
  pose proof (f_equal s_key E) as Ek.
  pose proof (f_equal s_reverse E) as Er.
  rewrite (fold_settings_proj s_key
             (fun ch a => pick_or (key_option ch) a)) in Ek by reflexivity.
  rewrite (fold_settings_proj s_reverse
             (fun ch a => a || Ascii.eqb "r" ch)) in Er by reflexivity.
  rewrite fold_or in Er.
  cbn [s_key s_reverse settings_of reset_settings orb] in Ek, Er.
  assert (Ek' : sortkey g1 = last_choice key_option chs (sortkey g0))
    by exact Ek.
  split; [congruence|].
  pose proof (last_key_option_range chs (sortkey g0) K0) as R.
  rewrite <- Ek' in R. rewrite S, K, <- Er. unfold select_sortfcn.
  assert (C : sortkey g1 = 0 \/ sortkey g1 = 1 \/ sortkey g1 = 2) by lia.
  destruct C as [C|[C|C]]; rewrite C; cbn [Z.eqb BY_NAME BY_SIZE BY_TIME];
    destruct (flags g1 f_reversesort); cbn;
    try (eexists; repeat split; reflexivity);
    destruct (flags g1 f_accesstime); cbn;
    try (eexists; repeat split; reflexivity);
    destruct (flags g1 f_statustime); cbn;
    eexists; repeat split; reflexivity.
Qed.

Lemma sort_function_selected_witness :
  exists f,
    sortfcn (fst (configured env_plain ["S"; "r"; "t"; "u"]%char
                    initial_globals)) = Some f /\
    sortfn_key f = BY_TIME /\ sortfn_reversed f = true.
Proof.
  assert (K0 : 0 <= sortkey initial_globals <= 2)
    by (vm_compute; split; discriminate).
  assert (C : ls_configure env_plain ["S"; "r"; "t"; "u"]%char
                initial_globals
              = inr (fst (configured env_plain ["S"; "r"; "t"; "u"]%char
                            initial_globals),
                     snd (configured env_plain ["S"; "r"; "t"; "u"]%char
                            initial_globals)))
    by (vm_compute; reflexivity).
  destruct (sort_function_selected _ _ _ _ _ K0 C) as (_ & f & S & K & R).
  exists f. split; [exact S|]. split; [rewrite K | rewrite R];
    vm_compute; reflexivity.
Defined.

(** X4 (dot files).
    After a valid option list, entries whose name begins
    with a dot are listed exactly when the caller is the super-user or -a
    or -A is given, and the walk is asked for "." and ".." exactly when -a
    is given. *)
Theorem dot_files_listed
    (env : sysenv) (chs : list ascii) (g0 g : globals) (o : fts_options) :
  ls_configure env chs g0 = inr (g, o) ->
  flags g f_listdot
    = (getuid env =? 0) || has_option "a" chs || has_option "A" chs /\
  o FTS_SEEDOT = has_option "a" chs.
Proof.
  intro H.
  destruct (ls_configure_settings env chs g0 g o H)
    as (g1 & o1 & E & F & _ & _ & _ & _ & _ & O1 & _).
  pose proof (f_equal s_listdot E) as El.
  pose proof (f_equal s_seedot E) as Es.
  rewrite (fold_settings_proj s_listdot
             (fun ch a => a || Ascii.eqb "a" ch || Ascii.eqb "A" ch)) in El
    by reflexivity.
  rewrite (fold_settings_proj s_seedot
             (fun ch a => a || Ascii.eqb "a" ch)) in Es by reflexivity.
  rewrite fold_or2 in El. rewrite fold_or in Es.
  cbn [s_listdot s_seedot settings_of reset_settings orb] in El, Es.
  rewrite F, O1. split; assumption.
Qed.

Lemma dot_files_listed_witness :
  flags (fst (configured env_root_tty0 [] initial_globals)) f_listdot = true
  /\
  flags (fst (configured env_plain ["l"; "A"]%char initial_globals))
    f_listdot = true /\
  snd (configured env_plain ["l"; "A"]%char initial_globals) FTS_SEEDOT
    = false.
Proof.
  assert (C1 : ls_configure env_root_tty0 [] initial_globals
               = inr (fst (configured env_root_tty0 [] initial_globals),
                      snd (configured env_root_tty0 [] initial_globals)))
    by (vm_compute; reflexivity).
  assert (C2 : ls_configure env_plain ["l"; "A"]%char initial_globals
               = inr (fst (configured env_plain ["l"; "A"]%char
                             initial_globals),
                      snd (configured env_plain ["l"; "A"]%char
                             initial_globals)))
    by (vm_compute; reflexivity).
  destruct (dot_files_listed _ _ _ _ _ C1) as [L1 _].
  destruct (dot_files_listed _ _ _ _ _ C2) as [L2 S2].
  split; [|split]; [rewrite L1 | rewrite L2 | rewrite S2];
    vm_compute; reflexivity.
Defined.

(** X5 (how links are followed).
    After a valid option list the walk is
    opened with FTS_NOCHDIR and with exactly one of FTS_PHYSICAL and
    FTS_LOGICAL: the logical walk when -L is given, the physical one
    otherwise. *)
Theorem walk_physical_or_logical
    (env : sysenv) (chs : list ascii) (g0 g : globals) (o : fts_options) :
  ls_configure env chs g0 = inr (g, o) ->
  o FTS_NOCHDIR = true /\
  o FTS_LOGICAL = has_option "L" chs /\
  o FTS_PHYSICAL = negb (has_option "L" chs).
Proof.
  intro H.
  destruct (ls_configure_settings env chs g0 g o H)
    as (g1 & o1 & E & _ & _ & _ & _ & _ & _ & _ & O2 & O3 & O4 & _).
  pose proof (f_equal s_nochdir E) as En.
  pose proof (f_equal s_logical E) as El.
  pose proof (f_equal s_physical E) as Ep.
  rewrite (fold_settings_proj s_nochdir (fun _ a => a)) in En
    by reflexivity.
  rewrite (fold_settings_proj s_logical
             (fun ch a => a || Ascii.eqb "L" ch)) in El by reflexivity.
  rewrite (fold_settings_proj s_physical
             (fun ch a => a && negb (Ascii.eqb "L" ch))) in Ep
    by reflexivity.
  rewrite fold_keep in En. rewrite fold_or in El. rewrite fold_and_not in Ep.
  cbn [s_nochdir s_logical s_physical settings_of reset_settings orb andb]
    in En, El, Ep.
  rewrite O2, O3, O4. repeat split; assumption.
Qed.

Lemma walk_physical_or_logical_witness :
  snd (configured env_plain ["R"; "L"; "a"]%char initial_globals) FTS_LOGICAL
    = true /\
  snd (configured env_plain ["R"; "L"; "a"]%char initial_globals)
    FTS_PHYSICAL = false.
Proof.
  assert (C : ls_configure env_plain ["R"; "L"; "a"]%char initial_globals
              = inr (fst (configured env_plain ["R"; "L"; "a"]%char
                            initial_globals),
                     snd (configured env_plain ["R"; "L"; "a"]%char
                            initial_globals)))
    by (vm_compute; reflexivity).
  destruct (walk_physical_or_logical _ _ _ _ _ C) as (_ & L & P).
  split; [rewrite L | rewrite P]; vm_compute; reflexivity.
Defined.

(** X6 (stat information).
    After a valid option list the walk is told to
    skip [stat] exactly when none of -l -n -i -s -F -p is given and the
    sort key is the name; so whenever [display] reads stat fields, or the
    entries are compared by size or time, the walk collects them. *)
Theorem stat_collected_when_needed
    (env : sysenv) (chs : list ascii) (g0 g : globals) (o : fts_options) :
  ls_configure env chs g0 = inr (g, o) ->
  o FTS_NOSTAT
    = negb (flags g f_longform) && negb (flags g f_inode)
      && negb (flags g f_size) && negb (flags g f_type)
      && negb (flags g f_typedir) && (sortkey g =? BY_NAME) /\
  (needstats_of g = true -> o FTS_NOSTAT = false) /\
  (sortkey g <> BY_NAME -> o FTS_NOSTAT = false).
Proof.
  intro H.
  destruct (ls_configure_settings env chs g0 g o H)
    as (g1 & o1 & E & F & K & _ & _ & _ & _ & _ & _ & _ & _ & O6).
  pose proof (f_equal s_nostat E) as En.
  rewrite (fold_settings_proj s_nostat (fun _ a => a)) in En by reflexivity.
  rewrite fold_keep in En. cbn [s_nostat settings_of reset_settings] in En.
  rewrite En in O6. cbn [orb] in O6. rewrite <- F, <- K in O6.
  split; [exact O6|]. rewrite O6. unfold needstats_of. split.
  - intro N.
    destruct (flags g f_inode), (flags g f_longform), (flags g f_size);
      try discriminate N; cbn; rewrite ?andb_false_r; reflexivity.
  - intro N. apply Z.eqb_neq in N. rewrite N. apply andb_false_r.
Qed.

Lemma stat_collected_when_needed_witness :
  snd (configured env_plain ["i"]%char initial_globals) FTS_NOSTAT = false
  /\ snd (configured env_plain ["a"]%char initial_globals) FTS_NOSTAT = true.
Proof.
  assert (C1 : ls_configure env_plain ["i"]%char initial_globals
               = inr (fst (configured env_plain ["i"]%char initial_globals),
                      snd (configured env_plain ["i"]%char initial_globals)))
    by (vm_compute; reflexivity).
  assert (C2 : ls_configure env_plain ["a"]%char initial_globals
               = inr (fst (configured env_plain ["a"]%char initial_globals),
                      snd (configured env_plain ["a"]%char initial_globals)))
    by (vm_compute; reflexivity).
  destruct (stat_collected_when_needed _ _ _ _ _ C1) as (_ & N1 & _).
  destruct (stat_collected_when_needed _ _ _ _ _ C2) as (E2 & _).
  split; [apply N1 | rewrite E2]; vm_compute; reflexivity.
Defined.

(** X7 (the block size).
    After a valid option list the block size is 2
    (1024 / 512) whenever the long format or -s is in force, whether or
    not -k is given; otherwise it is 1024 when -k is given and else what
    the earlier calls left. *)
Theorem blocksize_configured
    (env : sysenv) (chs : list ascii) (g0 g : globals) (o : fts_options) :
  ls_configure env chs g0 = inr (g, o) ->
  blocksize g
    = if flags g f_longform || flags g f_size then 2
      else if has_option "k" chs then 1024 else blocksize g0.
Proof.
  intro H.
  destruct (ls_configure_settings env chs g0 g o H)
    as (g1 & o1 & E & F & _ & _ & B & _).
  pose proof (f_equal s_blocksize E) as Eb.
  rewrite (fold_settings_proj s_blocksize
             (fun ch a => if Ascii.eqb "k" ch then 1024 else a)) in Eb
    by reflexivity.
  rewrite fold_const_if in Eb.
  cbn [s_blocksize settings_of reset_settings] in Eb.
  rewrite B, F, Eb. reflexivity.
Qed.

Lemma blocksize_configured_witness :
  blocksize (fst (configured env_plain ["k"; "s"]%char initial_globals)) = 2
  /\ blocksize (fst (configured env_plain ["k"]%char initial_globals)) = 1024.
Proof.
  assert (C1 : ls_configure env_plain ["k"; "s"]%char initial_globals
               = inr (fst (configured env_plain ["k"; "s"]%char
                             initial_globals),
                      snd (configured env_plain ["k"; "s"]%char
                             initial_globals)))
    by (vm_compute; reflexivity).
  assert (C2 : ls_configure env_plain ["k"]%char initial_globals
               = inr (fst (configured env_plain ["k"]%char initial_globals),
                      snd (configured env_plain ["k"]%char initial_globals)))
    by (vm_compute; reflexivity).
  pose proof (blocksize_configured _ _ _ _ _ C1) as B1.
  pose proof (blocksize_configured _ _ _ _ _ C2) as B2.
  split; [rewrite B1 | rewrite B2]; vm_compute; reflexivity.
Defined.

(** X8 (the terminal width).
    No option changes it.  On a terminal it is
    the number COLUMNS holds, taken as it is (also zero or negative);
    without COLUMNS it is the column count of the window when that is
    positive; in every other case, and when the output is no terminal, it
    is what the earlier calls left (80 in a fresh process). *)
Theorem termwidth_configured
    (env : sysenv) (chs : list ascii) (g0 g : globals) (o : fts_options) :
  ls_configure env chs g0 = inr (g, o) ->
  termwidth g
    = if isatty env then
        match getenv_COLUMNS env with
        | Some v => v
        | None =>
            match ioctl_ws_col env with
            | Some col => if col >? 0 then col else termwidth g0
            | None => termwidth g0
            end
        end
      else termwidth g0.
Proof.
  intro H.
  destruct (ls_configure_settings env chs g0 g o H)
    as (g1 & o1 & E & _ & _ & T & _).
  pose proof (f_equal s_termwidth E) as Et.
  rewrite (fold_settings_proj s_termwidth (fun _ a => a)) in Et
    by reflexivity.
  rewrite fold_keep in Et. cbn [s_termwidth settings_of reset_settings] in Et.
  rewrite T. exact Et.
Qed.

Lemma termwidth_configured_witness :
  termwidth (fst (configured env_root_tty0 ["C"]%char initial_globals)) = 0.
Proof.
  assert (C : ls_configure env_root_tty0 ["C"]%char initial_globals
              = inr (fst (configured env_root_tty0 ["C"]%char
                            initial_globals),
                     snd (configured env_root_tty0 ["C"]%char
                            initial_globals)))
    by (vm_compute; reflexivity).
  rewrite (termwidth_configured _ _ _ _ _ C). reflexivity.
Defined.

Lemma ls_options_valid (chs : list ascii) :
  forall s,
    forallb valid_option chs = true -> exists s', ls_options chs s = inr s'.
Proof.
  induction chs as [|ch chs IH]; intros s H; cbn [ls_options forallb] in *.
  - now exists s.
  - apply andb_true_iff in H. destruct H as [V H].
    destruct (ls_option ch s) as [s1|] eqn:E.
    + apply IH. exact H.
    + apply ls_option_none_iff in E. congruence.
Qed.

Lemma ls_options_invalid (chs : list ascii) :
  forall g o,
    forallb valid_option chs = false ->
    exists g', ls_options chs (g, o) = inl g' /\ rval g' = rval g.
Proof.
  induction chs as [|ch chs IH]; intros g o H; cbn [ls_options forallb] in *;
    [discriminate H|].
  destruct (ls_option ch (g, o)) as [[g1 o1]|] eqn:E.
  - assert (V : valid_option ch = true).
    { destruct (valid_option ch) eqn:V; [reflexivity|].
      apply (ls_option_none_iff ch (g, o)) in V. congruence. }
    rewrite V in H. cbn [andb] in H.
    destruct (IH g1 o1 H) as (g' & E' & R). exists g'. split; [exact E'|].
    destruct (ls_option_keeps ch g g1 o o1 E) as [R1 _]. congruence.
  - exists g. split; reflexivity.
Qed.

(** The [switch] has a case for exactly the characters of the option
    string. *)
Lemma valid_option_optstring (ch : ascii) :
  valid_option ch = in_optstring ch.
Proof. destruct ch as [[] [] [] [] [] [] [] []]; reflexivity. Qed.

Lemma find_same {A : Type} (f g : A -> bool) (l : list A) :
  (forall x, f x = g x) -> find f l = find g l.
Proof.
  intro H. induction l as [|x l IH]; cbn [find]; [reflexivity|].
  now rewrite H, IH.
Qed.

Lemma find_unknown_option (chs : list ascii) :
  forallb valid_option chs = false ->
  exists ch,
    find (fun c => negb (in_optstring c)) chs = Some ch /\
    In ch chs /\ valid_option ch = false.
Proof.
  induction chs as [|c chs IH]; cbn [forallb find]; intro H;
    [discriminate H|].
  rewrite <- valid_option_optstring.
  destruct (valid_option c) eqn:V; cbn [andb negb] in *.
  - destruct (IH H) as (ch & F & I & N). exists ch.
    split; [exact F|]. split; [now right | exact N].
  - exists c. split; [reflexivity|]. split; [now left | exact V].
Qed.

(** X9 (an unknown option).
    When every option character is one of the
    [switch], the configuration is built and the walk is run; as soon as
    one is not, [ls_main] returns what [usage] returns.  The error
    channel has then received the diagnostic of [getopt] for the first
    such character and the call of [usage], and nothing else; nothing has
    been written to the standard output, nothing has been allocated or
    asked of the walk, and the failure status is as it was. *)
Theorem ls_main_unknown_option
    (env : sysenv) (chs : list ascii) (operands : list string) (w : world) :
  (forallb valid_option chs = true ->
   exists g o, ls_configure env chs (w_g w) = inr (g, o)) /\
  (forallb valid_option chs = false ->
   exists ch,
     find (fun c => negb (valid_option c)) chs = Some ch /\
     fst (ls_main env chs operands w) = usage env /\
     w_stderr (snd (ls_main env chs operands w))
       = w_stderr w ++ [ErrGetopt ch; ErrUsage] /\
     w_stdout (snd (ls_main env chs operands w)) = w_stdout w /\
     w_heap (snd (ls_main env chs operands w)) = w_heap w /\
     w_skip (snd (ls_main env chs operands w)) = w_skip w /\
     rval (w_g (snd (ls_main env chs operands w))) = rval (w_g w)).
Proof.
  split; intro H.
  - unfold ls_configure.
    destruct (ls_options_valid chs
                (ls_reset env (w_g w),
                 opt_or FTS_NOCHDIR (opt_or FTS_PHYSICAL opt_none)) H)
      as ([g1 o1] & E).
    rewrite E. destruct (ls_finish_options (g1, o1)) as [g2 o2].
    eexists _, _. reflexivity.
  - destruct (find_unknown_option chs H) as (ch & F & _ & _).
    exists ch. split.
    { rewrite <- F. apply find_same. intro c.
      now rewrite valid_option_optstring. }
    unfold ls_main, ls_configure, call_usage, getopt_diagnostic.
    destruct (ls_options_invalid chs (ls_reset env (w_g w))
                (opt_or FTS_NOCHDIR (opt_or FTS_PHYSICAL opt_none)) H)
      as (g' & E & R).
    rewrite E, F.
    cbn [fst snd w_stdout w_stderr w_heap w_skip w_g with_g put_err].
    rewrite <- app_assoc. repeat split. rewrite R. apply ls_reset_rval.
Qed.

Lemma ls_main_unknown_option_witness :
  fst (ls_main env_sample ["l"; "Z"; "a"; "Y"]%char ["d"]%string world0)
    = usage env_sample /\
  w_stderr (snd (ls_main env_sample ["l"; "Z"; "a"; "Y"]%char ["d"]%string
                   world0)) = [ErrGetopt "Z"; ErrUsage] /\
  w_stdout (snd (ls_main env_sample ["l"; "Z"; "a"; "Y"]%char ["d"]%string
                   world0)) = [] /\
  flags (w_g (snd (ls_main env_sample ["l"; "Z"; "a"; "Y"]%char ["d"]%string
                     world0))) f_longform = true.
Proof.
  destruct (ls_main_unknown_option env_sample ["l"; "Z"; "a"; "Y"]%char
              ["d"]%string world0) as [_ H].
  destruct (H eq_refl) as (ch & F & U & E & O & _).
  assert (Hch : ch = "Z"%char) by (vm_compute in F; congruence).
  subst ch.
  split; [exact U|]. split; [exact E|]. split; [exact O|].
  vm_compute. reflexivity.
Defined.

(** ** The ordering policy, continued *)

(** X10 (entries that could not be stat-ed).
    Against an entry that is
    neither an error entry nor not-stat-able, a not-stat-able entry is the
    larger one, at every level and for every sort key, reversed or not;
    two not-stat-able entries are compared by name, also when the sort is
    reversed or by another key. *)
Theorem mastercmp_not_statable_last (g : globals) (a b : FTSENT) :
  fts_info a <> FTS_ERR -> fts_info b <> FTS_ERR ->
  (fts_info a = FTS_NS -> fts_info b <> FTS_NS -> mastercmp g a b = 1) /\
  (fts_info a <> FTS_NS -> fts_info b = FTS_NS -> mastercmp g a b = -1) /\
  (fts_info a = FTS_NS -> fts_info b = FTS_NS ->
   mastercmp g a b = namecmp a b).
Proof.
  intros Ea Eb. unfold mastercmp.
  destruct (fts_info a), (fts_info b); cbn; repeat split; intros;
    congruence.
Qed.

Lemma mastercmp_not_statable_last_witness :
  mastercmp (with_reversed true g_long) (entry FTS_NS 1 "a")
    (entry FTS_F 1 "z") = 1.
Proof.
  destruct (mastercmp_not_statable_last (with_reversed true g_long)
              (entry FTS_NS 1 "a") (entry FTS_F 1 "z"))
    as (H & _ & _); try discriminate.
  apply H; [reflexivity | discriminate].
Defined.

(** X11 (the field comparator).
    For two entries that are neither error
    entries nor not-stat-able, [mastercmp] is the call of [sortfcn]
    whenever the first is below the level of the command-line arguments,
    or directories are listed as themselves (-d), or the two are of the
    same kind, or neither is a directory. *)
Theorem mastercmp_delegates (g : globals) (a b : FTSENT) :
  fts_info a <> FTS_ERR -> fts_info b <> FTS_ERR ->
  fts_info a <> FTS_NS -> fts_info b <> FTS_NS ->
  fts_level a <> FTS_ROOTLEVEL \/ flags g f_listdir = true \/
  fts_info a = fts_info b \/
  (fts_info a <> FTS_D /\ fts_info b <> FTS_D) ->
  mastercmp g a b = call_sortfcn g a b.
Proof.
  intros Ea Eb Na Nb H. unfold mastercmp.
  destruct (Z.eqb_spec (fts_level a) FTS_ROOTLEVEL) as [L|L];
    destruct (flags g f_listdir) eqn:D;
    destruct (fts_info a), (fts_info b); cbn; try reflexivity;
    try congruence;
    destruct H as [H|[H|[H|[H1 H2]]]]; congruence.
Qed.

Lemma mastercmp_delegates_witness :
  mastercmp g_plain (entry FTS_SL 0 "link") (entry FTS_F 0 "file")
  = call_sortfcn g_plain (entry FTS_SL 0 "link") (entry FTS_F 0 "file").
Proof.
  apply mastercmp_delegates; try discriminate.
  right. right. right. split; discriminate.
Defined.

(** ** The selection and aggregation pass, continued *)

Lemma malloc_no_oom (v : NAMES) (h : heap) :
  no_oom h ->
  exists h1,
    malloc v h = (Some (h_next h), h1) /\ no_oom h1 /\
    h_live h1 = (h_next h, v) :: h_live h /\
    h_next h1 = Datatypes.S (h_next h).
Proof.
  unfold no_oom, malloc. intro H.
  destruct (h_oom h) as [|[] rest]; cbn [forallb negb andb] in H;
    try discriminate H; eexists; repeat split; assumption.
Qed.

Lemma malloc_keeps_no_oom (v : NAMES) (h h1 : heap) (r : option nat) :
  malloc v h = (r, h1) -> no_oom h -> no_oom h1.
Proof.
  unfold no_oom, malloc. intros M H.
  destruct (h_oom h) as [|[] rest]; cbn [forallb negb andb] in H;
    try discriminate H; injection M as _ <-; assumption.
Qed.

Lemma malloc_keeps_heap_ok (v : NAMES) (h h1 : heap) (r : option nat) :
  malloc v h = (r, h1) -> heap_ok h -> heap_ok h1.
Proof.
  unfold heap_ok, malloc. intros M H.
  destruct (h_oom h) as [|[] rest]; injection M as _ <-;
    cbn [h_live h_next]; try exact H;
    intros x [<-|Hx]; cbn [fst]; try lia; specialize (H x Hx); lia.
Qed.

Lemma free_all_keeps (l : list FTSENT) (h : heap) :
  h_next (free_all l h) = h_next h /\ h_oom (free_all l h) = h_oom h.
Proof.
  unfold free_all. revert h.
  induction l as [|e l IH]; intro h; cbn [fold_left]; [split; reflexivity|].
  destruct (IH (free (fts_pointer e) h)) as [N O]. rewrite N, O.
  destruct (fts_pointer e); split; reflexivity.
Qed.

Lemma free_all_keeps_heap_ok (l : list FTSENT) (h : heap) :
  heap_ok h -> heap_ok (free_all l h).
Proof.
  unfold heap_ok. intros H x Hx.
  rewrite free_all_live in Hx. apply filter_In in Hx.
  destruct (free_all_keeps l h) as [N _]. rewrite N. apply H. apply Hx.
Qed.

Section LoopFacts.

Variable env : sysenv.
Variable p : option FTSENT.
Variable ns : bool.

(** Without a failing allocation the loop reaches the end of the list. *)
Lemma display_loop_ends (l : list FTSENT) :
  forall a w,
    ns && flags (w_g w) f_longform = false \/ no_oom (w_heap w) ->
    loop_locals (display_loop env p ns l a w) <> None.
Proof.
  induction l as [|e l IH]; intros a w H; cbn [display_loop].
  - discriminate.
  - destruct (is_err_or_ns e).
    { rewrite loop_locals_push. apply IH. exact H. }
    destruct (match p with
              | None => _
              | Some _ => _
              end).
    { rewrite loop_locals_push. apply IH. exact H. }
    destruct ns; [|rewrite loop_locals_push; apply IH; now left].
    destruct (flags (w_g w) f_longform) eqn:L;
      [|rewrite loop_locals_push; apply IH; left; exact L].
    destruct H as [H|H]; [discriminate H|].
    destruct (malloc_no_oom (mknames (user_of env (w_g w) (fts_statp e))
                               (group_of env (w_g w) (fts_statp e))
                               (flags_of (w_g w))) _ H)
      as (h1 & M & N & _).
    rewrite M. rewrite loop_locals_push. apply IH. right. exact N.
Qed.

(** What the loop leaves of the allocator's schedule and of its
    invariant. *)
Lemma display_loop_heap_kept (l : list FTSENT) :
  forall a w,
    (no_oom (w_heap w) ->
     no_oom (w_heap (loop_world (display_loop env p ns l a w)))) /\
    (heap_ok (w_heap w) ->
     heap_ok (w_heap (loop_world (display_loop env p ns l a w)))) /\
    (ns && flags (w_g w) f_longform = false ->
     w_heap (loop_world (display_loop env p ns l a w)) = w_heap w).
Proof.
  induction l as [|e l IH]; intros a w; cbn [display_loop].
  - repeat split; auto.
  - destruct (is_err_or_ns e).
    { rewrite loop_world_push. apply (IH a (fail_with 1 (put_err _ w))). }
    destruct (match p with
              | None => _
              | Some _ => _
              end).
    { rewrite loop_world_push. apply IH. }
    destruct ns; [|rewrite loop_world_push; apply IH].
    destruct (flags (w_g w) f_longform) eqn:L.
    2:{ rewrite loop_world_push.
        match goal with
        | |- context [display_loop env p _ l ?a' ?w'] =>
            destruct (IH a' w') as (I1 & I2 & I3)
        end.
        split; [exact I1|]. split; [exact I2|].
        intros _. apply I3. rewrite L. reflexivity. }
    destruct (malloc _ _) as [[np|] h1] eqn:M.
    + rewrite loop_world_push.
      destruct (IH (agg_count
                      (agg_bcfile (fts_statp e)
                         (agg_long env (w_g w) (fts_statp e)
                            (agg_stat (fts_statp e) (agg_name e a)))))
                  (with_heap h1 w)) as (I1 & I2 & _).
      split; [|split].
      * intro H. apply I1. apply (malloc_keeps_no_oom _ _ _ _ M H).
      * intro H. apply I2. apply (malloc_keeps_heap_ok _ _ _ _ M H).
      * discriminate.
    + cbn [loop_world w_heap fail_with put_err with_heap with_g].
      split; [|split].
      * apply (malloc_keeps_no_oom _ _ _ _ M).
      * apply (malloc_keeps_heap_ok _ _ _ _ M).
      * discriminate.
Qed.

(** At the end of the list there is one error line per error or
    not-stat-able entry, in the order of the list. *)
Lemma display_loop_reports (l : list FTSENT) :
  forall a w,
    loop_locals (display_loop env p ns l a w) <> None ->
    w_stderr (loop_world (display_loop env p ns l a w))
      = w_stderr w ++ node_errors l /\
    rval (w_g (loop_world (display_loop env p ns l a w)))
      = (if existsb is_err_or_ns l then 1 else rval (w_g w)).
Proof.
  unfold node_errors.
  induction l as [|e l IH]; intros a w H;
    cbn [display_loop filter map existsb] in *.
  - cbn. now rewrite app_nil_r.
  - destruct (is_err_or_ns e); cbn [orb map].
    { rewrite loop_world_push. rewrite loop_locals_push in H.
      destruct (IH _ _ H) as [E R]. rewrite E, R.
      cbn [w_stderr fail_with with_g put_err w_g rval set_rval].
      rewrite <- app_assoc. split; [reflexivity|].
      now destruct (existsb is_err_or_ns l). }
    destruct (match p with
              | None => _
              | Some _ => _
              end).
    { rewrite loop_world_push. rewrite loop_locals_push in H.
      apply (IH _ _ H). }
    destruct ns;
      [|rewrite loop_world_push; rewrite loop_locals_push in H;
        apply (IH _ _ H)].
    destruct (flags (w_g w) f_longform);
      [|rewrite loop_world_push; rewrite loop_locals_push in H;
        apply (IH _ _ H)].
    destruct (malloc _ _) as [[np|] h1].
    + rewrite loop_world_push. rewrite loop_locals_push in H.
      apply (IH _ _ H).
    + now elim H.
Qed.

End LoopFacts.

Lemma same_node_refl (e : FTSENT) : same_node e e.
Proof. destruct e. reflexivity. Qed.

Lemma same_node_number (e : FTSENT) (n : Z) :
  same_node e (set_fts_number e n).
Proof. destruct e. reflexivity. Qed.

Lemma same_node_pointer (e : FTSENT) (q : option nat) :
  same_node e (set_fts_pointer e q).
Proof. destruct e. reflexivity. Qed.

Section LoopMarks.

Variable env : sysenv.
Variable p : option FTSENT.
Variable ns : bool.

(** What the loop leaves on the entries when it reaches the end of the
    list: the suppressed ones are marked, the others keep their number
    and, in long format, point to their annotation. *)
Lemma display_loop_marks (l : list FTSENT) :
  forall g0 a w l' a' w',
    flags (w_g w) = flags g0 ->
    display_loop env p ns l a w = LoopEnd l' a' w' ->
    Forall2
      (fun e e' =>
         same_node e e' /\
         fts_number e'
           = (if suppressed g0 p e then NO_PRINT else fts_number e) /\
         (if negb (suppressed g0 p e) && (ns && flags g0 f_longform)
          then exists np,
                 fts_pointer e' = Some np /\
                 In (np, annotation_of env g0 e) (h_live (w_heap w'))
          else fts_pointer e' = fts_pointer e))
      l l' /\
    (forall x, In x (h_live (w_heap w)) -> In x (h_live (w_heap w'))).
Proof.
  induction l as [|e l IH]; intros g0 a w l' a' w' Hf R;
    cbn [display_loop] in R.
  - injection R as <- _ <-. split; [constructor | auto].
  - assert (Pop : forall e0 r,
               push e0 r = LoopEnd l' a' w' ->
               exists l'', r = LoopEnd l'' a' w' /\ l' = e0 :: l'').
    { intros e0 [lr wr|lr ar wr] H; [discriminate H|].
      injection H as <- <- <-. now exists lr. }
    assert (Sup : suppressed g0 p e
                  = is_err_or_ns e
                    || match p with
                       | None => info_eqb (fts_info e) FTS_D
                                 && negb (flags (w_g w) f_listdir)
                       | Some _ => first_is_dot (fts_name e)
                                   && negb (flags (w_g w) f_listdot)
                       end).
    { unfold suppressed. now rewrite Hf. }
    assert (Lf : flags g0 f_longform = flags (w_g w) f_longform)
      by now rewrite Hf.
    destruct (is_err_or_ns e) eqn:E1.
    { destruct (Pop _ _ R) as (l'' & R' & ->).
      pose proof (fun H => IH g0 _ _ _ _ _ H R') as X.
      destruct (X Hf) as [F I].
      split; [|exact I]. constructor; [|exact F].
      rewrite Sup. cbn [orb negb andb].
      repeat split. }
    destruct (match p with
              | None => _
              | Some _ => _
              end) eqn:E2.
    { destruct (Pop _ _ R) as (l'' & R' & ->).
      pose proof (fun H => IH g0 _ _ _ _ _ H R') as X.
      destruct (X Hf) as [F I].
      split; [|exact I]. constructor; [|exact F].
      rewrite Sup. cbn [orb negb andb].
      repeat split. }
    destruct ns.
    2:{ destruct (Pop _ _ R) as (l'' & R' & ->).
        pose proof (fun H => IH g0 _ _ _ _ _ H R') as X.
        destruct (X Hf) as [F I].
        split; [|exact I]. constructor; [|exact F].
        rewrite Sup. cbn [orb negb andb].
        repeat split; try apply same_node_refl. }
    destruct (flags (w_g w) f_longform) eqn:E3.
    2:{ destruct (Pop _ _ R) as (l'' & R' & ->).
        pose proof (fun H => IH g0 _ _ _ _ _ H R') as X.
        destruct (X Hf) as [F I].
        split; [|exact I]. constructor; [|exact F].
        rewrite Sup, Lf. cbn [orb negb andb].
        repeat split; try apply same_node_refl. }
    destruct (malloc _ _) as [[np|] h1] eqn:M; [|discriminate R].
    destruct (malloc_some _ _ _ _ M) as (_ & Elive & _).
    destruct (Pop _ _ R) as (l'' & R' & ->).
    pose proof (fun H => IH g0 _ _ _ _ _ H R') as X.
    destruct (X Hf) as [F I].
    cbn [w_heap with_heap] in I. rewrite Elive in I.
    split.
    + constructor; [|exact F].
      rewrite Sup, Lf. cbn [orb negb andb].
      split; [apply same_node_pointer|]. split; [reflexivity|].
      exists np. split; [reflexivity|]. apply I. left.
      unfold annotation_of.
      now rewrite (user_of_flags env _ _ _ Hf), (group_of_flags env _ _ _ Hf),
        (flags_of_flags _ _ Hf).
    + intros x Hx. apply I. now right.
Qed.

End LoopMarks.

Lemma alloc_ok_loop (w : world) (ns : bool) :
  alloc_ok w -> ns && flags (w_g w) f_longform = false \/ no_oom (w_heap w).
Proof.
  intros [H|H]; [left | right; exact H]. rewrite H. apply andb_false_r.
Qed.

Lemma display_fst_loop (env : sysenv) (p : option FTSENT) (l : list FTSENT)
    (w : world) :
  fst (display env p l w)
  = loop_list (display_loop env p (needstats_of (w_g w)) l locals0 w).
Proof.
  rewrite display_by_loop.
  destruct (display_loop env p (needstats_of (w_g w)) l locals0 w)
    as [l' w'|l' a w']; [reflexivity|].
  destruct (entries a =? 0); [reflexivity|].
  cbv zeta. destruct (flags _ f_longform); reflexivity.
Qed.

(** X12 (the marks).
    When no allocation fails, [display] returns the list
    it was given, entry for entry: nothing but [fts_number] and
    [fts_pointer] is written, the entries it suppresses get the
    do-not-print mark and the others keep the number they had. *)
Theorem display_marks_suppressed
    (env : sysenv) (p : option FTSENT) (l : list FTSENT) (w : world) :
  alloc_ok w ->
  Forall2
    (fun e e' =>
       same_node e e' /\
       fts_number e'
         = (if suppressed (w_g w) p e then NO_PRINT else fts_number e))
    l (fst (display env p l w)).
Proof.
  intro A.
  pose proof (display_loop_ends env p (needstats_of (w_g w)) l locals0 w
                (alloc_ok_loop w _ A)) as Hend.
  rewrite display_fst_loop.
  destruct (display_loop env p (needstats_of (w_g w)) l locals0 w)
    as [l' w'|l' a w'] eqn:R; [now elim Hend|].
  destruct (display_loop_marks env p _ l (w_g w) _ _ _ _ _ eq_refl R)
    as [F _].
  cbn [loop_list]. clear -F.
  induction F as [|e e' l l' (S & N & _) F IH]; constructor; auto.
Qed.

Lemma display_marks_suppressed_witness :
  map fts_number (fst (display env_plain (Some root_dir) sample_children
                         (world_of g_long)))
  = [0; NO_PRINT; NO_PRINT; 0].
Proof.
  assert (A : alloc_ok (world_of g_long)) by (right; reflexivity).
  pose proof (display_marks_suppressed env_plain (Some root_dir)
                sample_children (world_of g_long) A) as F.
  remember (fst (display env_plain (Some root_dir) sample_children
                   (world_of g_long))) as r eqn:Er.
  unfold sample_children in F.
  inversion F as [|e1 r1 ? t1 (_ & N1) F1]; subst.
  inversion F1 as [|e2 r2 ? t2 (_ & N2) F2]; subst.
  inversion F2 as [|e3 r3 ? t3 (_ & N3) F3]; subst.
  inversion F3 as [|e4 r4 ? t4 (_ & N4) F4]; subst.
  inversion F4; subst.
  cbn [map]. rewrite N1, N2, N3, N4. reflexivity.
Defined.

(** X13 (the annotations).
    When the loop of [display] reaches the end of
    the list in long format, every surviving entry of the list that goes
    to the print function points to a live block that holds its owner and
    group as they are printed and the flags string when -o is given; the
    suppressed entries keep the pointer they came with. *)
Theorem display_annotates_survivors
    (env : sysenv) (p : option FTSENT) (l : list FTSENT) (w : world)
    (l' : list FTSENT) (a : locals) (w' : world) :
  flags (w_g w) f_longform = true ->
  display_loop env p (needstats_of (w_g w)) l locals0 w = LoopEnd l' a w' ->
  d_list (make_DISPLAY (needstats_of (w_g w)) l' a) = l' /\
  Forall2
    (fun e e' =>
       if suppressed (w_g w) p e
       then fts_pointer e' = fts_pointer e
       else exists np,
              fts_pointer e' = Some np /\
              In (np, annotation_of env (w_g w) e) (h_live (w_heap w')))
    l l'.
Proof.
  intros L R. split; [reflexivity|].
  destruct (display_loop_marks env p _ l (w_g w) _ _ _ _ _ eq_refl R)
    as [F _].
  assert (N : needstats_of (w_g w) = true).
  { unfold needstats_of. rewrite L. now destruct (flags (w_g w) f_inode). }
  rewrite N, L in F. clear -F.
  induction F as [|e e' l l' (_ & _ & P) F IH]; constructor; [|exact IH].
  destruct (suppressed (w_g w) p e); exact P.
Qed.

Lemma display_annotates_survivors_witness :
  exists l' a w',
    display_loop env_plain (Some root_dir) true two_files locals0
      (world_of g_long) = LoopEnd l' a w' /\
    h_live (w_heap w')
      = [(1%nat, mknames "1000" "1000" None);
         (0%nat, mknames "1000" "1000" None)] /\
    Forall2
      (fun e e' =>
         if suppressed g_long (Some root_dir) e
         then fts_pointer e' = fts_pointer e
         else exists np,
                fts_pointer e' = Some np /\
                In (np, annotation_of env_plain g_long e)
                   (h_live (w_heap w')))
      two_files l'.
Proof.
  destruct (display_loop env_plain (Some root_dir) true two_files locals0
              (world_of g_long)) as [l' w'|l' a w'] eqn:R;
    [vm_compute in R; discriminate R|].
  exists l', a, w'. split; [reflexivity|].
  split; [vm_compute in R; injection R as _ _ <-; reflexivity|].
  apply (display_annotates_survivors env_plain (Some root_dir) two_files
           (world_of g_long) l' a w' eq_refl R).
Defined.

Lemma display_snd_channels (env : sysenv) (p : option FTSENT)
    (l : list FTSENT) (w : world) :
  w_stderr (snd (display env p l w))
    = w_stderr (loop_world
                  (display_loop env p (needstats_of (w_g w)) l locals0 w))
  /\
  rval (w_g (snd (display env p l w)))
    = rval (w_g (loop_world
                   (display_loop env p (needstats_of (w_g w)) l locals0 w))).
Proof.
  rewrite display_by_loop.
  destruct (display_loop env p (needstats_of (w_g w)) l locals0 w)
    as [l' w'|l' a w']; [split; reflexivity|].
  destruct (entries a =? 0); [split; reflexivity|].
  cbv zeta. destruct (flags _ f_longform); split; reflexivity.
Qed.

(** X14 (the error lines of one list).
    When no allocation fails, [display]
    writes to the error channel one line per error or not-stat-able entry
    of the list, in the order of the list, and nothing else; the failure
    status becomes 1 when there is such an entry and is left alone
    otherwise. *)
Theorem display_reports_each_bad_entry
    (env : sysenv) (p : option FTSENT) (l : list FTSENT) (w : world) :
  alloc_ok w ->
  w_stderr (snd (display env p l w)) = w_stderr w ++ node_errors l /\
  rval (w_g (snd (display env p l w)))
    = (if existsb is_err_or_ns l then 1 else rval (w_g w)).
Proof.
  intro A.
  destruct (display_snd_channels env p l w) as [E R]. rewrite E, R.
  apply display_loop_reports.
  apply display_loop_ends. apply alloc_ok_loop. exact A.
Qed.

Lemma display_reports_each_bad_entry_witness :
  w_stderr (snd (display env_plain (Some root_dir) sample_children
                   (world_of g_long)))
  = [ErrNode "unreadable-entry" 13].
Proof.
  assert (A : alloc_ok (world_of g_long)) by (right; reflexivity).
  destruct (display_reports_each_bad_entry env_plain (Some root_dir)
              sample_children (world_of g_long) A) as [E _].
  rewrite E. reflexivity.
Defined.

(** X15 (when the print function is called).
    When no allocation fails,
    [display] calls the print function exactly when at least one entry
    survives: once, with the list it returns and the number of survivors,
    and it then sets the "anything printed" flag; with no survivor the
    standard output and that flag are left as they were. *)
Theorem display_renders_iff_survivors
    (env : sysenv) (p : option FTSENT) (l : list FTSENT) (w : world) :
  alloc_ok w ->
  (survivors (w_g w) p l = [] ->
   w_stdout (snd (display env p l w)) = w_stdout w /\
   output (w_g (snd (display env p l w))) = output (w_g w)) /\
  (survivors (w_g w) p l <> [] ->
   exists d,
     w_stdout (snd (display env p l w))
       = w_stdout w ++ [OutRender (printfcn (w_g w)) d] /\
     d_list d = fst (display env p l w) /\
     d_entries d = Z.of_nat (List.length (survivors (w_g w) p l)) /\
     output (w_g (snd (display env p l w))) = true).
Proof.
  intro A. split; intro HS.
  - rewrite display_by_loop.
    rewrite (display_loop_no_survivors env p _ l (w_g w) locals0 w eq_refl
               HS).
    cbn [entries locals0 Z.eqb snd].
    pose proof (report_errors_frame l w) as F.
    split; [apply (frame_status_stdout _ _ F)
           | apply (frame_status_output _ _ F)].
  - pose proof (display_loop_ends env p (needstats_of (w_g w)) l locals0 w
                  (alloc_ok_loop w _ A)) as Hend.
    destruct (display_loop env p (needstats_of (w_g w)) l locals0 w)
      as [l' w'|l' a w'] eqn:R; [now elim Hend|].
    assert (Ha : a = fold_left (agg_step env (w_g w) (needstats_of (w_g w)))
                       (survivors (w_g w) p l) locals0).
    { apply (display_loop_locals env p _ l (w_g w) locals0 w);
        [reflexivity | now rewrite R]. }
    assert (Hn : entries a = Z.of_nat (List.length (survivors (w_g w) p l))).
    { rewrite Ha, agg_fold_entries. reflexivity. }
    assert (E : entries a <> 0).
    { rewrite Hn. destruct (survivors (w_g w) p l); [congruence|].
      cbn [List.length]. lia. }
    exists (make_DISPLAY (needstats_of (w_g w)) l' a).
    split; [apply (display_renders env p l w l' a w' R E)|].
    split; [rewrite display_fst_loop, R; reflexivity|].
    split; [exact Hn|].
    rewrite display_by_loop, R. apply Z.eqb_neq in E. rewrite E.
    cbv zeta. destruct (flags _ f_longform); reflexivity.
Qed.

Lemma display_renders_iff_survivors_witness :
  List.length (rendered (snd (display env_plain (Some root_dir)
                                sample_children (world_of g_long))))
  = 1%nat.
Proof.
  assert (A : alloc_ok (world_of g_long)) by (right; reflexivity).
  destruct (display_renders_iff_survivors env_plain (Some root_dir)
              sample_children (world_of g_long) A) as [_ H].
  destruct H as (d & E & _); [discriminate|].
  unfold rendered. rewrite E. reflexivity.
Defined.

Section MoreAggregates.

Variable env : sysenv.
Variable g : globals.

Lemma agg_fold_long_only (S : list FTSENT) :
  flags g f_longform = true ->
  forall a,
    bcfile (fold_left (agg_step env g true) S a)
      = bcfile a || existsb is_device S /\
    maxflags (fold_left (agg_step env g true) S a)
      = (if flags g f_flags && negb (is_nil S)
         then Z.max (maxflags a) 1 else maxflags a).
Proof.
  intro L.
  induction S as [|e S IH]; intro a; cbn [fold_left existsb is_nil].
  - rewrite orb_false_r, andb_false_r. split; reflexivity.
  - destruct (IH (agg_step env g true a e)) as [B M]. rewrite B, M.
    unfold agg_step. rewrite L.
    cbn [bcfile maxflags agg_count agg_bcfile agg_long agg_stat agg_name].
    unfold is_device, flen_of, flags_of.
    destruct (flags g f_flags); cbn [andb negb].
    + change (int_of (strlen "-")) with 1. rewrite gtb_max.
      split.
      * destruct (S_ISCHR _ || S_ISBLK _), (bcfile a); reflexivity.
      * destruct (is_nil S); cbn [negb]; lia.
    + split; [|reflexivity].
      destruct (S_ISCHR _ || S_ISBLK _), (bcfile a); reflexivity.
Qed.

Lemma agg_fold_short_only (ns : bool) (S : list FTSENT) :
  flags g f_longform = false ->
  forall a,
    bcfile (fold_left (agg_step env g ns) S a) = bcfile a /\
    maxflags (fold_left (agg_step env g ns) S a) = maxflags a /\
    maxuser (fold_left (agg_step env g ns) S a) = maxuser a /\
    maxgroup (fold_left (agg_step env g ns) S a) = maxgroup a.
Proof.
  intro L.
  induction S as [|e S IH]; intro a; cbn [fold_left].
  - repeat split.
  - destruct (IH (agg_step env g ns a e)) as (B & M & U & G).
    rewrite B, M, U, G. unfold agg_step. rewrite L.
    destruct ns; repeat split.
Qed.

End MoreAggregates.

(** X16 (the device flag and the flags column).
    In the descriptor that
    [display] hands to the print function, the stat-dependent part is
    filled exactly when -i, -l/-n or -s is in force.  In long format its
    device flag tells whether a surviving entry is a character or block
    device, and its flags column is one character wide with -o and empty
    without; outside the long format the device flag is off and the
    flags, user and group columns are empty. *)
Theorem display_device_and_flags_columns
    (env : sysenv) (p : option FTSENT) (l : list FTSENT) (w : world)
    (f : option printfn) (d : DISPLAY) :
  w_stdout (snd (display env p l w)) = w_stdout w ++ [OutRender f d] ->
  (needstats_of (w_g w) = false -> d_stats d = None) /\
  (needstats_of (w_g w) = true ->
   exists st,
     d_stats d = Some st /\
     (flags (w_g w) f_longform = true ->
      d_bcfile st = existsb is_device (survivors (w_g w) p l) /\
      s_flags st = (if flags (w_g w) f_flags then 1 else 0)) /\
     (flags (w_g w) f_longform = false ->
      d_bcfile st = false /\ s_flags st = 0 /\ s_user st = 0 /\
      s_group st = 0)).
Proof.
  intro Hout.
  destruct (display_rendered env p l w f d Hout)
    as (l' & a & w' & R & E & -> & ->).
  assert (Ha : a = fold_left (agg_step env (w_g w) (needstats_of (w_g w)))
                     (survivors (w_g w) p l) locals0).
  { apply (display_loop_locals env p _ l (w_g w) locals0 w);
      [reflexivity | now rewrite R]. }
  assert (HS : is_nil (survivors (w_g w) p l) = false).
  { destruct (survivors (w_g w) p l) eqn:S0; [|reflexivity].
    rewrite Ha in E. cbn in E. congruence. }
  split; intro N; rewrite N in *; cbn [d_stats make_DISPLAY].
  - reflexivity.
  - eexists. split; [reflexivity|].
    cbn [d_bcfile s_flags s_user s_group]. split; intro L.
    + destruct (agg_fold_long_only env (w_g w) (survivors (w_g w) p l) L
                  locals0) as [B M].
      rewrite <- Ha in B, M. rewrite B, M, HS.
      cbn [bcfile maxflags locals0 orb negb]. rewrite andb_true_r.
      split; [reflexivity|]. now destruct (flags (w_g w) f_flags).
    + destruct (agg_fold_short_only env (w_g w) true
                  (survivors (w_g w) p l) L locals0) as (B & M & U & G).
      rewrite <- Ha in B, M, U, G. rewrite B, M, U, G. repeat split.
Qed.

Lemma display_device_and_flags_columns_witness :
  exists st,
    d_stats sample_descriptor = Some st /\ d_bcfile st = false /\
    s_flags st = 0.
Proof.
  assert (Hout : w_stdout (snd (display env_plain (Some root_dir)
                                  sample_children (world_of g_long)))
                 = w_stdout (world_of g_long)
                   ++ [OutRender (Some Printlong) sample_descriptor])
    by (vm_compute; reflexivity).
  destruct (display_device_and_flags_columns env_plain (Some root_dir)
              sample_children (world_of g_long) (Some Printlong)
              sample_descriptor Hout) as [_ H].
  destruct (H eq_refl) as (st & E & HL & _).
  destruct (HL eq_refl) as [B F].
  exists st. split; [exact E|]. split; [rewrite B | rewrite F];
    vm_compute; reflexivity.
Defined.

(** ** The traversal controller, continued *)

Lemma same_config_refl (g : globals) : same_config g g.
Proof. destruct g. reflexivity. Qed.

Lemma same_config_trans (g1 g2 g3 : globals) :
  same_config g1 g2 -> same_config g2 g3 -> same_config g1 g3.
Proof.
  unfold same_config. intros H12 H23. rewrite H23 at 1. rewrite H12 at 1.
  reflexivity.
Qed.

Lemma same_config_set_rval (v : Z) (g : globals) :
  same_config g (set_rval v g).
Proof. destruct g. reflexivity. Qed.

Lemma same_config_set_output (v : bool) (g : globals) :
  same_config g (set_output v g).
Proof. destruct g. reflexivity. Qed.

Lemma same_config_flags (g g' : globals) :
  same_config g g' -> flags g' = flags g.
Proof. intro H. rewrite H. reflexivity. Qed.

Lemma same_config_printfcn (g g' : globals) :
  same_config g g' -> printfcn g' = printfcn g.
Proof. intro H. rewrite H. reflexivity. Qed.

Lemma frame_status_same_config (w w' : world) :
  frame_status w w' -> same_config (w_g w) (w_g w').
Proof.
  intro H. apply (f_equal w_g) in H. cbn [w_g] in H.
  rewrite H. apply same_config_set_rval.
Qed.

Lemma frame_status_skip (w w' : world) :
  frame_status w w' -> w_skip w' = w_skip w.
Proof. intro H. rewrite H. reflexivity. Qed.

(** What a call of [display] does to the configuration, the skip
    requests, the standard output and the "anything printed" flag. *)
Lemma display_effect (env : sysenv) (p : option FTSENT) (l : list FTSENT)
    (w : world) :
  same_config (w_g w) (w_g (snd (display env p l w))) /\
  w_skip (snd (display env p l w)) = w_skip w /\
  ((w_stdout (snd (display env p l w)) = w_stdout w /\
    output (w_g (snd (display env p l w))) = output (w_g w)) \/
   (exists d,
      w_stdout (snd (display env p l w))
        = w_stdout w ++ [OutRender (printfcn (w_g w)) d] /\
      output (w_g (snd (display env p l w))) = true)).
Proof.
  pose proof (display_loop_frame env p (needstats_of (w_g w)) l locals0 w)
    as F.
  rewrite display_by_loop.
  destruct (display_loop env p (needstats_of (w_g w)) l locals0 w)
    as [l' w'|l' a w']; cbn [loop_world] in F.
  - cbn [snd]. split; [now apply frame_status_same_config|].
    split; [now apply frame_status_skip|]. left.
    split; [apply (frame_status_stdout _ _ F)
           | apply (frame_status_output _ _ F)].
  - destruct (entries a =? 0).
    + cbn [snd]. split; [now apply frame_status_same_config|].
      split; [now apply frame_status_skip|]. left.
      split; [apply (frame_status_stdout _ _ F)
             | apply (frame_status_output _ _ F)].
    + cbv zeta.
      assert (C : same_config (w_g w) (set_output true (w_g w'))).
      { eapply same_config_trans;
          [apply (frame_status_same_config _ _ F)
          | apply same_config_set_output]. }
      rewrite <- (frame_status_stdout _ _ F),
        <- (frame_status_printfcn _ _ F), <- (frame_status_skip _ _ F).
      destruct (flags _ f_longform); cbn [snd];
        (split; [exact C|]); (split; [reflexivity|]);
        right; eexists; split; reflexivity.
Qed.

Lemma display_heap_cases (env : sysenv) (p : option FTSENT)
    (l : list FTSENT) (w : world) :
  w_heap (snd (display env p l w))
    = w_heap (loop_world
                (display_loop env p (needstats_of (w_g w)) l locals0 w))
  \/
  (flags (w_g w) f_longform = true /\
   w_heap (snd (display env p l w))
     = free_all (fst (display env p l w))
         (w_heap (loop_world
                    (display_loop env p (needstats_of (w_g w)) l locals0
                       w)))).
Proof.
  pose proof (display_loop_frame env p (needstats_of (w_g w)) l locals0 w)
    as F.
  rewrite display_by_loop.
  destruct (display_loop env p (needstats_of (w_g w)) l locals0 w)
    as [l' w'|l' a w']; cbn [loop_world] in *; [now left|].
  destruct (entries a =? 0); [now left|].
  cbv zeta. cbn [w_g put_out with_g set_output flags].
  rewrite (frame_status_flags _ _ F).
  destruct (flags (w_g w) f_longform); [right | left]; split; reflexivity.
Qed.

(** A call of [display] in which no allocation can fail leaves the
    allocator clean. *)
Lemma display_heap_clean (env : sysenv) (p : option FTSENT)
    (l : list FTSENT) (w : world) :
  no_oom (w_heap w) -> heap_ok (w_heap w) -> fresh_entries l ->
  heap_clean (w_heap w) (w_heap (snd (display env p l w))).
Proof.
  intros N K Fr.
  destruct (display_loop_heap_kept env p (needstats_of (w_g w)) l locals0 w)
    as (N1 & K1 & S1).
  specialize (N1 N). specialize (K1 K).
  split; [|split].
  - destruct (flags (w_g w) f_longform) eqn:L.
    + apply display_releases_annotations; try assumption.
      apply display_loop_ends. now right.
    + destruct (display_heap_cases env p l w) as [E|[L' _]];
        [|congruence].
      rewrite E, S1; [reflexivity|]. rewrite ?L. apply andb_false_r.
  - destruct (display_heap_cases env p l w) as [E|[_ E]]; rewrite E;
      [exact K1 | now apply free_all_keeps_heap_ok].
  - destruct (display_heap_cases env p l w) as [E|[_ E]]; rewrite E;
      [exact N1|].
    unfold no_oom. destruct (free_all_keeps (fst (display env p l w))
                               (w_heap (loop_world
                                          (display_loop env p
                                             (needstats_of (w_g w)) l
                                             locals0 w)))) as [_ O].
    rewrite O. exact N1.
Qed.

Lemma heap_clean_trans (h1 h2 h3 : heap) :
  heap_clean h1 h2 -> heap_clean h2 h3 -> heap_clean h1 h3.
Proof.
  intros (L1 & _ & _) (L2 & K & N).
  split; [congruence | split; assumption].
Qed.

Lemma out_tracks_refl (argc : Z) (w : world) : out_tracks argc w w.
Proof.
  exists []. rewrite app_nil_r, orb_false_r. repeat split.
Qed.

Lemma out_tracks_same (argc : Z) (w w' : world) :
  w_stdout w' = w_stdout w -> output (w_g w') = output (w_g w) ->
  out_tracks argc w w'.
Proof.
  intros S O. exists []. rewrite app_nil_r, orb_false_r. repeat split;
    assumption.
Qed.

Lemma out_tracks_trans (argc : Z) (w1 w2 w3 : world) :
  out_tracks argc w1 w2 -> out_tracks argc w2 w3 -> out_tracks argc w1 w3.
Proof.
  intros (n1 & S1 & O1 & G1) (n2 & S2 & O2 & G2).
  exists (n1 ++ n2). split; [|split].
  - rewrite S2, S1. now rewrite app_assoc.
  - rewrite O2, O1. destruct n1, n2; cbn [app is_nil negb];
      now rewrite ?orb_false_r, ?orb_true_r.
  - intro H. destruct n1 as [|x n1]; cbn [app].
    + apply G2. rewrite O1, H. reflexivity.
    + apply (G1 H).
Qed.

Lemma run_effect_quiet (argc : Z) (fresh : Prop) (w w' : world) :
  same_config (w_g w) (w_g w') -> w_skip w' = w_skip w ->
  w_stdout w' = w_stdout w -> output (w_g w') = output (w_g w) ->
  w_heap w' = w_heap w ->
  run_effect argc [] fresh w w'.
Proof.
  intros C S O F H. split; [exact C|]. split; [now rewrite app_nil_r|].
  split; [now apply out_tracks_same|].
  intros N K _. rewrite H. repeat split; assumption.
Qed.

Lemma run_effect_trans (argc : Z) (s1 s2 : list string) (f1 f2 : Prop)
    (w1 w2 w3 : world) :
  run_effect argc s1 f1 w1 w2 -> run_effect argc s2 f2 w2 w3 ->
  run_effect argc (s1 ++ s2) (f1 /\ f2) w1 w3.
Proof.
  intros (C1 & S1 & O1 & H1) (C2 & S2 & O2 & H2).
  split; [eapply same_config_trans; eassumption|].
  split; [rewrite S2, S1; now rewrite app_assoc|].
  split; [eapply out_tracks_trans; eassumption|].
  intros N K [F1 F2].
  destruct (H1 N K F1) as (L1 & K1 & N1).
  apply (heap_clean_trans _ (w_heap w2));
    [split; [exact L1 | split; assumption] | apply H2; assumption].
Qed.

Lemma run_effect_display (env : sysenv) (argc : Z) (p : option FTSENT)
    (l : list FTSENT) (w : world) :
  run_effect argc [] (fresh_entries l) w (snd (display env p l w)).
Proof.
  destruct (display_effect env p l w) as (C & S & O).
  split; [exact C|]. split; [now rewrite app_nil_r|]. split.
  - destruct O as [[O1 O2]|(d & O1 & O2)].
    + now apply out_tracks_same.
    + exists [OutRender (printfcn (w_g w)) d]. split; [exact O1|].
      split; [rewrite O2; now rewrite orb_true_r | intros _; exact I].
  - intros N K F. now apply display_heap_clean.
Qed.

(** The header of lines 398-404. *)
Lemma run_effect_header (argc : Z) (path : string) (w : world) :
  run_effect argc [] True w
    (if output (w_g w) then put_out (OutHeader true path) w
     else if argc >? 1
          then with_g (set_output true
                         (w_g (put_out (OutHeader false path) w)))
                 (put_out (OutHeader false path) w)
          else w).
Proof.
  destruct (output (w_g w)) eqn:O; [|destruct (Z.gtb_spec argc 1) as [G|G]].
  - split; [apply same_config_refl|]. split; [now rewrite app_nil_r|].
    split.
    + exists [OutHeader true path]. split; [reflexivity|].
      split; [cbn; now rewrite O | congruence].
    + intros N K _. repeat split; assumption.
  - split; [apply same_config_set_output|].
    split; [now rewrite app_nil_r|]. split.
    + exists [OutHeader false path]. split; [reflexivity|].
      split; [cbn; now rewrite orb_true_r|]. intros _. split;
        [reflexivity | lia].
    + intros N K _. repeat split; assumption.
  - apply run_effect_quiet; try reflexivity. apply same_config_refl.
Qed.

Lemma run_effect_weaken (argc : Z) (s s' : list string) (f f' : Prop)
    (w w' : world) :
  s = s' -> (f' -> f) -> run_effect argc s f w w' ->
  run_effect argc s' f' w w'.
Proof.
  intros <- Hf (C & S & O & H). repeat split; try assumption;
    apply H; auto.
Qed.

(** One turn of the loop of [traverse]. *)
Lemma traverse_event_effect (env : sysenv) (argc : Z) (ch_options : bool)
    (ev : fts_event) (w : world) :
  run_effect argc (skip_of_event (w_g w) ch_options ev)
    (fresh_entries (ev_children ev ch_options)) w
    (traverse_event env argc ch_options ev w).
Proof.
  unfold traverse_event, skip_of_event, listed_dir.
  destruct (fts_info (ev_ent ev)) eqn:Info; cbn [info_eqb andb];
    rewrite ?andb_false_r;
    try (apply run_effect_quiet; try reflexivity;
         first [apply same_config_refl | apply same_config_set_rval]).
  destruct (first_is_dot _ && _ && _); cbn [negb andb];
    rewrite ?andb_false_r.
  { apply run_effect_quiet; try reflexivity. apply same_config_refl. }
  cbv zeta.
  set (w1 := if output (w_g w) then _ else _).
  pose proof (run_effect_header argc (fts_path (ev_ent ev)) w) as H1.
  fold w1 in H1.
  pose proof (run_effect_display env argc (Some (ev_ent ev))
                (ev_children ev ch_options) w1) as H2.
  pose proof (run_effect_trans _ _ _ _ _ _ _ _ H1 H2) as H12.
  cbn [app] in H12.
  assert (R : flags (w_g (snd (display env (Some (ev_ent ev))
                                 (ev_children ev ch_options) w1)))
                f_recursive = flags (w_g w) f_recursive).
  { destruct H12 as (C & _). now rewrite (same_config_flags _ _ C). }
  rewrite R.
  destruct (negb (flags (w_g w) f_recursive)
            && match ev_children ev ch_options with
               | [] => false
               | _ :: _ => true
               end) eqn:Sk.
  - eapply run_effect_weaken;
      [| |apply (run_effect_trans argc [] [fts_path (ev_ent ev)] _ True
                  _ _ _ H12)].
    + reflexivity.
    + intro F. split; [split; [exact I | exact F] | exact I].
    + split; [apply same_config_refl|]. split; [reflexivity|].
      split; [now apply out_tracks_same|].
      intros N K _. repeat split; assumption.
  - eapply run_effect_weaken; [| |exact H12]; [reflexivity|].
    intro F. split; [exact I | exact F].
Qed.

Lemma skip_of_event_flags (g1 g2 : globals) (ch_options : bool)
    (ev : fts_event) :
  flags g1 = flags g2 ->
  skip_of_event g1 ch_options ev = skip_of_event g2 ch_options ev.
Proof. unfold skip_of_event, listed_dir. now intros ->. Qed.

Lemma traverse_loop_effect (env : sysenv) (argc : Z) (ch_options : bool)
    (evs : list fts_event) :
  forall w,
    run_effect argc
      (List.concat (map (skip_of_event (w_g w) ch_options) evs))
      (Forall (fun ev => fresh_entries (ev_children ev ch_options)) evs)
      w (traverse_loop env argc ch_options evs w).
Proof.
  unfold traverse_loop.
  induction evs as [|ev evs IH]; intro w; cbn [fold_left map List.concat].
  - apply run_effect_quiet; try reflexivity. apply same_config_refl.
  - pose proof (traverse_event_effect env argc ch_options ev w) as H1.
    pose proof (IH (traverse_event env argc ch_options ev w)) as H2.
    eapply run_effect_weaken;
      [| |apply (run_effect_trans _ _ _ _ _ _ _ _ H1 H2)].
    + f_equal. f_equal. apply map_ext. intro ev'.
      apply skip_of_event_flags.
      destruct H1 as (C & _). apply (same_config_flags _ _ C).
    + intro F. inversion F; subst. split; assumption.
Qed.

Lemma skips_when_recursive (g : globals) (ch_options : bool)
    (evs : list fts_event) :
  List.concat (map (skip_of_event g ch_options) evs)
  = if flags g f_recursive then [] else skipped_paths g ch_options evs.
Proof.
  unfold skipped_paths, skip_of_event.
  induction evs as [|ev evs IH]; cbn [map List.concat filter].
  - now destruct (flags g f_recursive).
  - rewrite IH. destruct (flags g f_recursive); cbn [negb andb app];
      [reflexivity|].
    destruct (listed_dir g ev && _); reflexivity.
Qed.

Lemma traverse_walk_effect (env : sysenv) (argc : Z) (o : fts_options)
    (ftsp : FTS) (w : world) :
  run_effect argc
    (if flags (w_g w) f_listdir || flags (w_g w) f_recursive then []
     else skipped_paths (w_g w) (o FTS_NOSTAT) (fts_reads ftsp))
    (fresh_walk ftsp) w (traverse_walk env argc o ftsp w).
Proof.
  unfold traverse_walk.
  pose proof (run_effect_display env argc None (fts_root ftsp) w) as H1.
  set (w1 := snd (display env None (fts_root ftsp) w)) in *.
  assert (Fl : flags (w_g w1) = flags (w_g w)).
  { destruct H1 as (C & _). apply (same_config_flags _ _ C). }
  rewrite Fl.
  destruct (flags (w_g w) f_listdir); cbn [orb].
  { eapply run_effect_weaken; [reflexivity| |exact H1]. now intros [F _]. }
  cbv zeta.
  set (cho := negb (flags (w_g w) f_recursive) && o FTS_NOSTAT).
  pose proof (traverse_loop_effect env argc cho (fts_reads ftsp) w1) as H2.
  pose proof (run_effect_trans _ _ _ _ _ _ _ _ H1 H2) as H12.
  cbn [app] in H12.
  assert (Sk : List.concat (map (skip_of_event (w_g w1) cho) (fts_reads ftsp))
               = if flags (w_g w) f_recursive then []
                 else skipped_paths (w_g w) (o FTS_NOSTAT) (fts_reads ftsp)).
  { rewrite skips_when_recursive, Fl. unfold cho.
    destruct (flags (w_g w) f_recursive); [reflexivity|].
    cbn [negb andb]. unfold skipped_paths, listed_dir. now rewrite Fl. }
  assert (Fr : fresh_walk ftsp ->
               fresh_entries (fts_root ftsp) /\
               Forall (fun ev => fresh_entries (ev_children ev cho))
                 (fts_reads ftsp)).
  { intros [F1 F2]. split; [exact F1|].
    eapply Forall_impl; [|exact F2]. intros ev H. apply H. }
  destruct (negb (fts_end_errno ftsp =? 0)).
  - assert (H3 : run_effect argc [] True
                   (traverse_loop env argc cho (fts_reads ftsp) w1)
                   (fail_with EXIT_FAILURE
                      (put_err (ErrFtsRead (fts_end_errno ftsp))
                         (traverse_loop env argc cho (fts_reads ftsp) w1)))).
    { apply run_effect_quiet; reflexivity. }
    pose proof (run_effect_trans _ _ _ _ _ _ _ _ H12 H3) as H4.
    rewrite app_nil_r in H4.
    eapply run_effect_weaken; [exact Sk | | exact H4].
    intro F. split; [now apply Fr | exact I].
  - eapply run_effect_weaken; [exact Sk | exact Fr | exact H12].
Qed.

(** X17 (the skip requests).
    A walk that lists the contents of directories
    without recursion asks the primitive to skip exactly the directories
    whose children it has handed to [display] and that have children, in
    the order of the walk; a recursive walk, or one that lists the
    directories themselves, asks for none. *)
Theorem traverse_skips_listed_directories
    (env : sysenv) (argc : Z) (o : fts_options) (ftsp : FTS) (w : world) :
  w_skip (traverse_walk env argc o ftsp w)
  = w_skip w
    ++ (if flags (w_g w) f_listdir || flags (w_g w) f_recursive then []
        else skipped_paths (w_g w) (o FTS_NOSTAT) (fts_reads ftsp)).
Proof.
  destruct (traverse_walk_effect env argc o ftsp w) as (_ & S & _).
  exact S.
Qed.

Lemma traverse_skips_listed_directories_witness :
  w_skip (traverse_walk env_sample 2
            (snd (configured env_sample [] initial_globals)) sample_walk
            (world_of g_plain)) = ["d"%string] /\
  w_skip (traverse_walk env_sample 2
            (snd (configured env_sample ["R"]%char initial_globals))
            sample_walk
            (world_of (fst (configured env_sample ["R"]%char
                              initial_globals)))) = [].
Proof.
  split.
  - rewrite (traverse_skips_listed_directories env_sample 2 _ sample_walk
               (world_of g_plain)).
    vm_compute. reflexivity.
  - rewrite (traverse_skips_listed_directories env_sample 2 _ sample_walk
               (world_of (fst (configured env_sample ["R"]%char
                                 initial_globals)))).
    vm_compute. reflexivity.
Defined.

Lemma traverse_effect (env : sysenv) (argc : Z) (argv : list string)
    (o : fts_options) (w : world) :
  exists skips,
    run_effect argc skips
      (forall ftsp,
         fts_open env argv o (fts_compar (w_g w)) = Some ftsp ->
         fresh_walk ftsp)
      w (traverse env argc argv o w).
Proof.
  unfold traverse.
  destruct (fts_open env argv o (fts_compar (w_g w))) as [ftsp|].
  - eexists. eapply run_effect_weaken;
      [reflexivity | | apply traverse_walk_effect].
    intro F. now apply F.
  - exists []. apply run_effect_quiet; reflexivity.
Qed.

Lemma ls_option_output (ch : ascii) (g g' : globals) (o o' : fts_options) :
  ls_option ch (g, o) = Some (g', o') -> output g' = output g.
Proof.
  destruct ch as [[] [] [] [] [] [] [] []]; cbn [ls_option];
    intro H; try discriminate H; injection H as <- _; reflexivity.
Qed.

Lemma ls_options_output (chs : list ascii) :
  forall g o g' o',
    ls_options chs (g, o) = inr (g', o') -> output g' = output g.
Proof.
  induction chs as [|ch chs IH]; intros g o g' o' H; cbn [ls_options] in H.
  - injection H as <- _. reflexivity.
  - destruct (ls_option ch (g, o)) as [[g1 o1]|] eqn:E; [|discriminate H].
    rewrite (IH _ _ _ _ H). apply (ls_option_output _ _ _ _ _ E).
Qed.

Lemma ls_reset_output (env : sysenv) (g : globals) :
  output (ls_reset env g) = false.
Proof.
  unfold ls_reset.
  destruct (isatty env), (getenv_COLUMNS env), (ioctl_ws_col env) as [c|],
    (getuid env =? 0); try destruct (c >? 0); reflexivity.
Qed.

Lemma ls_configure_output (env : sysenv) (chs : list ascii) (g0 g : globals)
    (o : fts_options) :
  ls_configure env chs g0 = inr (g, o) -> output g = false.
Proof.
  intro H.
  destruct (ls_configure_inv env chs g0 g o H)
    as (g1 & o1 & E & _ & _ & _ & _ & O & _).
  rewrite O, (ls_options_output chs _ _ _ _ E). apply ls_reset_output.
Qed.

(** [ls_main] after a valid option list: the configuration, then the
    walk. *)
Lemma ls_main_run (env : sysenv) (chs : list ascii) (operands : list string)
    (w : world) (g : globals) (o : fts_options) :
  ls_configure env chs (w_g w) = inr (g, o) ->
  snd (ls_main env chs operands w)
  = traverse env (Z.max 1 (Z.of_nat (List.length operands)))
      (match operands with [] => ["."%string] | _ :: _ => operands end)
      o (with_g g w).
Proof.
  intro C. unfold ls_main. rewrite C.
  destruct operands as [|x xs]; cbn [snd]; [reflexivity|].
  f_equal. cbn [List.length]. lia.
Qed.

Lemma good_start_argc (argc argc' : Z) (new : list out_item) :
  (1 < argc -> 1 < argc') -> good_start argc new -> good_start argc' new.
Proof.
  intros H G. destruct new as [|[b path|f d] rest]; cbn in *; auto.
  destruct G as [B A]. split; auto.
Qed.

(** X18 (headers and the blank line).
    After a call of [ls_main] with valid
    options the "anything printed" flag is on exactly when the call has
    written something to the standard output.  What it writes never
    starts with the blank line that separates two sections, and starts
    with a directory header only when more than one argument was given. *)
Theorem ls_main_output_starts_clean
    (env : sysenv) (chs : list ascii) (operands : list string) (w : world)
    (g : globals) (o : fts_options) :
  ls_configure env chs (w_g w) = inr (g, o) ->
  exists new,
    w_stdout (snd (ls_main env chs operands w)) = w_stdout w ++ new /\
    output (w_g (snd (ls_main env chs operands w))) = negb (is_nil new) /\
    good_start (Z.of_nat (List.length operands)) new.
Proof.
  intro C. rewrite (ls_main_run env chs operands w g o C).
  destruct (traverse_effect env (Z.max 1 (Z.of_nat (List.length operands)))
              (match operands with [] => ["."%string] | _ :: _ => operands end)
              o (with_g g w)) as (skips & _ & _ & (new & S & O & G) & _).
  exists new. cbn [w_stdout w_g with_g] in S, O, G.
  rewrite (ls_configure_output env chs (w_g w) g o C) in O, G.
  split; [exact S|]. split; [exact O|].
  apply (good_start_argc (Z.max 1 (Z.of_nat (List.length operands))));
    [lia | now apply G].
Qed.

Lemma ls_main_output_starts_clean_witness :
  exists new,
    w_stdout (snd (ls_main env_sample [] ["d"; "e"]%string world0)) = new /\
    good_start 2 new /\ List.length new = 2%nat.
Proof.
  assert (C : ls_configure env_sample [] (w_g world0)
              = inr (fst (configured env_sample [] (w_g world0)),
                     snd (configured env_sample [] (w_g world0))))
    by (vm_compute; reflexivity).
  destruct (ls_main_output_starts_clean env_sample [] ["d"; "e"]%string
              world0 _ _ C) as (new & S & _ & G).
  exists new. split; [exact S|]. split; [exact G|].
  cbn [w_stdout world0 world_of app] in S. rewrite <- S.
  vm_compute. reflexivity.
Defined.

(** X19 (the configuration during the walk).
    Between the end of the option
    processing and the return of [ls_main] nothing changes the flags, the
    sort key, the comparator, the print function, the block size or the
    terminal width: the globals at return are the configured ones up to
    the failure status and the "anything printed" flag. *)
Theorem ls_main_keeps_configuration
    (env : sysenv) (chs : list ascii) (operands : list string) (w : world)
    (g : globals) (o : fts_options) :
  ls_configure env chs (w_g w) = inr (g, o) ->
  same_config g (w_g (snd (ls_main env chs operands w))).
Proof.
  intro C. rewrite (ls_main_run env chs operands w g o C).
  destruct (traverse_effect env (Z.max 1 (Z.of_nat (List.length operands)))
              (match operands with [] => ["."%string] | _ :: _ => operands end)
              o (with_g g w)) as (skips & S & _).
  exact S.
Qed.

Lemma ls_main_keeps_configuration_witness :
  sortfcn (w_g (snd (ls_main env_sample ["t"; "l"]%char ["d"]%string world0)))
    = Some Modcmp /\
  printfcn (w_g (snd (ls_main env_sample ["t"; "l"]%char ["d"]%string
                        world0)))
    = Some Printlong.
Proof.
  assert (C : ls_configure env_sample ["t"; "l"]%char (w_g world0)
              = inr (fst (configured env_sample ["t"; "l"]%char
                            (w_g world0)),
                     snd (configured env_sample ["t"; "l"]%char
                            (w_g world0))))
    by (vm_compute; reflexivity).
  pose proof (ls_main_keeps_configuration env_sample ["t"; "l"]%char
                ["d"]%string world0 _ _ C) as S.
  split; rewrite S; vm_compute; reflexivity.
Defined.

(** X20 (no leak in a run).
    In a call of [ls_main] with valid options in
    which no allocation fails, on a walk whose entries come without
    annotation, every annotation allocated is released: the live blocks
    at return are those at entry, in long format as in the others. *)
Theorem ls_main_releases_annotations
    (env : sysenv) (chs : list ascii) (operands : list string) (w : world)
    (g : globals) (o : fts_options) :
  ls_configure env chs (w_g w) = inr (g, o) ->
  no_oom (w_heap w) -> heap_ok (w_heap w) ->
  (forall argv o' c ftsp,
     fts_open env argv o' c = Some ftsp -> fresh_walk ftsp) ->
  h_live (w_heap (snd (ls_main env chs operands w))) = h_live (w_heap w).
Proof.
  intros C N K F. rewrite (ls_main_run env chs operands w g o C).
  destruct (traverse_effect env (Z.max 1 (Z.of_nat (List.length operands)))
              (match operands with [] => ["."%string] | _ :: _ => operands end)
              o (with_g g w)) as (skips & _ & _ & _ & H).
  destruct H as (L & _); try assumption.
  intros ftsp E. apply (F _ _ _ _ E).
Qed.

Lemma ls_main_releases_annotations_witness :
  h_live (w_heap (snd (ls_main env_sample ["l"]%char ["d"; "e"]%string
                         world0))) = [] /\
  List.length (rendered (snd (ls_main env_sample ["l"]%char
                                ["d"; "e"]%string world0))) = 1%nat.
Proof.
  assert (C : ls_configure env_sample ["l"]%char (w_g world0)
              = inr (fst (configured env_sample ["l"]%char (w_g world0)),
                     snd (configured env_sample ["l"]%char (w_g world0))))
    by (vm_compute; reflexivity).
  assert (N : no_oom (w_heap world0)) by reflexivity.
  assert (K : heap_ok (w_heap world0)) by (intros x []).
  assert (F : forall argv o' c ftsp,
             fts_open env_sample argv o' c = Some ftsp -> fresh_walk ftsp).
  { intros argv o' c ftsp E. cbn in E. injection E as <-.
    split; repeat constructor. }
  split.
  - rewrite (ls_main_releases_annotations env_sample ["l"]%char
               ["d"; "e"]%string world0 _ _ C N K F). reflexivity.
  - vm_compute. reflexivity.
Defined.

(** X21 (listing directories themselves).
    After a valid option list the
    "list directory itself" mode is on exactly when -d is given.  In that
    mode a directory named on the command line is filtered like any other
    entry, and the run ends after the display of the argument list: the
    walk is never read, so no header is printed, no directory is entered
    and no error of the walk is reported. *)
Theorem listdir_displays_arguments_only
    (env : sysenv) (chs : list ascii) (g0 g : globals) (o : fts_options) :
  ls_configure env chs g0 = inr (g, o) ->
  flags g f_listdir = has_option "d" chs /\
  (has_option "d" chs = true ->
   (forall e, suppressed g None e = is_err_or_ns e) /\
   (forall argc ftsp w,
      w_g w = g ->
      traverse_walk env argc o ftsp w
      = snd (display env None (fts_root ftsp) w))).
Proof.
  intro H.
  destruct (ls_configure_settings env chs g0 g o H)
    as (g1 & o1 & E & F & _).
  pose proof (f_equal s_listdir E) as El.
  rewrite (fold_settings_proj s_listdir
             (fun ch a => a || Ascii.eqb "d" ch)) in El by reflexivity.
  rewrite fold_or in El. cbn [s_listdir settings_of reset_settings orb] in El.
  assert (L : flags g f_listdir = has_option "d" chs) by now rewrite F.
  split; [exact L|]. intro D. rewrite D in L. split.
  - intro e. unfold suppressed. rewrite L. cbn [negb].
    now rewrite andb_false_r, orb_false_r.
  - intros argc ftsp w <-. unfold traverse_walk.
    destruct (display_effect env None (fts_root ftsp) w) as (C & _).
    now rewrite (same_config_flags _ _ C), L.
Qed.

Lemma listdir_displays_arguments_only_witness :
  w_stdout (snd (ls_main env_sample ["R"; "d"]%char ["d"; "e"]%string
                   world0))
  = w_stdout (snd (display env_sample None (fts_root sample_walk)
                     (with_g (fst (configured env_sample ["R"; "d"]%char
                                     (w_g world0))) world0))).
Proof.
  assert (C : ls_configure env_sample ["R"; "d"]%char (w_g world0)
              = inr (fst (configured env_sample ["R"; "d"]%char
                            (w_g world0)),
                     snd (configured env_sample ["R"; "d"]%char
                            (w_g world0))))
    by (vm_compute; reflexivity).
  destruct (listdir_displays_arguments_only _ _ _ _ _ C) as [_ H].
  destruct (H eq_refl) as [_ T].
  rewrite (ls_main_run _ _ _ _ _ _ C). unfold traverse.
  cbn [fts_open env_sample]. rewrite T; reflexivity.
Defined.

(** X22 (a walk that cannot be opened).
    When [fts_open] fails, a call of
    [ls_main] with valid options returns EXIT_FAILURE; it has written one
    line to the error channel, naming the first argument (or "." when
    there is none), and nothing to the standard output. *)
Theorem ls_main_walk_not_opened
    (env : sysenv) (chs : list ascii) (operands : list string) (w : world)
    (g : globals) (o : fts_options) :
  ls_configure env chs (w_g w) = inr (g, o) ->
  (forall argv, fts_open env argv o (fts_compar g) = None) ->
  fst (ls_main env chs operands w) = EXIT_FAILURE /\
  w_stderr (snd (ls_main env chs operands w))
    = w_stderr w ++ [ErrFtsOpen (hd "."%string operands)] /\
  w_stdout (snd (ls_main env chs operands w)) = w_stdout w /\
  w_heap (snd (ls_main env chs operands w)) = w_heap w.
Proof.
  intros C F. unfold ls_main. rewrite C. unfold traverse.
  cbn [w_g with_g]. rewrite !F.
  destruct operands as [|x xs]; repeat split.
Qed.

Lemma ls_main_walk_not_opened_witness :
  fst (ls_main env_plain ["l"]%char ["nowhere"; "d"]%string world0) = 1 /\
  w_stderr (snd (ls_main env_plain ["l"]%char ["nowhere"; "d"]%string
                   world0))
    = [ErrFtsOpen "nowhere"].
Proof.
  assert (C : ls_configure env_plain ["l"]%char (w_g world0)
              = inr (fst (configured env_plain ["l"]%char (w_g world0)),
                     snd (configured env_plain ["l"]%char (w_g world0))))
    by (vm_compute; reflexivity).
  destruct (ls_main_walk_not_opened env_plain ["l"]%char
              ["nowhere"; "d"]%string world0 _ _ C (fun _ => eq_refl))
    as (S & E & _).
  split; [exact S | exact E].
Defined.

Lemma err_effect_trans (l1 l2 : list err_line) (w1 w2 w3 : world) :
  err_effect l1 w1 w2 -> err_effect l2 w2 w3 ->
  err_effect (l1 ++ l2) w1 w3.
Proof.
  intros H1 H2 A. destruct (H1 A) as (E1 & F1 & A1).
  destruct (H2 A1) as (E2 & F2 & A2).
  split; [rewrite E2, E1; now rewrite app_assoc|].
  split; [congruence | exact A2].
Qed.

Lemma err_effect_quiet (w w' : world) :
  w_stderr w' = w_stderr w -> flags (w_g w') = flags (w_g w) ->
  w_heap w' = w_heap w -> err_effect [] w w'.
Proof.
  intros E F H A. split; [now rewrite app_nil_r|]. split; [exact F|].
  unfold alloc_ok in *. now rewrite F, H.
Qed.

Lemma err_effect_line (x : err_line) (w w' : world) :
  w_stderr w' = w_stderr w ++ [x] -> flags (w_g w') = flags (w_g w) ->
  w_heap w' = w_heap w -> err_effect [x] w w'.
Proof.
  intros E F H A. split; [exact E|]. split; [exact F|].
  unfold alloc_ok in *. now rewrite F, H.
Qed.

Lemma display_keeps_no_oom (env : sysenv) (p : option FTSENT)
    (l : list FTSENT) (w : world) :
  no_oom (w_heap w) -> no_oom (w_heap (snd (display env p l w))).
Proof.
  intro N.
  destruct (display_loop_heap_kept env p (needstats_of (w_g w)) l locals0 w)
    as (N1 & _). specialize (N1 N).
  destruct (display_heap_cases env p l w) as [E|[_ E]]; rewrite E;
    [exact N1|].
  unfold no_oom.
  destruct (free_all_keeps (fst (display env p l w))
              (w_heap (loop_world
                         (display_loop env p (needstats_of (w_g w)) l
                            locals0 w)))) as [_ O].
  rewrite O. exact N1.
Qed.

Lemma err_effect_display (env : sysenv) (p : option FTSENT)
    (l : list FTSENT) (w : world) :
  err_effect (node_errors l) w (snd (display env p l w)).
Proof.
  intro A.
  destruct (display_snd_channels env p l w) as [E _].
  destruct (display_loop_reports env p (needstats_of (w_g w)) l locals0 w)
    as [E' _].
  { apply display_loop_ends. now apply alloc_ok_loop. }
  destruct (display_effect env p l w) as (C & _).
  pose proof (same_config_flags _ _ C) as F.
  split; [congruence|]. split; [exact F|].
  unfold alloc_ok in *. rewrite F.
  destruct A as [A|A]; [now left | right].
  now apply display_keeps_no_oom.
Qed.

Lemma event_errors_flags (g1 g2 : globals) (ch_options : bool)
    (ev : fts_event) :
  flags g1 = flags g2 ->
  event_errors g1 ch_options ev = event_errors g2 ch_options ev.
Proof. unfold event_errors, listed_dir. now intros ->. Qed.

Lemma err_effect_event (env : sysenv) (argc : Z) (ch_options : bool)
    (ev : fts_event) (w : world) :
  err_effect (event_errors (w_g w) ch_options ev) w
    (traverse_event env argc ch_options ev w).
Proof.
  unfold traverse_event, event_errors, listed_dir.
  destruct (fts_info (ev_ent ev)); cbn [info_eqb andb];
    try (apply err_effect_quiet; reflexivity);
    try (apply err_effect_line; reflexivity).
  destruct (first_is_dot _ && _ && _); cbn [negb].
  { apply err_effect_quiet; reflexivity. }
  cbv zeta.
  set (w1 := if output (w_g w) then _ else _).
  assert (H1 : err_effect [] w w1).
  { unfold w1. destruct (output (w_g w)); [|destruct (argc >? 1)];
      apply err_effect_quiet; reflexivity. }
  pose proof (err_effect_display env (Some (ev_ent ev))
                (ev_children ev ch_options) w1) as H2.
  pose proof (err_effect_trans _ _ _ _ _ H1 H2) as H12. cbn [app] in H12.
  destruct (negb _ && _); [|exact H12].
  rewrite <- (app_nil_r (node_errors (ev_children ev ch_options))).
  eapply err_effect_trans; [exact H12|].
  apply err_effect_quiet; reflexivity.
Qed.

Lemma err_effect_loop (env : sysenv) (argc : Z) (ch_options : bool)
    (evs : list fts_event) :
  forall w,
    err_effect (List.concat (map (event_errors (w_g w) ch_options) evs))
      w (traverse_loop env argc ch_options evs w).
Proof.
  unfold traverse_loop.
  induction evs as [|ev evs IH]; intro w; cbn [fold_left map List.concat].
  - apply err_effect_quiet; reflexivity.
  - pose proof (err_effect_event env argc ch_options ev w) as H1.
    pose proof (IH (traverse_event env argc ch_options ev w)) as H2.
    intro A. destruct (H1 A) as (_ & F & _).
    rewrite (map_ext _ _ (fun ev' => event_errors_flags _ _ ch_options ev' F))
      in H2.
    apply (err_effect_trans _ _ _ _ _ H1 H2 A).
Qed.

(** X23 (the error channel of a walk).
    When no allocation fails, a walk
    writes to the error channel, in this order: one line per error or
    not-stat-able entry among the arguments; unless directories are
    listed as themselves, for each event of the walk the lines of that
    event (one per error or not-stat-able child of a directory whose
    contents are listed, one for a directory cycle, one for an
    unreadable directory or an error node, none for any other event);
    and a last line when the primitive stops on an error.  Nothing else
    is written to it. *)
Theorem traverse_walk_error_lines
    (env : sysenv) (argc : Z) (o : fts_options) (ftsp : FTS) (w : world) :
  alloc_ok w ->
  w_stderr (traverse_walk env argc o ftsp w)
  = w_stderr w ++ walk_errors (w_g w) o ftsp.
Proof.
  intro A. unfold traverse_walk, walk_errors.
  pose proof (err_effect_display env None (fts_root ftsp) w) as H1.
  destruct (H1 A) as (E1 & F1 & A1). rewrite F1.
  destruct (flags (w_g w) f_listdir); [now rewrite app_nil_r|].
  cbv zeta.
  set (w1 := snd (display env None (fts_root ftsp) w)) in *.
  set (cho := negb (flags (w_g w) f_recursive) && o FTS_NOSTAT).
  destruct (err_effect_loop env argc cho (fts_reads ftsp) w1 A1)
    as (E2 & _ & _).
  rewrite (map_ext _ _ (fun ev' => event_errors_flags _ _ cho ev' F1)) in E2.
  destruct (fts_end_errno ftsp =? 0); cbn [negb].
  - rewrite E2, E1, app_nil_r. now rewrite app_assoc.
  - cbn [w_stderr fail_with with_g put_err]. rewrite E2, E1.
    now rewrite <- !app_assoc.
Qed.

Lemma traverse_walk_error_lines_witness :
  w_stderr (traverse_walk env_sample 2
              (snd (configured env_sample [] initial_globals)) sample_walk
              (world_of g_plain))
  = [ErrNode "e" 0].
Proof.
  assert (A : alloc_ok (world_of g_plain)) by (left; reflexivity).
  rewrite (traverse_walk_error_lines env_sample 2
             (snd (configured env_sample [] initial_globals)) sample_walk
             (world_of g_plain) A).
  vm_compute. reflexivity.
Defined.

(** * Whole runs *)

(** ** Every error of a run *)

Lemma reports_quiet (w w' : world) :
  w_stderr w' = w_stderr w -> h_oom (w_heap w') = h_oom (w_heap w) ->
  reports [] w w'.
Proof.
  intros E H. exists [], []. rewrite app_nil_r, H.
  repeat split; [exact E | intros x []].
Qed.

Lemma reports_line (x : err_line) (w w' : world) :
  is_malloc_line x = false ->
  w_stderr w' = w_stderr w ++ [x] -> h_oom (w_heap w') = h_oom (w_heap w) ->
  reports [x] w w'.
Proof.
  intros M E H. exists [x], []. rewrite H. cbn [filter app failed].
  rewrite M. repeat split; [exact E | apply incl_refl].
Qed.

Lemma reports_trans (l1 l2 : list err_line) (w1 w2 w3 : world) :
  reports l1 w1 w2 -> reports l2 w2 w3 -> reports (l1 ++ l2) w1 w3.
Proof.
  intros (n1 & u1 & E1 & I1 & H1 & C1) (n2 & u2 & E2 & I2 & H2 & C2).
  exists (n1 ++ n2), (u1 ++ u2). split; [|split; [|split]].
  - rewrite E2, E1. now rewrite app_assoc.
  - apply incl_app; [now apply incl_appl | now apply incl_appr].
  - rewrite H1, H2. now rewrite app_assoc.
  - unfold failed in *. rewrite !filter_app, !length_app. congruence.
Qed.

Lemma reports_less (l l' : list err_line) (w w' : world) :
  incl l' l -> reports l w w' -> reports l' w w'.
Proof.
  intros I (n & u & E & I1 & H & C). exists n, u.
  repeat split; try assumption. intros x Hx. apply I1, I, Hx.
Qed.

(** A stretch that reports nothing of its own, before or after one that
    reports [l]. *)
Lemma reports_after (l : list err_line) (w1 w2 w3 : world) :
  reports [] w1 w2 -> reports l w2 w3 -> reports l w1 w3.
Proof. intros H1 H2. apply (reports_trans [] l _ _ _ H1 H2). Qed.

Lemma reports_before (l : list err_line) (w1 w2 w3 : world) :
  reports l w1 w2 -> reports [] w2 w3 -> reports l w1 w3.
Proof.
  intros H1 H2. rewrite <- (app_nil_r l).
  apply (reports_trans l [] _ _ _ H1 H2).
Qed.

(** One call of [malloc] takes at most one outcome from the script, and
    fails exactly when that outcome says so. *)
Lemma malloc_script (v : NAMES) (h h1 : heap) (r : option nat) :
  malloc v h = (r, h1) ->
  exists used,
    h_oom h = used ++ h_oom h1 /\
    List.length (failed used)
      = (match r with None => 1%nat | Some _ => 0%nat end).
Proof.
  unfold malloc. intro M.
  destruct (h_oom h) as [|[] rest]; injection M as <- <-; cbn [h_oom].
  - exists []. split; reflexivity.
  - exists [true]. split; reflexivity.
  - exists [false]. split; reflexivity.
Qed.

Lemma reports_display_loop (env : sysenv) (p : option FTSENT) (ns : bool)
    (l : list FTSENT) :
  forall a w, reports [] w (loop_world (display_loop env p ns l a w)).
Proof.
  induction l as [|e l IH]; intros a w; cbn [display_loop].
  - now apply reports_quiet.
  - destruct (is_err_or_ns e).
    { rewrite loop_world_push.
      eapply reports_after; [|apply IH].
      apply (reports_less [ErrNode (fts_name e) (fts_errno e)]);
        [intros x []|].
      now apply reports_line. }
    destruct (match p with
              | None => _
              | Some _ => _
              end).
    { rewrite loop_world_push. apply IH. }
    destruct ns; [|rewrite loop_world_push; apply IH].
    destruct (flags (w_g w) f_longform);
      [|rewrite loop_world_push; apply IH].
    destruct (malloc _ _) as [[np|] h] eqn:M;
      destruct (malloc_script _ _ _ _ M) as (used & Hu & Cu).
    + rewrite loop_world_push.
      eapply reports_after; [|apply IH].
      exists [], used. cbn [w_stderr w_heap with_heap].
      rewrite app_nil_r, Cu. repeat split; [intros x [] | exact Hu].
    + cbn [loop_world].
      exists [ErrMalloc], used.
      cbn [w_stderr w_heap with_heap fail_with with_g put_err].
      rewrite Cu. repeat split; [intros x [] | exact Hu].
Qed.

Lemma reports_display (env : sysenv) (p : option FTSENT) (l : list FTSENT)
    (w : world) :
  reports [] w (snd (display env p l w)).
Proof.
  rewrite display_by_loop.
  pose proof (reports_display_loop env p (needstats_of (w_g w)) l locals0 w)
    as H.
  destruct (display_loop env p (needstats_of (w_g w)) l locals0 w)
    as [l' w'|l' a w']; cbn [loop_world] in H; [exact H|].
  destruct (entries a =? 0); [exact H|].
  eapply reports_before; [exact H|].
  cbv zeta. destruct (flags _ f_longform); cbn [snd];
    apply reports_quiet; try reflexivity.
  cbn [w_heap with_heap with_g put_out].
  apply (proj2 (free_all_keeps l' (w_heap w'))).
Qed.

Lemma reports_event (env : sysenv) (argc : Z) (ch_options : bool)
    (ev : fts_event) (w : world) :
  reports (event_line ev) w (traverse_event env argc ch_options ev w).
Proof.
  unfold traverse_event, event_line.
  destruct (fts_info (ev_ent ev));
    try (now apply reports_quiet);
    try (now apply reports_line).
  destruct (first_is_dot _ && _ && _); [now apply reports_quiet|].
  cbv zeta.
  set (w1 := if output (w_g w) then _ else _).
  assert (H1 : reports [] w w1).
  { unfold w1. destruct (output (w_g w)); [|destruct (argc >? 1)];
      now apply reports_quiet. }
  pose proof (reports_display env (Some (ev_ent ev))
                (ev_children ev ch_options) w1) as H2.
  pose proof (reports_after _ _ _ _ H1 H2) as H12.
  destruct (negb _ && _); [|exact H12].
  eapply reports_before; [exact H12|]. now apply reports_quiet.
Qed.

Lemma reports_loop (env : sysenv) (argc : Z) (ch_options : bool)
    (evs : list fts_event) :
  forall w,
    reports (flat_map event_line evs) w
      (traverse_loop env argc ch_options evs w).
Proof.
  unfold traverse_loop.
  induction evs as [|ev evs IH]; intro w; cbn [fold_left flat_map].
  - now apply reports_quiet.
  - eapply reports_trans; [apply reports_event | apply IH].
Qed.

Lemma reports_traverse (env : sysenv) (argc : Z) (operands : list string)
    (o : fts_options) (w : world) :
  reports (controller_errors env (w_g w) o operands) w
    (traverse env argc (walk_arguments operands) o w).
Proof.
  unfold traverse, controller_errors.
  destruct (fts_open env (walk_arguments operands) o (fts_compar (w_g w)))
    as [ftsp|]; [|now apply reports_line].
  unfold traverse_walk.
  pose proof (reports_display env None (fts_root ftsp) w) as H1.
  destruct (display_effect env None (fts_root ftsp) w) as (C & _).
  rewrite (same_config_flags _ _ C).
  destruct (flags (w_g w) f_listdir); [exact H1|].
  cbv zeta.
  set (w1 := snd (display env None (fts_root ftsp) w)) in *.
  set (cho := negb (flags (w_g w) f_recursive) && o FTS_NOSTAT).
  pose proof (reports_loop env argc cho (fts_reads ftsp) w1) as H2.
  pose proof (reports_after _ _ _ _ H1 H2) as H12.
  destruct (fts_end_errno ftsp =? 0); cbn [negb].
  - now rewrite app_nil_r.
  - eapply reports_trans; [exact H12|]. now apply reports_line.
Qed.

(** When no allocation fails, the lines of a call of [traverse] are the
    errors of the walk, one for one. *)
Lemma traverse_error_lines (env : sysenv) (argc : Z) (operands : list string)
    (o : fts_options) (w : world) :
  alloc_ok w ->
  w_stderr (traverse env argc (walk_arguments operands) o w)
  = w_stderr w ++ run_errors env (w_g w) o operands.
Proof.
  intro A. unfold traverse, run_errors.
  destruct (fts_open env (walk_arguments operands) o (fts_compar (w_g w)))
    as [ftsp|]; [|reflexivity].
  unfold traverse_walk, walk_errors.
  pose proof (err_effect_display env None (fts_root ftsp) w) as H1.
  destruct (H1 A) as (E1 & F1 & A1). rewrite F1.
  destruct (flags (w_g w) f_listdir); [now rewrite app_nil_r|].
  cbv zeta.
  set (w1 := snd (display env None (fts_root ftsp) w)) in *.
  set (cho := negb (flags (w_g w) f_recursive) && o FTS_NOSTAT).
  destruct (err_effect_loop env argc cho (fts_reads ftsp) w1 A1)
    as (E2 & _ & _).
  rewrite (map_ext _ _ (fun ev' => event_errors_flags _ _ cho ev' F1)) in E2.
  destruct (fts_end_errno ftsp =? 0); cbn [negb].
  - rewrite E2, E1, app_nil_r. now rewrite app_assoc.
  - cbn [w_stderr fail_with with_g put_err]. rewrite E2, E1.
    now rewrite <- !app_assoc.
Qed.

Lemma ls_main_walk (env : sysenv) (chs : list ascii) (operands : list string)
    (w : world) (g : globals) (o : fts_options) :
  ls_configure env chs (w_g w) = inr (g, o) ->
  snd (ls_main env chs operands w)
  = traverse env (Z.max 1 (Z.of_nat (List.length operands)))
      (walk_arguments operands) o (with_g g w).
Proof. intro C. apply (ls_main_run env chs operands w g o C). Qed.

(** C2, amended.  In a call of [ls_main] with valid options, entered with
    the failure status at zero:

    - the lines of the call are added to the error channel, and the
      status returned, which is the failure status, is 1 when one of them
      is not a directory-cycle report and 0 otherwise;
    - the walk that cannot be opened, every directory cycle, unreadable
      directory and error node among the events read from the walk (none
      is read when directories are listed as themselves), and the failure
      of [fts_read] are reported, whatever the allocator does;
    - every allocation that fails is reported by one line;
    - when no allocation fails, the lines are exactly the errors of the
      run, one line for each, in the order in which they occur: the walk
      that cannot be opened, or else the error and not-stat-able entries
      of each list displayed, the cycles, the unreadable directories and
      error nodes, and the failure of [fts_read].

    So every error is reported, and every error but a directory cycle
    sets the failure status: a cycle is reported and leaves it as it
    is. *)
Theorem ls_main_status_follows_errors
    (env : sysenv) (chs : list ascii) (operands : list string) (w : world)
    (g : globals) (o : fts_options) :
  rval (w_g w) = 0 ->
  ls_configure env chs (w_g w) = inr (g, o) ->
  exists new,
    w_stderr (snd (ls_main env chs operands w)) = w_stderr w ++ new /\
    fst (ls_main env chs operands w)
      = (if existsb failure_line new then 1 else 0) /\
    rval (w_g (snd (ls_main env chs operands w)))
      = fst (ls_main env chs operands w) /\
    incl (controller_errors env g o operands) new /\
    (exists used,
       h_oom (w_heap w)
       = used ++ h_oom (w_heap (snd (ls_main env chs operands w))) /\
       List.length (filter is_malloc_line new) = List.length (failed used))
    /\
    (alloc_ok (with_g g w) -> new = run_errors env g o operands).
Proof.
  intros R0 C.
  destruct (ls_main_status_tracks env chs operands w g o C)
    as [(new & E & R) S].
  exists new. rewrite S, R, R0.
  split; [exact E|]. split; [reflexivity|]. split; [reflexivity|].
  rewrite (ls_main_walk env chs operands w g o C) in *.
  pose proof (reports_traverse env
                (Z.max 1 (Z.of_nat (List.length operands))) operands o
                (with_g g w)) as (n & u & En & In' & Hu & Cu).
  cbn [w_stderr w_heap w_g with_g] in En, In', Hu.
  assert (n = new) as -> by (rewrite E in En; now apply app_inv_head in En).
  split; [exact In'|]. split; [exists u; split; assumption|].
  intro A.
  pose proof (traverse_error_lines env
                (Z.max 1 (Z.of_nat (List.length operands))) operands o
                (with_g g w) A) as X.
  cbn [w_stderr w_g with_g] in X. rewrite E in X.
  now apply app_inv_head in X.
Qed.

Lemma ls_main_status_follows_errors_witness :
  w_stderr (snd (ls_main env_errors [] [] world0))
    = [ErrNode "gone" 2; ErrCycle "loop"; ErrNode "locked" 13; ErrFtsRead 5]
  /\
  fst (ls_main env_errors [] [] world0) = 1 /\
  w_stderr (snd (ls_main env_cycle [] [] world0)) = [ErrCycle "loop"] /\
  fst (ls_main env_cycle [] [] world0) = 0.
Proof.
  assert (R0 : rval (w_g world0) = 0) by reflexivity.
  assert (A : forall g, alloc_ok (with_g g world0)) by (intro; now right).
  assert (C : ls_configure env_errors [] (w_g world0)
              = inr (fst (configured env_errors [] (w_g world0)),
                     snd (configured env_errors [] (w_g world0))))
    by (vm_compute; reflexivity).
  assert (C' : ls_configure env_cycle [] (w_g world0)
               = inr (fst (configured env_cycle [] (w_g world0)),
                      snd (configured env_cycle [] (w_g world0))))
    by (vm_compute; reflexivity).
  destruct (ls_main_status_follows_errors env_errors [] [] world0 _ _
              R0 C) as (new & E & S & _ & _ & _ & X).
  destruct (ls_main_status_follows_errors env_cycle [] [] world0 _ _
              R0 C') as (new' & E' & S' & _ & _ & _ & X').
  specialize (X (A _)). specialize (X' (A _)).
  assert (N : new = [ErrNode "gone" 2; ErrCycle "loop"; ErrNode "locked" 13;
                     ErrFtsRead 5]) by (rewrite X; vm_compute; reflexivity).
  assert (N' : new' = [ErrCycle "loop"])
    by (rewrite X'; vm_compute; reflexivity).
  rewrite E, S, E', S', N, N'. repeat split.
Defined.


(** ** The lists that reach the print function *)

Lemma rendered_put_out (x : out_item) (w : world) :
  rendered (put_out x w)
  = rendered w ++ match x with
                  | OutRender _ d => [d]
                  | OutHeader _ _ => []
                  end.
Proof.
  unfold rendered. cbn [w_stdout put_out]. rewrite flat_map_app.
  cbn [flat_map]. now rewrite app_nil_r.
Qed.

Lemma rendered_stdout (w w' : world) :
  w_stdout w' = w_stdout w -> rendered w' = rendered w.
Proof. unfold rendered. now intros ->. Qed.

Lemma suppressed_flags (g1 g2 : globals) (p : option FTSENT) (e : FTSENT) :
  flags g1 = flags g2 -> suppressed g1 p e = suppressed g2 p e.
Proof. unfold suppressed. now intros ->. Qed.

Lemma has_survivor_flags (g1 g2 : globals)
    (pl : option FTSENT * list FTSENT) :
  flags g1 = flags g2 -> has_survivor g1 pl = has_survivor g2 pl.
Proof.
  intro F. unfold has_survivor, survivors. do 2 f_equal.
  apply filter_ext. intro e. now rewrite (suppressed_flags g1 g2 _ _ F).
Qed.

Lemma renders_list_flags (g1 g2 : globals)
    (pl : option FTSENT * list FTSENT) (d : DISPLAY) :
  flags g1 = flags g2 -> renders_list g1 pl d -> renders_list g2 pl d.
Proof.
  intros F H. unfold renders_list in *.
  eapply Forall2_impl; [|exact H].
  intros e e' [S N]. split; [exact S|].
  now rewrite <- (suppressed_flags g1 g2 _ _ F).
Qed.

Lemma event_lists_flags (g1 g2 : globals) (ch_options : bool)
    (ev : fts_event) :
  flags g1 = flags g2 ->
  event_lists g1 ch_options ev = event_lists g2 ch_options ev.
Proof. unfold event_lists, listed_dir. now intros ->. Qed.

Lemma render_effect_quiet (w w' : world) :
  rendered w' = rendered w -> flags (w_g w') = flags (w_g w) ->
  w_heap w' = w_heap w -> render_effect [] w w'.
Proof.
  intros E F H A. split; [|split; [exact F|]].
  - exists []. rewrite app_nil_r. split; [exact E | constructor].
  - unfold alloc_ok in *. now rewrite F, H.
Qed.

Lemma render_effect_trans (l1 l2 : list (option FTSENT * list FTSENT))
    (w1 w2 w3 : world) :
  render_effect l1 w1 w2 -> render_effect l2 w2 w3 ->
  render_effect (l1 ++ l2) w1 w3.
Proof.
  intros H1 H2 A.
  destruct (H1 A) as ((d1 & E1 & R1) & F1 & A1).
  destruct (H2 A1) as ((d2 & E2 & R2) & F2 & A2).
  split; [|split; [congruence | exact A2]].
  exists (d1 ++ d2). split; [rewrite E2, E1; now rewrite app_assoc|].
  apply Forall2_app; [exact R1|].
  eapply Forall2_impl; [|exact R2].
  intros pl d. now apply renders_list_flags.
Qed.

Lemma render_effect_after (l : list (option FTSENT * list FTSENT))
    (w1 w2 w3 : world) :
  render_effect [] w1 w2 -> render_effect l w2 w3 -> render_effect l w1 w3.
Proof. intros H1 H2. apply (render_effect_trans [] l _ _ _ H1 H2). Qed.

Lemma render_effect_before (l : list (option FTSENT * list FTSENT))
    (w1 w2 w3 : world) :
  render_effect l w1 w2 -> render_effect [] w2 w3 -> render_effect l w1 w3.
Proof.
  intros H1 H2. rewrite <- (app_nil_r l).
  apply (render_effect_trans l [] _ _ _ H1 H2).
Qed.

(** One call of [display]: the print function is called for the list when
    an entry of it survives, and receives it entry for entry. *)
Lemma render_effect_display (env : sysenv) (p : option FTSENT)
    (l : list FTSENT) (w : world) :
  render_effect (filter (has_survivor (w_g w)) [(p, l)]) w
    (snd (display env p l w)).
Proof.
  intro A.
  destruct (err_effect_display env p l w A) as (_ & F & A').
  split; [|split; [exact F | exact A']].
  cbn [filter]. unfold has_survivor. cbn [fst snd].
  destruct (survivors (w_g w) p l) as [|s0 ss] eqn:HS; cbn [is_nil negb].
  - exists []. rewrite app_nil_r. split; [|constructor].
    apply rendered_stdout.
    rewrite display_by_loop.
    rewrite (display_loop_no_survivors env p _ l (w_g w) locals0 w eq_refl
               HS).
    cbn [entries locals0 Z.eqb snd].
    apply (frame_status_stdout _ _ (report_errors_frame l w)).
  - pose proof (display_loop_ends env p (needstats_of (w_g w)) l locals0 w
                  (alloc_ok_loop w _ A)) as Hend.
    destruct (display_loop env p (needstats_of (w_g w)) l locals0 w)
      as [l' w'|l' a w'] eqn:R; [now elim Hend|].
    assert (Ha : a = fold_left (agg_step env (w_g w) (needstats_of (w_g w)))
                       (survivors (w_g w) p l) locals0).
    { apply (display_loop_locals env p _ l (w_g w) locals0 w);
        [reflexivity | now rewrite R]. }
    assert (E : entries a <> 0).
    { rewrite Ha, agg_fold_entries, HS. cbn [List.length entries locals0].
      lia. }
    exists [make_DISPLAY (needstats_of (w_g w)) l' a]. split.
    + unfold rendered. rewrite (display_renders env p l w l' a w' R E).
      rewrite flat_map_app. reflexivity.
    + constructor; [|constructor].
      unfold renders_list. cbn [fst snd d_list make_DISPLAY].
      destruct (display_loop_marks env p _ l (w_g w) _ _ _ _ _ eq_refl R)
        as [M _].
      eapply Forall2_impl; [|exact M].
      intros e e' (S & N & _). now split.
Qed.

Lemma render_effect_event (env : sysenv) (argc : Z) (ch_options : bool)
    (ev : fts_event) (w : world) :
  render_effect
    (filter (has_survivor (w_g w)) (event_lists (w_g w) ch_options ev))
    w (traverse_event env argc ch_options ev w).
Proof.
  unfold traverse_event, event_lists, listed_dir.
  destruct (fts_info (ev_ent ev)); cbn [info_eqb andb filter];
    try (apply render_effect_quiet; reflexivity).
  destruct (first_is_dot _ && _ && _); cbn [negb filter].
  { apply render_effect_quiet; reflexivity. }
  cbv zeta.
  set (w1 := if output (w_g w) then _ else _).
  assert (F1 : flags (w_g w1) = flags (w_g w)).
  { unfold w1. destruct (output (w_g w)); [|destruct (argc >? 1)];
      reflexivity. }
  assert (H1 : render_effect [] w w1).
  { apply render_effect_quiet; [|exact F1|];
      unfold w1; destruct (output (w_g w)); [|destruct (argc >? 1)| |];
      try reflexivity.
    - rewrite rendered_put_out. now rewrite app_nil_r.
    - rewrite <- (app_nil_r (rendered w)).
      rewrite <- (rendered_put_out (OutHeader false (fts_path (ev_ent ev)))
                    w).
      now apply rendered_stdout.
    - destruct (argc >? 1); reflexivity. }
  pose proof (render_effect_display env (Some (ev_ent ev))
                (ev_children ev ch_options) w1) as H2.
  rewrite (filter_ext _ _ (fun pl => has_survivor_flags _ _ pl F1)) in H2.
  pose proof (render_effect_after _ _ _ _ H1 H2) as H12.
  destruct (negb _ && _); [|exact H12].
  eapply render_effect_before; [exact H12|].
  apply render_effect_quiet; reflexivity.
Qed.

Lemma render_effect_loop (env : sysenv) (argc : Z) (ch_options : bool)
    (evs : list fts_event) :
  forall w,
    render_effect
      (filter (has_survivor (w_g w))
         (flat_map (event_lists (w_g w) ch_options) evs))
      w (traverse_loop env argc ch_options evs w).
Proof.
  unfold traverse_loop.
  induction evs as [|ev evs IH]; intro w; cbn [fold_left flat_map filter].
  - apply render_effect_quiet; reflexivity.
  - pose proof (render_effect_event env argc ch_options ev w) as H1.
    pose proof (IH (traverse_event env argc ch_options ev w)) as H2.
    intro A. destruct (H1 A) as (_ & F & _).
    rewrite (filter_ext _ _ (fun pl => has_survivor_flags _ _ pl F)) in H2.
    rewrite (flat_map_ext _ _
               (fun ev' => event_lists_flags _ _ ch_options ev' F)) in H2.
    rewrite filter_app.
    apply (render_effect_trans _ _ _ _ _ H1 H2 A).
Qed.

Lemma filter_cons_app {A : Type} (f : A -> bool) (x : A) (r : list A) :
  filter f (x :: r) = filter f [x] ++ filter f r.
Proof. cbn [filter]. destruct (f x); reflexivity. Qed.

Lemma render_effect_walk (env : sysenv) (argc : Z) (o : fts_options)
    (ftsp : FTS) (w : world) :
  render_effect (filter (has_survivor (w_g w)) (walk_lists (w_g w) o ftsp))
    w (traverse_walk env argc o ftsp w).
Proof.
  unfold traverse_walk, walk_lists. rewrite filter_cons_app.
  pose proof (render_effect_display env None (fts_root ftsp) w) as H1.
  intro A. destruct (H1 A) as (_ & F & _). revert A.
  rewrite F.
  destruct (flags (w_g w) f_listdir).
  { cbn [filter]. rewrite app_nil_r. exact H1. }
  cbv zeta.
  set (w1 := snd (display env None (fts_root ftsp) w)) in *.
  set (cho := negb (flags (w_g w) f_recursive) && o FTS_NOSTAT).
  pose proof (render_effect_loop env argc cho (fts_reads ftsp) w1) as H2.
  rewrite (filter_ext _ _ (fun pl => has_survivor_flags _ _ pl F)) in H2.
  rewrite (flat_map_ext _ _
             (fun ev' => event_lists_flags _ _ cho ev' F)) in H2.
  pose proof (render_effect_trans _ _ _ _ _ H1 H2) as H12.
  destruct (negb (fts_end_errno ftsp =? 0)); [|exact H12].
  eapply render_effect_before; [exact H12|].
  apply render_effect_quiet; reflexivity.
Qed.

Lemma listdir_option (env : sysenv) (chs : list ascii) (g0 g : globals)
    (o : fts_options) :
  ls_configure env chs g0 = inr (g, o) ->
  flags g f_listdir = has_option "d" chs.
Proof.
  intro H.
  destruct (ls_configure_settings env chs g0 g o H)
    as (g1 & o1 & E & F & _).
  pose proof (f_equal s_listdir E) as El.
  rewrite (fold_settings_proj s_listdir
             (fun ch a => a || Ascii.eqb "d" ch)) in El by reflexivity.
  rewrite fold_or in El. cbn [s_listdir settings_of reset_settings orb] in El.
  now rewrite F.
Qed.

(** C10, amended.  Once the option -f has been read among valid options,
    the no-sort flag is set when the walk is opened and the comparator
    handed to [fts_open] is the null pointer: [mastercmp] takes no part in
    the walk.  ls.c does not reorder anything itself: when no allocation
    fails, the print function is called once for each list of that walk
    in which an entry survives, the arguments first and then the children
    of each directory listed, in the order of the events; and it receives
    the list entry for entry in the order of the walk, with the
    do-not-print mark on the suppressed entries.  The directories among
    the arguments are still kept apart from the other arguments: unless
    -d is given they are suppressed in the first list, like the error and
    not-stat-able entries. *)
Theorem nosort_opens_walk_without_comparator
    (env : sysenv) (chs : list ascii) (operands : list string) (w : world)
    (g : globals) (o : fts_options) :
  In "f"%char chs ->
  ls_configure env chs (w_g w) = inr (g, o) ->
  flags g f_nosort = true /\
  fts_compar g = None /\
  (forall e,
     suppressed g None e
     = is_err_or_ns e
       || info_eqb (fts_info e) FTS_D && negb (has_option "d" chs)) /\
  match fts_open env (walk_arguments operands) o None with
  | None => w_stdout (snd (ls_main env chs operands w)) = w_stdout w
  | Some ftsp =>
      alloc_ok (with_g g w) ->
      exists ds,
        rendered (snd (ls_main env chs operands w)) = rendered w ++ ds /\
        Forall2 (renders_list g)
          (filter (has_survivor g) (walk_lists g o ftsp)) ds
  end.
Proof.
  intros Hin C.
  destruct (ls_configure_keeps env chs (w_g w) g o C) as [_ N].
  specialize (N Hin).
  assert (F : fts_compar g = None) by (unfold fts_compar; now rewrite N).
  split; [exact N|]. split; [exact F|]. split.
  { intro e. unfold suppressed.
    now rewrite (listdir_option env chs (w_g w) g o C). }
  rewrite (ls_main_walk env chs operands w g o C).
  unfold traverse. cbn [w_g with_g]. rewrite F.
  destruct (fts_open env (walk_arguments operands) o None) as [ftsp|];
    [|reflexivity].
  intro A.
  destruct (render_effect_walk env
              (Z.max 1 (Z.of_nat (List.length operands))) o ftsp
              (with_g g w) A) as ((ds & E & R) & _).
  exists ds. split; [exact E | exact R].
Qed.

Lemma nosort_opens_walk_without_comparator_witness :
  fts_compar (fst (configured env_raw ["f"%char] initial_globals)) = None /\
  List.length
    (rendered (snd (ls_main env_raw ["f"%char] ["d"; "f"]%string world0)))
  = 2%nat.
Proof.
  assert (C : ls_configure env_raw ["f"%char] (w_g world0)
              = inr (fst (configured env_raw ["f"%char] initial_globals),
                     snd (configured env_raw ["f"%char] initial_globals)))
    by (vm_compute; reflexivity).
  destruct (nosort_opens_walk_without_comparator env_raw ["f"%char]
              ["d"; "f"]%string world0 _ _ (or_introl eq_refl) C)
    as (_ & F & _ & H).
  split; [exact F|].
  cbn [fts_open env_raw walk_arguments] in H.
  destruct H as (ds & E & R); [now right|].
  rewrite E. change (rendered world0) with (@nil DISPLAY). cbn [app].
  rewrite <- (Forall2_length R). vm_compute. reflexivity.
Defined.

(** C10, as the specification states it, fails.  Without comparator the
    primitive hands out the directory "d" before the file "f"; the run
    with -f still shows "f" first, and "d" in a section of its own after
    it, exactly as the run without -f does on the sorted walk. *)
Lemma nosort_keeps_directories_apart :
  fts_compar (fst (configured env_raw ["f"%char] initial_globals)) = None /\
  fts_open env_raw ["d"; "f"]%string
    (snd (configured env_raw ["f"%char] initial_globals)) None
  = Some raw_walk /\
  map fts_name (fts_root raw_walk) = ["d"; "f"]%string /\
  map shown
    (w_stdout (snd (ls_main env_raw ["f"%char] ["d"; "f"]%string world0)))
  = [inr ["f"]; inl "d"; inr ["x"]]%string /\
  map shown (w_stdout (snd (ls_main env_raw [] ["d"; "f"]%string world0)))
  = [inr ["f"]; inl "d"; inr ["x"]]%string.
Proof.
  repeat (match goal with |- _ /\ _ => split end);
    vm_compute; reflexivity.
Qed.
